(** * Pickup/drop-off routing service and travel-matrix builder

    A shallow embedding of [app/services/routing_service.py],
    [app/services/matrix_service.py] and the handler of
    [app/routes/api/solve_routes.py] that calls them.

    Python integers are [Z]; a finite float is the rational [Q] it
    stands for (every binary64 value is one), and [pyfloat] adds the
    infinities and NaN where the code can meet them; [str] is [string],
    read as a sequence of code points below 256; lists are [list]; a cell
    that may hold [None] is an [option]; the process-wide [_cache]
    dictionary is a [gmap string _].  The only float arithmetic is
    [round(secs / 60)] and [round(a, 6)]: the quotient is rounded to
    binary64 as the division rounds it ([Binary64.nearest]) before
    [round] takes it to an integer, and [round(a, 6)] is taken on the
    exact value of [a].

    Exceptions are values of [exn]; a computation that can raise returns a
    [result], and one that also reads or changes the process (the cache,
    the network) is a state-passing function [M].

    Everything that lives outside the repository is a parameter: the
    OR-Tools handles and the assignment the solver returns, the replies of
    the two Google endpoints, [json.loads], [float] and [int] on text, and
    the SHA-256 digest of the cache signature. *)

From Stdlib Require Import ZArith QArith Qround List String Ascii Lia Bool.
From stdpp Require Import base gmap strings list pretty.

Local Open Scope string_scope.
Local Open Scope list_scope.
Local Open Scope Z_scope.

(** ** Python exceptions and results *)

Inductive exn : Type :=
| HTTPException (status_code : Z) (detail : string)   (* fastapi *)
| RequestsHTTPError (status_code : Z) (text : string) (* requests.HTTPError *)
| RequestsConnectionError                             (* no response at all *)
| JSONDecodeError
| KeyError (key : string)
| IndexError
| TypeError
| ValueError
| OverflowError
| AttributeError.

Inductive result (A : Type) : Type :=
| Ok (a : A)
| Raise (e : exn).
Arguments Ok {A} a.
Arguments Raise {A} e.

Definition bind {A B} (r : result A) (k : A -> result B) : result B :=
  match r with
  | Ok a => k a
  | Raise e => Raise e
  end.

Declare Scope py_scope.
Delimit Scope py_scope with py.
Notation "'let*' x ':=' r 'in' k" := (bind r (fun x => k))
  (at level 10, x pattern, r at level 100, k at level 200) : py_scope.
Local Open Scope py_scope.

Definition is_ok {A} (r : result A) : bool :=
  match r with Ok _ => true | Raise _ => false end.

(** ** Python sequences *)

Module Py.

(** [range(n)] *)
Definition range (n : Z) : list Z := map Z.of_nat (seq 0 (Z.to_nat n)).

(** Position designated by the subscript [i] in a sequence of [len]
    items: negative subscripts count from the end, anything else out of
    range is an [IndexError]. *)
Definition index (len : nat) (i : Z) : option nat :=
  if (0 <=? i) && (i <? Z.of_nat len) then Some (Z.to_nat i)
  else if (- Z.of_nat len <=? i) && (i <? 0) then Some (Z.to_nat (Z.of_nat len + i))
  else None.

(** [l[i]] *)
Definition getitem {A} (l : list A) (i : Z) : result A :=
  match index (length l) i with
  | Some k => match l !! k with Some x => Ok x | None => Raise IndexError end
  | None => Raise IndexError
  end.

(** [l[i] = x] *)
Definition setitem {A} (l : list A) (i : Z) (x : A) : result (list A) :=
  match index (length l) i with
  | Some k => Ok (<[k := x]> l)
  | None => Raise IndexError
  end.

(** [m[i][j]] *)
Definition getitem2 {A} (m : list (list A)) (i j : Z) : result A :=
  let* row := getitem m i in getitem row j.

(** [m[i][j] = x]: the row is fetched, then updated in place. *)
Definition setitem2 {A} (m : list (list A)) (i j : Z) (x : A)
  : result (list (list A)) :=
  let* row := getitem m i in
  let* row' := setitem row j x in
  setitem m i row'.

(** A [for] loop over a list whose body may raise. *)
Fixpoint for_each {A S} (l : list A) (body : A -> S -> result S) (s : S)
  : result S :=
  match l with
  | [] => Ok s
  | x :: l' => let* s' := body x s in for_each l' body s'
  end.

Lemma index_in_range len i :
  0 <= i < Z.of_nat len -> index len i = Some (Z.to_nat i).
Proof.
  intros H. unfold index.
  destruct (Z.leb_spec 0 i), (Z.ltb_spec i (Z.of_nat len)); simpl; try lia.
  reflexivity.
Qed.

Lemma index_lt len i k : index len i = Some k -> (k < len)%nat.
Proof.
  unfold index.
  destruct (Z.leb_spec 0 i), (Z.ltb_spec i (Z.of_nat len)); simpl;
    try (intros [= <-]; lia);
    destruct (Z.leb_spec (- Z.of_nat len) i), (Z.ltb_spec i 0); simpl;
    intros [= <-]; lia.
Qed.

Lemma getitem_in_range {A} (l : list A) i :
  0 <= i < Z.of_nat (length l) -> exists x, getitem l i = Ok x /\ l !! Z.to_nat i = Some x.
Proof.
  intros H. unfold getitem. rewrite (index_in_range _ _ H).
  destruct (lookup_lt_is_Some_2 l (Z.to_nat i)) as [x Hx]; [lia|].
  exists x. rewrite Hx. auto.
Qed.

Lemma range_elem n i : i ∈ range n <-> 0 <= i < n.
Proof.
  unfold range. rewrite list_elem_of_fmap. split.
  - intros [k [-> Hk]]. apply elem_of_seq in Hk. lia.
  - intros H. exists (Z.to_nat i). split; [lia|]. apply elem_of_seq. lia.
Qed.

End Py.

(** * The routing engine: [routing_service.py] *)

Module RoutingService.

(** One entry of a vehicle's ["stops"] list and one entry of ["routes"]. *)
Record Stop := { stop_id : string; load_at_stop : Z; time_min : Z }.

Record Route := {
  vehicle_id : Z;
  stops : list Stop;
  total_travel_time_min : Z;
  max_load : Z
}.

(** The handles [pywrapcp] hands out at lines 15-16.  The index space has
    [num_indices] indices; [IsEnd] recognises the vehicles' end indices. *)
Record RoutingIndexManager := { IndexToNode : Z -> Z; NodeToIndex : Z -> Z }.
Record RoutingModel := { num_indices : Z; Start : Z -> Z; IsEnd : Z -> bool }.

(** What [solution.Value] reads from the assignment [SolveWithParameters]
    returns: the value of [NextVar], [VehicleVar] and of the cumul
    variables of the two dimensions, per index. *)
Record Assignment := {
  NextVar : Z -> Z;
  VehicleVar : Z -> Z;
  TimeCumulVar : Z -> Z;
  CapacityCumulVar : Z -> Z
}.

(** [HTTPException(status_code=500, detail="No feasible route found")] *)
Definition infeasible : exn := HTTPException 500 "No feasible route found".

(** The scan of [demand_callback] over the pair list: the first pair that
    mentions the node decides. *)
Fixpoint demand_of_node (pairs : list (Z * Z)) (node : Z) : Z :=
  match pairs with
  | [] => 0
  | (p, d) :: rest =>
      if node =? p then 1
      else if node =? d then -1
      else demand_of_node rest node
  end.

Section Solve.

Variables (ids : list string) (minutes : list (list Z)).
Variable pickup_drop_pairs : list (Z * Z).
Variables (vehicle_count vehicle_capacity depot_index : Z).
Variables (manager : RoutingIndexManager) (routing : RoutingModel).

Definition time_callback (from_index to_index : Z) : result Z :=
  Py.getitem2 minutes (IndexToNode manager from_index) (IndexToNode manager to_index).

Definition demand_callback (from_index : Z) : Z :=
  demand_of_node pickup_drop_pairs (IndexToNode manager from_index).

(** The [while not routing.IsEnd(index)] loop of lines 80-90.  [None] is a
    loop that has not finished within [fuel] tests of its condition. *)
Fixpoint walk (solution : Assignment) (fuel : nat) (index : Z)
    (vehicle_route : list Stop) (max_load : Z)
  : option (result (Z * list Stop * Z)) :=
  match fuel with
  | O => None
  | S fuel' =>
      if IsEnd routing index then Some (Ok (index, vehicle_route, max_load))
      else
        let node := IndexToNode manager index in
        match Py.getitem ids node with
        | Raise e => Some (Raise e)
        | Ok sid =>
            let load := CapacityCumulVar solution index in
            let max_load := Z.max max_load load in
            walk solution fuel' (NextVar solution index)
              (vehicle_route ++ [{| stop_id := sid; load_at_stop := load;
                                    time_min := TimeCumulVar solution index |}])
              max_load
        end
  end.

(** The body of [for v in range(vehicle_count)], lines 76-106. *)
Definition extract_route (solution : Assignment) (fuel : nat) (v : Z)
  : option (result Route) :=
  match walk solution fuel (Start routing v) [] 0 with
  | None => None
  | Some (Raise e) => Some (Raise e)
  | Some (Ok (index, vehicle_route, max_load)) =>
      let end_node := IndexToNode manager index in
      Some (let* sid := Py.getitem ids end_node in
            let vehicle_route :=
              (vehicle_route ++ [{| stop_id := sid;
                                    load_at_stop := CapacityCumulVar solution index;
                                    time_min := TimeCumulVar solution index |}])%list in
            let* final := Py.getitem vehicle_route (-1) in
            Ok {| vehicle_id := v; stops := vehicle_route;
                  total_travel_time_min := time_min final;
                  max_load := max_load |})
  end.

Fixpoint extract_routes (solution : Assignment) (fuel : nat) (vs : list Z)
    (routes : list Route) : option (result (list Route)) :=
  match vs with
  | [] => Some (Ok routes)
  | v :: vs' =>
      match extract_route solution fuel v with
      | None => None
      | Some (Raise e) => Some (Raise e)
      | Some (Ok r) => extract_routes solution fuel vs' (routes ++ [r])
      end
  end.

(** [solve_routes], from the outcome of [routing.SolveWithParameters]
    on: [None] when the search found nothing. *)
Definition solve_routes (fuel : nat) (solution : option Assignment)
  : option (result (list Route)) :=
  match solution with
  | None => Some (Raise infeasible)
  | Some a => extract_routes a fuel (Py.range vehicle_count) []
  end.

(** ** The model handed to the solver *)

Definition is_index (j : Z) : Prop := 0 <= j < num_indices routing.
Definition is_node (n : Z) : Prop := 0 <= n < Z.of_nat (length ids).

(** What [RoutingIndexManager(len(ids), vehicle_count, depot_index)] and
    [RoutingModel(manager)] guarantee about the index space. *)
Record manager_ok : Prop := {
  node_of_index : forall j, is_index j -> is_node (IndexToNode manager j);
  index_of_node : forall n, is_node n ->
    is_index (NodeToIndex manager n) /\
    IsEnd routing (NodeToIndex manager n) = false /\
    IndexToNode manager (NodeToIndex manager n) = n;
  start_of_vehicle : forall v, 0 <= v < vehicle_count ->
    is_index (Start routing v) /\
    IsEnd routing (Start routing v) = false /\
    IndexToNode manager (Start routing v) = depot_index;
  end_is_depot : forall j, is_index j -> IsEnd routing j = true ->
    IndexToNode manager j = depot_index
}.

(** The chain of [NextVar] from [i]: the visited indices, then the end
    index it stops at. *)
Inductive path (a : Assignment) : Z -> list Z -> Z -> Prop :=
| path_end e : IsEnd routing e = true -> path a e [] e
| path_step i l e :
    IsEnd routing i = false -> path a (NextVar a i) l e -> path a i (i :: l) e.

(** The constraints an assignment returned for this model satisfies.

    - routing model: every vehicle has a route from its start to an end,
      and every visit index is on the route of its [VehicleVar] (no
      disjunction is declared, so every stop is mandatory);
    - ["Time"] (lines 26-32): transit from the matrix, slack at most 30,
      cumul within [0, 1440], zero at the starts;
    - ["Capacity"] (lines 46-52): transit [demand_callback], no slack,
      cumul within [0, vehicle_capacity], zero at the starts;
    - per pair (lines 59-60): equal [VehicleVar] and ordered ["Time"]
      cumuls.

    Line 58 also declares each pair with [AddPickupAndDelivery]; what that
    call adds inside OR-Tools is stated neither by the repository nor by
    its specification, and nothing is assumed of it here. *)
Record feasible (a : Assignment) : Prop := {
  next_index : forall i, is_index i -> IsEnd routing i = false ->
    is_index (NextVar a i);
  vehicle_route : forall v, 0 <= v < vehicle_count ->
    exists l e, path a (Start routing v) l e;
  vehicle_of_index : forall i, is_index i -> IsEnd routing i = false ->
    0 <= VehicleVar a i < vehicle_count /\
    exists l e, path a (Start routing (VehicleVar a i)) l e /\ i ∈ l;
  time_transit : forall i, is_index i -> IsEnd routing i = false ->
    exists t, time_callback i (NextVar a i) = Ok t /\
      TimeCumulVar a i + t <= TimeCumulVar a (NextVar a i) <= TimeCumulVar a i + t + 30;
  time_bounds : forall j, is_index j -> 0 <= TimeCumulVar a j <= 1440;
  time_start : forall v, 0 <= v < vehicle_count -> TimeCumulVar a (Start routing v) = 0;
  capacity_transit : forall i, is_index i -> IsEnd routing i = false ->
    CapacityCumulVar a (NextVar a i) = CapacityCumulVar a i + demand_callback i;
  capacity_bounds : forall j, is_index j -> 0 <= CapacityCumulVar a j <= vehicle_capacity;
  capacity_start : forall v, 0 <= v < vehicle_count ->
    CapacityCumulVar a (Start routing v) = 0;
  pair_same_vehicle : forall p d, (p, d) ∈ pickup_drop_pairs ->
    VehicleVar a (NodeToIndex manager p) = VehicleVar a (NodeToIndex manager d);
  pair_time : forall p d, (p, d) ∈ pickup_drop_pairs ->
    TimeCumulVar a (NodeToIndex manager p) <= TimeCumulVar a (NodeToIndex manager d)
}.


(** ** What the extraction computes from an assignment *)

Definition id_of_node (n : Z) : string := nth (Z.to_nat n) ids "".

Definition stop_of (a : Assignment) (i : Z) : Stop :=
  {| stop_id := id_of_node (IndexToNode manager i);
     load_at_stop := CapacityCumulVar a i;
     time_min := TimeCumulVar a i |}.

Definition route_of (a : Assignment) (v : Z) (l : list Z) (e : Z) : Route :=
  {| vehicle_id := v;
     stops := map (stop_of a) (l ++ [e]);
     total_travel_time_min := TimeCumulVar a e;
     max_load := fold_left Z.max (map (CapacityCumulVar a) l) 0 |}.

Lemma getitem_id n : is_node n -> Py.getitem ids n = Ok (id_of_node n).
Proof.
  intros H. destruct (Py.getitem_in_range ids n H) as [x [-> Hx]].
  unfold id_of_node. f_equal. symmetry. apply nth_lookup_Some with (d := ""). exact Hx.
Qed.

Lemma path_functional a i l e l' e' :
  path a i l e -> path a i l' e' -> l = l' /\ e = e'.
Proof.
  intros H. revert l' e'. induction H as [e He | i l e Hi _ IH]; intros l' e' H'.
  - inversion H' as [? He' | ? ? ? Hne' Hp']; subst; [auto | congruence].
  - inversion H' as [? He' | ? ? ? Hne' Hp']; subst; [congruence |].
    destruct (IH _ _ Hp') as [-> ->]. auto.
Qed.

Lemma path_indices a i l e :
  feasible a -> is_index i -> path a i l e ->
  Forall is_index l /\ is_index e.
Proof.
  intros F Hi H. induction H as [e He | i l e Hne _ IH].
  - split; [constructor | exact Hi].
  - destruct IH as [Hl He]; [apply (next_index a F); assumption |].
    split; [constructor; assumption | exact He].
Qed.

Lemma walk_path a i l e :
  manager_ok -> path a i l e -> Forall is_index l ->
  forall fuel acc m, (length l < fuel)%nat ->
    walk a fuel i acc m =
    Some (Ok (e, acc ++ map (stop_of a) l,
              fold_left Z.max (map (CapacityCumulVar a) l) m)).
Proof.
  intros M H. induction H as [e He | i l e Hne _ IH]; intros Hl fuel acc m Hf.
  - destruct fuel; [simpl in Hf; lia |]. simpl. rewrite He, app_nil_r. reflexivity.
  - destruct fuel; [simpl in Hf; lia |]. simpl. rewrite Hne.
    inversion Hl as [| ? ? Hi Hl']; subst.
    rewrite (getitem_id _ (node_of_index M _ Hi)).
    rewrite IH; [| assumption | simpl in Hf; lia].
    rewrite <- app_assoc. reflexivity.
Qed.

Lemma extract_route_path a v l e fuel :
  manager_ok -> feasible a -> 0 <= v < vehicle_count ->
  path a (Start routing v) l e -> (length l < fuel)%nat ->
  extract_route a fuel v = Some (Ok (route_of a v l e)).
Proof.
  intros M F Hv H Hf.
  destruct (start_of_vehicle M v Hv) as [Hs _].
  destruct (path_indices a _ _ _ F Hs H) as [Hl He].
  unfold extract_route. rewrite (walk_path a _ l e M H Hl); [| assumption].
  simpl. rewrite (getitem_id _ (node_of_index M _ He)). simpl.
  unfold Py.getitem, Py.index.
  rewrite !length_app, length_map. simpl.
  destruct (Z.leb_spec 0 (-1)); [lia |]. simpl.
  destruct (Z.leb_spec (- Z.of_nat (length l + 1)) (-1)); [| lia].
  destruct (Z.ltb_spec (-1) 0); [| lia]. simpl.
  replace (Z.to_nat (Z.of_nat (length l + 1) + -1)) with (length (map (stop_of a) l) + 0)%nat
    by (rewrite length_map; lia).
  rewrite lookup_app_r by lia.
  replace (length (map (stop_of a) l) + 0 - length (map (stop_of a) l))%nat with 0%nat by lia.
  simpl. unfold route_of. rewrite map_app. reflexivity.
Qed.

Lemma extract_routes_paths a fuel vs :
  manager_ok -> feasible a ->
  Forall (fun v => 0 <= v < vehicle_count /\
            forall l e, path a (Start routing v) l e -> (length l < fuel)%nat) vs ->
  forall acc, exists rs,
    extract_routes a fuel vs acc = Some (Ok (acc ++ rs)) /\
    Forall2 (fun v r => exists l e, path a (Start routing v) l e /\ r = route_of a v l e) vs rs.
Proof.
  intros M F H. induction H as [| v vs [Hv Hlen] _ IH]; intros acc.
  - exists []. rewrite app_nil_r. split; [reflexivity | constructor].
  - destruct (vehicle_route a F v Hv) as [l [e Hp]].
    simpl. rewrite (extract_route_path a v l e fuel M F Hv Hp (Hlen _ _ Hp)).
    destruct (IH (acc ++ [route_of a v l e])) as [rs [E Hrs]].
    exists (route_of a v l e :: rs). rewrite E, <- app_assoc. split; [reflexivity |].
    constructor; [exists l, e; auto | exact Hrs].
Qed.

Lemma enough_fuel a vs :
  feasible a -> Forall (fun v => 0 <= v < vehicle_count) vs ->
  exists fuel0, forall fuel, (fuel0 <= fuel)%nat ->
    Forall (fun v => 0 <= v < vehicle_count /\
              forall l e, path a (Start routing v) l e -> (length l < fuel)%nat) vs.
Proof.
  intros F H. induction H as [| v vs Hv _ [f0 IH]].
  - exists 0%nat. constructor.
  - destruct (vehicle_route a F v Hv) as [l [e Hp]].
    exists (Nat.max f0 (S (length l))). intros fuel Hf. constructor.
    + split; [exact Hv |]. intros l' e' Hp'.
      destruct (path_functional a _ _ _ _ _ Hp Hp') as [<- _]. lia.
    + apply IH. lia.
Qed.

(** With fuel enough for the longest route the loops finish, and the
    result lists, vehicle by vehicle, the stops of that vehicle's chain. *)
Lemma solve_routes_extracts a :
  manager_ok -> feasible a ->
  exists fuel0, forall fuel, (fuel0 <= fuel)%nat ->
    exists routes,
      solve_routes fuel (Some a) = Some (Ok routes) /\
      Forall2 (fun v r => exists l e, path a (Start routing v) l e /\ r = route_of a v l e)
        (Py.range vehicle_count) routes.
Proof.
  intros M F.
  destruct (enough_fuel a (Py.range vehicle_count) F) as [f0 H0].
  { apply Forall_forall. intros v Hv. apply Py.range_elem. exact Hv. }
  exists f0. intros fuel Hf.
  destruct (extract_routes_paths a fuel _ M F (H0 fuel Hf) []) as [rs [E Hrs]].
  exists rs. split; [exact E | exact Hrs].
Qed.

Lemma route_of_vehicle a routes v l e :
  Forall2 (fun v r => exists l e, path a (Start routing v) l e /\ r = route_of a v l e)
    (Py.range vehicle_count) routes ->
  0 <= v < vehicle_count -> path a (Start routing v) l e ->
  route_of a v l e ∈ routes.
Proof.
  intros H Hv Hp.
  assert (Hin : v ∈ Py.range vehicle_count) by (apply Py.range_elem; exact Hv).
  apply list_elem_of_lookup in Hin as [k Hk].
  destruct (Forall2_lookup_l _ _ _ _ _ H Hk) as [r [Hr [l' [e' [Hp' ->]]]]].
  destruct (path_functional a _ _ _ _ _ Hp Hp') as [<- <-].
  apply list_elem_of_lookup. exists k. exact Hr.
Qed.

Lemma fold_max_bounds (xs : list Z) (m c : Z) :
  0 <= m <= c -> Forall (fun x => 0 <= x <= c) xs ->
  0 <= fold_left Z.max xs m <= c.
Proof.
  intros Hm H. revert m Hm. induction H as [| x xs Hx _ IH]; intros m Hm.
  - exact Hm.
  - simpl. apply IH. lia.
Qed.

(** C2.  For every assignment the solver can return, every entry of every
    vehicle's ["stops"] list has a load within [0, vehicle_capacity], and
    so has the route's ["max_load"]. *)
Theorem load_within_capacity (a : Assignment) :
  manager_ok -> feasible a ->
  exists fuel0, forall fuel, (fuel0 <= fuel)%nat ->
    exists routes,
      solve_routes fuel (Some a) = Some (Ok routes) /\
      forall r, r ∈ routes ->
        (forall s, s ∈ stops r -> 0 <= load_at_stop s <= vehicle_capacity) /\
        0 <= max_load r <= vehicle_capacity.
Proof.
  intros M F.
  destruct (solve_routes_extracts a M F) as [fuel0 Hex].
  exists fuel0. intros fuel Hfuel.
  destruct (Hex fuel Hfuel) as [routes [Hsolve Hroutes]].
  exists routes. split; [exact Hsolve |].
  intros r Hr. apply list_elem_of_lookup in Hr as [k Hk].
  destruct (Forall2_lookup_r _ _ _ _ _ Hroutes Hk) as [v [Hv [l [e [Hpath ->]]]]].
  assert (Hvr : 0 <= v < vehicle_count)
    by (apply Py.range_elem, list_elem_of_lookup; exists k; exact Hv).
  destruct (start_of_vehicle M v Hvr) as [Hs _].
  destruct (path_indices a _ _ _ F Hs Hpath) as [Hl He].
  split.
  - intros s Hin. simpl in Hin. apply list_elem_of_fmap in Hin as [i [-> Hi]].
    simpl. apply (capacity_bounds a F).
    apply elem_of_app in Hi as [Hi | Hi].
    + rewrite Forall_forall in Hl. apply Hl. exact Hi.
    + apply list_elem_of_singleton in Hi. subst i. exact He.
  - simpl. apply fold_max_bounds.
    + pose proof (capacity_bounds a F _ Hs). lia.
    + apply Forall_fmap. eapply Forall_impl; [exact Hl |].
      intros i Hi. simpl. apply (capacity_bounds a F). exact Hi.
Qed.

(** With no capacity at all, the first pair's pickup already overloads
    whichever vehicle serves it: the model has no solution. *)
Lemma zero_capacity_infeasible (a : Assignment) p0 d0 rest :
  manager_ok -> vehicle_capacity = 0 ->
  pickup_drop_pairs = (p0, d0) :: rest -> is_node p0 ->
  ~ feasible a.
Proof.
  intros M Hcap Hpairs Hp F.
  destruct (index_of_node M p0 Hp) as [Hi [He Hn]].
  pose proof (capacity_transit a F _ Hi He) as Ht.
  pose proof (capacity_bounds a F _ Hi) as Hb.
  pose proof (capacity_bounds a F _ (next_index a F _ Hi He)) as Hb'.
  unfold demand_callback in Ht. rewrite Hn, Hpairs in Ht. simpl in Ht.
  rewrite Z.eqb_refl in Ht. lia.
Qed.

(** ** The shape of the extracted routes *)

Lemma range_lookup n k v : Py.range n !! k = Some v -> v = Z.of_nat k.
Proof.
  unfold Py.range. rewrite list_lookup_fmap.
  destruct (seq 0 (Z.to_nat n) !! k) as [j |] eqn:E; [| discriminate].
  apply lookup_seq in E as [-> _]. simpl. intros [= <-]. reflexivity.
Qed.

Lemma range_length n : length (Py.range n) = Z.to_nat n.
Proof. unfold Py.range. rewrite length_map, length_seq. reflexivity. Qed.

(** The route at position [k] is the one of vehicle [k]. *)
Lemma routes_lookup a routes k r :
  Forall2 (fun v r => exists l e, path a (Start routing v) l e /\ r = route_of a v l e)
    (Py.range vehicle_count) routes ->
  routes !! k = Some r ->
  0 <= Z.of_nat k < vehicle_count /\
  exists l e, path a (Start routing (Z.of_nat k)) l e /\ r = route_of a (Z.of_nat k) l e.
Proof.
  intros H Hk.
  destruct (Forall2_lookup_r _ _ _ _ _ H Hk) as [v [Hv [l [e [Hp ->]]]]].
  pose proof (range_lookup _ _ _ Hv) as ->.
  split; [| exists l, e; auto].
  apply Py.range_elem, list_elem_of_lookup. exists k. exact Hv.
Qed.

Lemma path_head a i l e : path a i l e -> (l ++ [e]) !! 0%nat = Some i.
Proof. intros H. destruct H; reflexivity. Qed.

Lemma path_ends a i l e : path a i l e -> IsEnd routing e = true.
Proof. induction 1; assumption. Qed.

(** Two neighbours of the chain: the first one is a visit, the second
    one is its [NextVar]. *)
Lemma path_next a i l e k x y :
  path a i l e -> (l ++ [e]) !! k = Some x -> (l ++ [e]) !! S k = Some y ->
  l !! k = Some x /\ IsEnd routing x = false /\ y = NextVar a x.
Proof.
  intros H. revert k. induction H as [e He | i l e Hne Hp IH]; intros k Hx Hy.
  - destruct k; discriminate Hy.
  - destruct k as [| k].
    + simpl in Hx. injection Hx as <-. simpl in Hy.
      rewrite (path_head _ _ _ _ Hp) in Hy. injection Hy as <-. auto.
    + simpl in Hx, Hy. apply (IH k Hx Hy).
Qed.

(** A vehicle's chain opens with its start index. *)
Lemma path_from_start a v l e :
  manager_ok -> 0 <= v < vehicle_count -> path a (Start routing v) l e ->
  exists l', l = Start routing v :: l'.
Proof.
  intros M Hv H. destruct (start_of_vehicle M v Hv) as [_ [Hne _]].
  inversion H as [? He | ? l' ? _ _]; subst; [congruence |]. exists l'. reflexivity.
Qed.

Lemma fold_max_spec (xs : list Z) (m : Z) :
  m <= fold_left Z.max xs m /\
  Forall (fun x => x <= fold_left Z.max xs m) xs /\
  (fold_left Z.max xs m = m \/ fold_left Z.max xs m ∈ xs).
Proof.
  revert m. induction xs as [| x xs IH]; intros m; simpl.
  - split; [lia |]. split; [constructor | left; reflexivity].
  - destruct (IH (Z.max m x)) as [H1 [H2 H3]].
    split; [lia |]. split; [constructor; [lia | exact H2] |].
    destruct H3 as [H3 | H3]; [| right; right; exact H3].
    rewrite H3. destruct (Z.max_spec m x) as [[_ ->] | [_ ->]]; [right; left | left];
      reflexivity.
Qed.

Lemma getitem_member {A} (l : list A) i x : Py.getitem l i = Ok x -> x ∈ l.
Proof.
  unfold Py.getitem. destruct (Py.index (length l) i) as [k |]; [| discriminate].
  destruct (l !! k) as [y |] eqn:E; [| discriminate].
  intros [= <-]. apply list_elem_of_lookup. exists k. exact E.
Qed.

(** The cumulative time does not decrease along a chain when no entry of
    the matrix is negative. *)
Lemma time_sorted_along_path a i l e :
  feasible a -> Forall (Forall (fun t => 0 <= t)) minutes ->
  is_index i -> path a i l e ->
  forall k1 k2 x y, (k1 <= k2)%nat ->
    (l ++ [e]) !! k1 = Some x -> (l ++ [e]) !! k2 = Some y ->
    TimeCumulVar a x <= TimeCumulVar a y.
Proof.
  intros F Hpos Hi H. induction H as [e He | i l e Hne Hp IH]; intros k1 k2 x y Hle Hx Hy.
  - destruct k1, k2; try discriminate. simpl in Hx, Hy. injection Hx as <-.
    injection Hy as <-. lia.
  - assert (Hn : is_index (NextVar a i)) by (apply (next_index a F); assumption).
    assert (Hstep : TimeCumulVar a i <= TimeCumulVar a (NextVar a i)).
    { destruct (time_transit a F i Hi Hne) as [t [Ht Hb]].
      unfold time_callback, Py.getitem2 in Ht.
      destruct (Py.getitem minutes _) as [row |] eqn:Er; [| discriminate]. simpl in Ht.
      apply getitem_member in Er, Ht.
      rewrite Forall_forall in Hpos. specialize (Hpos row Er).
      rewrite Forall_forall in Hpos. specialize (Hpos t Ht). lia. }
    destruct k1 as [| k1], k2 as [| k2]; simpl in Hx, Hy.
    + injection Hx as <-. injection Hy as <-. lia.
    + injection Hx as <-.
      pose proof (IH Hn 0%nat k2 _ y ltac:(lia) (path_head _ _ _ _ Hp) Hy). lia.
    + lia.
    + apply (IH Hn k1 k2); [lia | assumption | assumption].
Qed.



(** X1.  The plan lists one route per vehicle, in the order of the
    vehicles: [routes] has [vehicle_count] entries and the entry at
    position [k] carries [vehicle_id = k]. *)
Theorem one_route_per_vehicle (a : Assignment) :
  manager_ok -> feasible a ->
  exists fuel0, forall fuel, (fuel0 <= fuel)%nat ->
    exists routes,
      solve_routes fuel (Some a) = Some (Ok routes) /\
      length routes = Z.to_nat vehicle_count /\
      forall k r, routes !! k = Some r -> vehicle_id r = Z.of_nat k.
Proof.
  intros M F.
  destruct (solve_routes_extracts a M F) as [fuel0 Hex].
  exists fuel0. intros fuel Hfuel.
  destruct (Hex fuel Hfuel) as [routes [Hsolve Hroutes]].
  exists routes. split; [exact Hsolve |]. split.
  - rewrite <- (Forall2_length _ _ _ Hroutes). apply range_length.
  - intros k r Hk.
    destruct (routes_lookup a routes k r Hroutes Hk) as [_ [l [e [_ ->]]]]. reflexivity.
Qed.

Lemma route_of_depot_ends a v l e :
  manager_ok -> feasible a -> 0 <= v < vehicle_count ->
  path a (Start routing v) l e ->
  exists first visits final,
    stops (route_of a v l e) = first :: visits ++ [final] /\
    Py.getitem ids depot_index = Ok (stop_id first) /\
    time_min first = 0 /\ load_at_stop first = 0 /\
    Py.getitem ids depot_index = Ok (stop_id final) /\
    total_travel_time_min (route_of a v l e) = time_min final.
Proof.
  intros M F Hv Hp.
  destruct (start_of_vehicle M _ Hv) as [Hs [_ Hdepot]].
  destruct (path_indices a _ _ _ F Hs Hp) as [_ He].
  destruct (path_from_start a _ l e M Hv Hp) as [l' ->].
  pose proof (node_of_index M _ Hs) as Hnode. rewrite Hdepot in Hnode.
  exists (stop_of a (Start routing v)), (map (stop_of a) l'), (stop_of a e).
  split; [simpl; rewrite map_app; reflexivity |].
  simpl. rewrite Hdepot, (end_is_depot M e He (path_ends a _ _ _ Hp)).
  split; [apply getitem_id; exact Hnode |].
  split; [apply (time_start a F _ Hv) |].
  split; [apply (capacity_start a F _ Hv) |].
  split; [apply getitem_id; exact Hnode | reflexivity].
Qed.

(** X2.  Every route opens with the depot, at time 0 and with an empty
    vehicle, and closes with the depot again; the route's
    [total_travel_time_min] is the time of that closing entry. *)
Theorem route_starts_and_ends_at_depot (a : Assignment) :
  manager_ok -> feasible a ->
  exists fuel0, forall fuel, (fuel0 <= fuel)%nat ->
    exists routes,
      solve_routes fuel (Some a) = Some (Ok routes) /\
      forall r, r ∈ routes ->
        exists first visits final,
          stops r = first :: visits ++ [final] /\
          Py.getitem ids depot_index = Ok (stop_id first) /\
          time_min first = 0 /\ load_at_stop first = 0 /\
          Py.getitem ids depot_index = Ok (stop_id final) /\
          total_travel_time_min r = time_min final.
Proof.
  intros M F.
  destruct (solve_routes_extracts a M F) as [fuel0 Hex].
  exists fuel0. intros fuel Hfuel.
  destruct (Hex fuel Hfuel) as [routes [Hsolve Hroutes]].
  exists routes. split; [exact Hsolve |].
  intros r Hr. apply list_elem_of_lookup in Hr as [k Hk].
  destruct (routes_lookup a routes k r Hroutes Hk) as [Hv [l [e [Hp ->]]]].
  apply (route_of_depot_ends a _ l e M F Hv Hp).
Qed.

(** X3.  When no entry of the matrix is negative, the cumulative times
    of a route never decrease from one entry of ["stops"] to a later
    one; every one of them lies between 0 and the route's
    [total_travel_time_min], which stays within the horizon of 1440. *)
Theorem times_never_decrease_along_route (a : Assignment) :
  manager_ok -> feasible a -> Forall (Forall (fun t => 0 <= t)) minutes ->
  exists fuel0, forall fuel, (fuel0 <= fuel)%nat ->
    exists routes,
      solve_routes fuel (Some a) = Some (Ok routes) /\
      forall r, r ∈ routes ->
        (forall k1 k2 s1 s2, (k1 <= k2)%nat ->
           stops r !! k1 = Some s1 -> stops r !! k2 = Some s2 ->
           time_min s1 <= time_min s2) /\
        (forall s, s ∈ stops r -> 0 <= time_min s <= total_travel_time_min r) /\
        total_travel_time_min r <= 1440.
Proof.
  intros M F Hpos.
  destruct (solve_routes_extracts a M F) as [fuel0 Hex].
  exists fuel0. intros fuel Hfuel.
  destruct (Hex fuel Hfuel) as [routes [Hsolve Hroutes]].
  exists routes. split; [exact Hsolve |].
  intros r Hr. apply list_elem_of_lookup in Hr as [k Hk].
  destruct (routes_lookup a routes k r Hroutes Hk) as [Hv [l [e [Hp ->]]]].
  destruct (start_of_vehicle M _ Hv) as [Hs _].
  destruct (path_indices a _ _ _ F Hs Hp) as [Hl He].
  pose proof (time_sorted_along_path a _ l e F Hpos Hs Hp) as Hsorted.
  assert (Hall : forall x, x ∈ l ++ [e] -> is_index x).
  { intros x Hx. apply elem_of_app in Hx as [Hx | Hx].
    - rewrite Forall_forall in Hl. apply Hl. exact Hx.
    - apply list_elem_of_singleton in Hx. subst x. exact He. }
  split; [| split].
  - intros k1 k2 s1 s2 Hle H1 H2. simpl in H1, H2.
    rewrite list_lookup_fmap in H1, H2.
    destruct ((l ++ [e]) !! k1) as [x |] eqn:E1; [| discriminate].
    destruct ((l ++ [e]) !! k2) as [y |] eqn:E2; [| discriminate].
    simpl in H1, H2. injection H1 as <-. injection H2 as <-. simpl.
    apply (Hsorted k1 k2 x y Hle E1 E2).
  - intros s Hin. simpl in Hin. apply list_elem_of_fmap in Hin as [x [-> Hx]]. simpl.
    split; [apply (time_bounds a F), Hall, Hx |].
    apply list_elem_of_lookup in Hx as [kx Hkx].
    apply (Hsorted kx (length l) x e).
    + apply lookup_lt_Some in Hkx. rewrite length_app in Hkx. simpl in Hkx. lia.
    + exact Hkx.
    + rewrite lookup_app_r by lia. rewrite Nat.sub_diag. reflexivity.
  - simpl. apply (time_bounds a F). exact He.
Qed.

(** X4.  [load_at_stop] is the load on arrival: the load of an entry of
    ["stops"] is the load of the entry before it plus the demand of the
    stop before it (1 at a pickup, -1 at a drop, 0 elsewhere). *)
Theorem load_is_carried_from_previous_stop (a : Assignment) :
  manager_ok -> feasible a ->
  exists fuel0, forall fuel, (fuel0 <= fuel)%nat ->
    exists routes,
      solve_routes fuel (Some a) = Some (Ok routes) /\
      forall r k s1 s2, r ∈ routes ->
        stops r !! k = Some s1 -> stops r !! S k = Some s2 ->
        exists node,
          Py.getitem ids node = Ok (stop_id s1) /\
          load_at_stop s2 = load_at_stop s1 + demand_of_node pickup_drop_pairs node.
Proof.
  intros M F.
  destruct (solve_routes_extracts a M F) as [fuel0 Hex].
  exists fuel0. intros fuel Hfuel.
  destruct (Hex fuel Hfuel) as [routes [Hsolve Hroutes]].
  exists routes. split; [exact Hsolve |].
  intros r k s1 s2 Hr H1 H2. apply list_elem_of_lookup in Hr as [kr Hkr].
  destruct (routes_lookup a routes kr r Hroutes Hkr) as [Hv [l [e [Hp ->]]]].
  destruct (start_of_vehicle M _ Hv) as [Hs _].
  destruct (path_indices a _ _ _ F Hs Hp) as [Hl _].
  simpl in H1, H2. rewrite list_lookup_fmap in H1, H2.
  destruct ((l ++ [e]) !! k) as [x |] eqn:E1; [| discriminate].
  destruct ((l ++ [e]) !! S k) as [y |] eqn:E2; [| discriminate].
  simpl in H1, H2. injection H1 as <-. injection H2 as <-.
  destruct (path_next a _ l e k x y Hp E1 E2) as [Hx [Hne ->]].
  assert (Hix : is_index x).
  { rewrite Forall_forall in Hl. apply Hl, list_elem_of_lookup. exists k. exact Hx. }
  exists (IndexToNode manager x). simpl.
  split; [apply getitem_id, (node_of_index M), Hix |].
  apply (capacity_transit a F x Hix Hne).
Qed.

(** X28.  The times of a plan agree with the matrix: from one entry of
    ["stops"] to the next, [time_min] grows by the matrix entry
    [minutes[from][to]] of the two stops plus a wait of at most 30
    minutes. *)
Theorem leg_time_is_travel_plus_wait (a : Assignment) :
  manager_ok -> feasible a ->
  exists fuel0, forall fuel, (fuel0 <= fuel)%nat ->
    exists routes,
      solve_routes fuel (Some a) = Some (Ok routes) /\
      forall r k s1 s2, r ∈ routes ->
        stops r !! k = Some s1 -> stops r !! S k = Some s2 ->
        exists from_node to_node travel,
          Py.getitem ids from_node = Ok (stop_id s1) /\
          Py.getitem ids to_node = Ok (stop_id s2) /\
          Py.getitem2 minutes from_node to_node = Ok travel /\
          time_min s1 + travel <= time_min s2 <= time_min s1 + travel + 30.
Proof.
  intros M F.
  destruct (solve_routes_extracts a M F) as [fuel0 Hex].
  exists fuel0. intros fuel Hfuel.
  destruct (Hex fuel Hfuel) as [routes [Hsolve Hroutes]].
  exists routes. split; [exact Hsolve |].
  intros r k s1 s2 Hr H1 H2. apply list_elem_of_lookup in Hr as [kr Hkr].
  destruct (routes_lookup a routes kr r Hroutes Hkr) as [Hv [l [e [Hp ->]]]].
  destruct (start_of_vehicle M _ Hv) as [Hs _].
  destruct (path_indices a _ _ _ F Hs Hp) as [Hl _].
  simpl in H1, H2. rewrite list_lookup_fmap in H1, H2.
  destruct ((l ++ [e]) !! k) as [x |] eqn:E1; [| discriminate].
  destruct ((l ++ [e]) !! S k) as [y |] eqn:E2; [| discriminate].
  simpl in H1, H2. injection H1 as <-. injection H2 as <-.
  destruct (path_next a _ l e k x y Hp E1 E2) as [Hx [Hne ->]].
  assert (Hix : is_index x).
  { rewrite Forall_forall in Hl. apply Hl, list_elem_of_lookup. exists k. exact Hx. }
  pose proof (next_index a F x Hix Hne) as Hiy.
  destruct (time_transit a F x Hix Hne) as [t [Ht Hb]].
  exists (IndexToNode manager x), (IndexToNode manager (NextVar a x)), t. simpl.
  split; [apply getitem_id, (node_of_index M), Hix |].
  split; [apply getitem_id, (node_of_index M), Hiy |].
  split; [exact Ht | exact Hb].
Qed.

(** X5.  [max_load] is the largest [load_at_stop] among the entries of
    ["stops"] before the closing one: none of them exceeds it and one
    of them equals it.  The load of the closing entry is not part of
    it. *)
Theorem max_load_is_largest_load_before_return (a : Assignment) :
  manager_ok -> feasible a ->
  exists fuel0, forall fuel, (fuel0 <= fuel)%nat ->
    exists routes,
      solve_routes fuel (Some a) = Some (Ok routes) /\
      forall r, r ∈ routes ->
        exists visits final,
          stops r = visits ++ [final] /\
          (forall s, s ∈ visits -> load_at_stop s <= max_load r) /\
          (exists s, s ∈ visits /\ load_at_stop s = max_load r).
Proof.
  intros M F.
  destruct (solve_routes_extracts a M F) as [fuel0 Hex].
  exists fuel0. intros fuel Hfuel.
  destruct (Hex fuel Hfuel) as [routes [Hsolve Hroutes]].
  exists routes. split; [exact Hsolve |].
  intros r Hr. apply list_elem_of_lookup in Hr as [k Hk].
  destruct (routes_lookup a routes k r Hroutes Hk) as [Hv [l [e [Hp ->]]]].
  destruct (path_from_start a _ l e M Hv Hp) as [l' El].
  exists (map (stop_of a) l), (stop_of a e).
  split; [simpl; rewrite map_app; reflexivity |].
  destruct (fold_max_spec (map (CapacityCumulVar a) l) 0) as [_ [Hall Hmax]].
  split.
  - intros s Hs. apply list_elem_of_fmap in Hs as [x [-> Hx]]. simpl.
    rewrite Forall_forall in Hall. apply Hall, list_elem_of_fmap. exists x. auto.
  - simpl. destruct Hmax as [Hmax | Hmax].
    + exists (stop_of a (Start routing (Z.of_nat k))). split.
      * apply list_elem_of_fmap. exists (Start routing (Z.of_nat k)).
        split; [reflexivity |]. rewrite El. left.
      * simpl. rewrite Hmax. apply (capacity_start a F _ Hv).
    + apply list_elem_of_fmap in Hmax as [x [Hx Hin]].
      exists (stop_of a x). split; [apply list_elem_of_fmap; exists x; auto |].
      simpl. symmetry. exact Hx.
Qed.

(** X6.  Every stop of the request is served: each valid node has an
    entry in the ["stops"] of the route of the vehicle the assignment
    gives it. *)
Theorem every_stop_is_served (a : Assignment) :
  manager_ok -> feasible a ->
  exists fuel0, forall fuel, (fuel0 <= fuel)%nat ->
    exists routes,
      solve_routes fuel (Some a) = Some (Ok routes) /\
      forall n, is_node n ->
        exists r s,
          r ∈ routes /\ s ∈ stops r /\
          vehicle_id r = VehicleVar a (NodeToIndex manager n) /\
          Py.getitem ids n = Ok (stop_id s).
Proof.
  intros M F.
  destruct (solve_routes_extracts a M F) as [fuel0 Hex].
  exists fuel0. intros fuel Hfuel.
  destruct (Hex fuel Hfuel) as [routes [Hsolve Hroutes]].
  exists routes. split; [exact Hsolve |].
  intros n Hn.
  destruct (index_of_node M n Hn) as [Hi [Hne Hnode]].
  destruct (vehicle_of_index a F _ Hi Hne) as [Hv [l [e [Hp Hin]]]].
  exists (route_of a (VehicleVar a (NodeToIndex manager n)) l e),
         (stop_of a (NodeToIndex manager n)).
  split; [apply (route_of_vehicle a routes _ l e Hroutes Hv Hp) |].
  split.
  - simpl. apply list_elem_of_fmap. exists (NodeToIndex manager n).
    split; [reflexivity |]. apply elem_of_app. left. exact Hin.
  - split; [reflexivity |]. simpl. rewrite Hnode. apply getitem_id. exact Hn.
Qed.

(** X21.  A vehicle the assignment leaves idle (the successor of its
    start index is an end index) still gets its route, and that route is
    the depot twice and nothing else: [stops] has exactly two entries,
    both with the depot's id, the first at time 0 with load 0; the route
    carries the vehicle's number, [max_load] 0 and, as
    [total_travel_time_min], the time of its second entry.  A route has
    exactly two stops only in that case; every other route has more. *)
Theorem idle_vehicle_route_is_depot_to_depot (a : Assignment) :
  manager_ok -> feasible a ->
  exists fuel0, forall fuel, (fuel0 <= fuel)%nat ->
    exists routes,
      solve_routes fuel (Some a) = Some (Ok routes) /\
      forall k r, routes !! k = Some r ->
        (2 <= length (stops r))%nat /\
        (length (stops r) = 2%nat <->
         IsEnd routing (NextVar a (Start routing (Z.of_nat k))) = true) /\
        (IsEnd routing (NextVar a (Start routing (Z.of_nat k))) = true ->
         exists first final,
           stops r = [first; final] /\
           Py.getitem ids depot_index = Ok (stop_id first) /\
           Py.getitem ids depot_index = Ok (stop_id final) /\
           time_min first = 0 /\ load_at_stop first = 0 /\
           vehicle_id r = Z.of_nat k /\
           max_load r = 0 /\
           total_travel_time_min r = time_min final).
Proof.
  intros M F.
  destruct (solve_routes_extracts a M F) as [fuel0 Hex].
  exists fuel0. intros fuel Hfuel.
  destruct (Hex fuel Hfuel) as [routes [Hsolve Hroutes]].
  exists routes. split; [exact Hsolve |].
  intros k r Hk.
  destruct (routes_lookup a routes k r Hroutes Hk) as [Hv [l [e [Hp ->]]]].
  destruct (start_of_vehicle M _ Hv) as [Hs [_ Hdepot]].
  destruct (path_indices a _ _ _ F Hs Hp) as [_ He].
  pose proof (node_of_index M _ Hs) as Hnode. rewrite Hdepot in Hnode.
  pose proof (end_is_depot M e He (path_ends a _ _ _ Hp)) as Hend_depot.
  destruct (path_from_start a _ l e M Hv Hp) as [l' ->].
  inversion Hp as [| ? ? ? Hne Hp']; subst.
  split; [simpl; rewrite !length_map, !length_app; simpl; lia |]. split; [split |].
  - simpl. rewrite !length_map, !length_app. simpl.
    intros Hlen. destruct l' as [| x l']; [| simpl in Hlen; lia].
    inversion Hp'; subst. assumption.
  - intros Hend. inversion Hp' as [? He' | ? ? ? Hne' _]; subst; [reflexivity | congruence].
  - intros Hend. inversion Hp' as [? He' | ? ? ? Hne' _]; subst; [| congruence].
    exists (stop_of a (Start routing (Z.of_nat k))),
           (stop_of a (NextVar a (Start routing (Z.of_nat k)))).
    split; [reflexivity |]. simpl. rewrite Hdepot, Hend_depot.
    split; [apply getitem_id; exact Hnode |].
    split; [apply getitem_id; exact Hnode |].
    split; [apply (time_start a F _ Hv) |].
    split; [apply (capacity_start a F _ Hv) |].
    split; [reflexivity |].
    split; [| reflexivity].
    rewrite (capacity_start a F _ Hv). reflexivity.
Qed.

(** ** What [solve_routes] can raise *)

Lemma getitem_failure {A} (l : list A) i e : Py.getitem l i = Raise e -> e = IndexError.
Proof.
  unfold Py.getitem. destruct (Py.index (length l) i) as [k |]; [| congruence].
  destruct (l !! k); [discriminate | congruence].
Qed.

Lemma walk_failure a fuel i acc m e :
  walk a fuel i acc m = Some (Raise e) -> e = IndexError.
Proof.
  revert i acc m. induction fuel as [| fuel IH]; intros i acc m; [discriminate |].
  simpl. destruct (IsEnd routing i); [discriminate |].
  destruct (Py.getitem ids (IndexToNode manager i)) as [sid | e'] eqn:E.
  - apply IH.
  - intros [= <-]. apply (getitem_failure _ _ _ E).
Qed.

Lemma extract_route_failure a fuel v e :
  extract_route a fuel v = Some (Raise e) -> e = IndexError.
Proof.
  unfold extract_route.
  destruct (walk a fuel (Start routing v) [] 0) as [[[[index route] ml] | e'] |] eqn:W;
    [| intros [= <-]; apply (walk_failure _ _ _ _ _ _ W) | discriminate].
  destruct (Py.getitem ids (IndexToNode manager index)) as [sid | e'] eqn:E; simpl.
  - destruct (Py.getitem _ (-1)) as [final | e'] eqn:E'; simpl; [discriminate |].
    intros [= <-]. apply (getitem_failure _ _ _ E').
  - intros [= <-]. apply (getitem_failure _ _ _ E).
Qed.

Lemma extract_routes_failure a fuel vs acc e :
  extract_routes a fuel vs acc = Some (Raise e) -> e = IndexError.
Proof.
  revert acc. induction vs as [| v vs IH]; intros acc; [discriminate |].
  simpl. destruct (extract_route a fuel v) as [[r | e'] |] eqn:E; [apply IH | | discriminate].
  intros [= <-]. apply (extract_route_failure _ _ _ _ E).
Qed.

Lemma solve_routes_failure fuel solution e :
  solve_routes fuel solution = Some (Raise e) -> e = infeasible \/ e = IndexError.
Proof.
  destruct solution as [a |]; simpl.
  - intros H. right. apply (extract_routes_failure _ _ _ _ _ H).
  - intros [= <-]. left. reflexivity.
Qed.

(** X23.  [solve_routes] raises ["No feasible route found"] only when
    the search returned nothing: once there is an assignment the
    extraction raises nothing of its own, and can only stop on the
    [IndexError] of [ids[node]], when the handles name a node outside
    [ids]. *)
Theorem infeasible_error_only_without_solution
    (fuel : nat) (solution : option Assignment) (e : exn) :
  solve_routes fuel solution = Some (Raise e) ->
  (solution = None /\ e = infeasible) \/
  (exists a, solution = Some a /\ e = IndexError).
Proof.
  destruct solution as [a |]; simpl.
  - intros H. right. exists a. split; [reflexivity |].
    apply (extract_routes_failure _ _ _ _ _ H).
  - intros [= <-]. left. auto.
Qed.

(** ** Where the stop ids of a plan come from *)

Lemma walk_stop_ids a fuel i acc m e route ml :
  walk a fuel i acc m = Some (Ok (e, route, ml)) ->
  Forall (fun s => stop_id s ∈ ids) acc -> Forall (fun s => stop_id s ∈ ids) route.
Proof.
  revert i acc m. induction fuel as [| fuel IH]; intros i acc m; [discriminate |].
  simpl. destruct (IsEnd routing i); [intros [= _ <- _]; auto |].
  destruct (Py.getitem ids (IndexToNode manager i)) as [sid | e'] eqn:E; [| discriminate].
  intros H Hacc. apply (IH _ _ _ H). apply Forall_app. split; [exact Hacc |].
  repeat constructor. simpl. apply (getitem_member _ _ _ E).
Qed.

Lemma extract_route_stop_ids a fuel v r :
  extract_route a fuel v = Some (Ok r) ->
  vehicle_id r = v /\ Forall (fun s => stop_id s ∈ ids) (stops r).
Proof.
  unfold extract_route.
  destruct (walk a fuel (Start routing v) [] 0) as [[[[index route] ml] | e'] |] eqn:W;
    try discriminate.
  destruct (Py.getitem ids (IndexToNode manager index)) as [sid | e'] eqn:E;
    [| discriminate]. simpl.
  destruct (Py.getitem _ (-1)) as [final | e'] eqn:E'; [| discriminate]. simpl.
  intros [= <-]. simpl. split; [reflexivity |].
  apply Forall_app. split; [apply (walk_stop_ids _ _ _ _ _ _ _ _ W); constructor |].
  repeat constructor. simpl. apply (getitem_member _ _ _ E).
Qed.

Lemma extract_routes_stop_ids a fuel vs acc routes :
  extract_routes a fuel vs acc = Some (Ok routes) ->
  Forall (fun r => Forall (fun s => stop_id s ∈ ids) (stops r)) acc ->
  Forall (fun r => Forall (fun s => stop_id s ∈ ids) (stops r)) routes.
Proof.
  revert acc. induction vs as [| v vs IH]; intros acc; [intros [= <-]; auto |].
  simpl. destruct (extract_route a fuel v) as [[r | e'] |] eqn:E; try discriminate.
  intros H Hacc. apply (IH _ H). apply Forall_app. split; [exact Hacc |].
  repeat constructor. apply (extract_route_stop_ids _ _ _ _ E).
Qed.

(** X26.  A plan names no stop of its own: whatever assignment the
    extraction reads, every [stop_id] of every route it returns is an
    entry of the [ids] list [solve_routes] was given. *)
Theorem stop_ids_come_from_ids
    (fuel : nat) (a : Assignment) (routes : list Route) :
  solve_routes fuel (Some a) = Some (Ok routes) ->
  forall r s, r ∈ routes -> s ∈ stops r -> stop_id s ∈ ids.
Proof.
  simpl. intros H r s Hr Hs.
  pose proof (extract_routes_stop_ids _ _ _ _ _ H ltac:(constructor)) as Hall.
  rewrite Forall_forall in Hall. specialize (Hall r Hr).
  rewrite Forall_forall in Hall. apply Hall. exact Hs.
Qed.

End Solve.

(** ** The demand of a stop *)

(** X7.  [demand_callback] answers 1, -1 or 0; 1 only for the pickup of
    some pair, -1 only for the drop of some pair, and 0 exactly for the
    stops no pair mentions. *)
Theorem demand_is_one_per_pair_role (pairs : list (Z * Z))
    (manager : RoutingIndexManager) (from_index : Z) :
  let node := IndexToNode manager from_index in
  let demand := demand_callback pairs manager from_index in
  (demand = 1 \/ demand = -1 \/ demand = 0) /\
  (demand = 1 -> exists d, (node, d) ∈ pairs) /\
  (demand = -1 -> exists p, (p, node) ∈ pairs) /\
  (demand = 0 <-> forall p d, (p, d) ∈ pairs -> node <> p /\ node <> d).
Proof.
  unfold demand_callback. generalize (IndexToNode manager from_index). intros node.
  simpl. induction pairs as [| [p d] rest [H1 [H2 [H3 H4]]]]; simpl.
  - split; [auto |]. split; [discriminate |]. split; [discriminate |].
    split; [| reflexivity]. intros _ p d Hin. apply elem_of_nil in Hin. contradiction.
  - destruct (Z.eqb_spec node p) as [-> | Hp].
    + split; [auto |]. split; [intros _; exists d; left |].
      split; [discriminate |]. split; [discriminate |].
      intros H. destruct (H p d ltac:(left)) as [Hne _]. congruence.
    + destruct (Z.eqb_spec node d) as [-> | Hd].
      * split; [auto |]. split; [discriminate |]. split; [intros _; exists p; left |].
        split; [discriminate |].
        intros H. destruct (H p d ltac:(left)) as [_ Hne]. congruence.
      * split; [exact H1 |].
        split; [intros E; destruct (H2 E) as [d' Hd']; exists d'; right; exact Hd' |].
        split; [intros E; destruct (H3 E) as [p' Hp']; exists p'; right; exact Hp' |].
        rewrite H4. split.
        -- intros H p' d' Hin. apply elem_of_cons in Hin as [[= -> ->] | Hin]; auto.
        -- intros H p' d' Hin. apply H. right. exact Hin.
Qed.

(** X8.  When no stop is named twice in the pair list, the pickup of
    every pair has demand 1 and its drop demand -1: what a pair loads it
    unloads. *)
Theorem pair_demands_cancel (pairs : list (Z * Z)) (p d : Z) :
  NoDup (flat_map (fun pd => [fst pd; snd pd]) pairs) ->
  (p, d) ∈ pairs ->
  demand_of_node pairs p = 1 /\ demand_of_node pairs d = -1.
Proof.
  induction pairs as [| [p0 d0] rest IH]; intros Hnd Hin.
  - apply elem_of_nil in Hin. contradiction.
  - simpl in Hnd. apply NoDup_cons in Hnd as [Hp0 Hnd].
    apply NoDup_cons in Hnd as [Hd0 Hnd].
    assert (Hmem : forall x y, (x, y) ∈ rest ->
              x ∈ flat_map (fun pd => [fst pd; snd pd]) rest /\
              y ∈ flat_map (fun pd => [fst pd; snd pd]) rest).
    { intros x y Hxy. split; apply list_elem_of_In, in_flat_map; exists (x, y);
        (split; [apply list_elem_of_In; exact Hxy | simpl; auto]). }
    apply elem_of_cons in Hin as [[= -> ->] | Hin].
    + simpl. rewrite Z.eqb_refl.
      destruct (Z.eqb_spec d0 p0) as [-> | _]; [exfalso; apply Hp0; left |].
      rewrite Z.eqb_refl. auto.
    + destruct (Hmem p d Hin) as [Hp Hd]. simpl.
      assert (p <> p0) by (intros ->; apply Hp0; right; exact Hp).
      assert (p <> d0) by (intros ->; apply Hd0; exact Hp).
      assert (d <> p0) by (intros ->; apply Hp0; right; exact Hd).
      assert (d <> d0) by (intros ->; apply Hd0; exact Hd).
      destruct (Z.eqb_spec p p0), (Z.eqb_spec p d0), (Z.eqb_spec d p0), (Z.eqb_spec d d0);
        try congruence.
      apply IH; assumption.
Qed.

(** ** A three-stop instance: depot, one pickup, one drop, one vehicle *)

Definition ex_ids : list string := ["DEPOT"; "R001_P"; "R001_D"].
Definition ex_minutes : list (list Z) := [[0; 10; 15]; [10; 0; 5]; [15; 5; 0]].
Definition ex_pairs : list (Z * Z) := [(1, 2)].

Definition ex_manager : RoutingIndexManager :=
  {| IndexToNode := fun j => if j =? 3 then 0 else j; NodeToIndex := fun n => n |}.

Definition ex_routing : RoutingModel :=
  {| num_indices := 4; Start := fun _ => 0; IsEnd := fun j => 3 <=? j |}.

(** depot -> pickup -> drop -> depot *)
Definition ex_assignment : Assignment :=
  {| NextVar := fun i => i + 1;
     VehicleVar := fun _ => 0;
     TimeCumulVar := fun i => nth (Z.to_nat i) [0; 10; 15; 30] 0;
     CapacityCumulVar := fun i => nth (Z.to_nat i) [0; 0; 1; 0] 0 |}.

Ltac index_cases j :=
  let H := fresh "Hc" in
  assert (H : j = 0 \/ j = 1 \/ j = 2 \/ j = 3)
    by (unfold is_index, is_node in *; simpl in *; lia);
  destruct H as [H | [H | [H | H]]]; subst j.

Lemma ex_manager_ok : manager_ok ex_ids 1 0 ex_manager ex_routing.
Proof.
  constructor.
  - intros j Hj. index_cases j; unfold is_node; simpl; lia.
  - intros n Hn. unfold is_node in Hn. simpl in Hn.
    assert (Hc : n = 0 \/ n = 1 \/ n = 2) by lia.
    destruct Hc as [-> | [-> | ->]]; unfold is_index; simpl; repeat split; lia.
  - intros v Hv. unfold is_index. simpl. repeat split; lia.
  - intros j Hj He. index_cases j; first [discriminate He | reflexivity].
Qed.

Lemma ex_path : path ex_routing ex_assignment 0 [0; 1; 2] 3.
Proof. repeat (apply path_step; [reflexivity |]). apply path_end. reflexivity. Qed.

Lemma ex_feasible :
  feasible ex_minutes ex_pairs 1 1 ex_manager ex_routing ex_assignment.
Proof.
  constructor.
  - intros i Hi He. index_cases i; try discriminate He; unfold is_index; simpl; lia.
  - intros v Hv. exists [0; 1; 2], 3. apply ex_path.
  - intros i Hi He. split; [simpl; lia |]. exists [0; 1; 2], 3. split; [apply ex_path |].
    index_cases i; try discriminate He; set_solver.
  - intros i Hi He.
    index_cases i; try discriminate He; vm_compute;
      eexists; (split; [reflexivity |]); split; discriminate.
  - intros j Hj. index_cases j; vm_compute; split; discriminate.
  - intros v Hv. reflexivity.
  - intros i Hi He. index_cases i; try discriminate He; reflexivity.
  - intros j Hj. index_cases j; vm_compute; split; discriminate.
  - intros v Hv. reflexivity.
  - intros p d Hpd. reflexivity.
  - intros p d Hpd. apply list_elem_of_singleton in Hpd. injection Hpd as -> ->.
    vm_compute. discriminate.
Qed.




Lemma load_within_capacity_witness :
  manager_ok ex_ids 1 0 ex_manager ex_routing /\
  feasible ex_minutes ex_pairs 1 1 ex_manager ex_routing ex_assignment /\
  exists fuel0, forall fuel, (fuel0 <= fuel)%nat ->
    exists routes,
      solve_routes ex_ids 1 ex_manager ex_routing fuel (Some ex_assignment)
        = Some (Ok routes) /\
      forall r, r ∈ routes ->
        (forall s, s ∈ stops r -> 0 <= load_at_stop s <= 1) /\
        0 <= max_load r <= 1.
Proof.
  split; [exact ex_manager_ok |]. split; [exact ex_feasible |].
  exact (load_within_capacity ex_ids ex_minutes ex_pairs 1 1 0
           ex_manager ex_routing ex_assignment ex_manager_ok ex_feasible).
Defined.

(** The instance run: the loops need five tests of [IsEnd]. *)
Example ex_solve :
  solve_routes ex_ids 1 ex_manager ex_routing 5 (Some ex_assignment) =
  Some (Ok [{| vehicle_id := 0;
               stops := [{| stop_id := "DEPOT"; load_at_stop := 0; time_min := 0 |};
                         {| stop_id := "R001_P"; load_at_stop := 0; time_min := 10 |};
                         {| stop_id := "R001_D"; load_at_stop := 1; time_min := 15 |};
                         {| stop_id := "DEPOT"; load_at_stop := 0; time_min := 30 |}];
               total_travel_time_min := 30;
               max_load := 1 |}]).
Proof. reflexivity. Qed.

Lemma ex_minutes_nonneg : Forall (Forall (fun t => 0 <= t)) ex_minutes.
Proof. repeat constructor; lia. Qed.

Lemma one_route_per_vehicle_witness :
  manager_ok ex_ids 1 0 ex_manager ex_routing /\
  feasible ex_minutes ex_pairs 1 1 ex_manager ex_routing ex_assignment /\
  exists fuel0, forall fuel, (fuel0 <= fuel)%nat ->
    exists routes,
      solve_routes ex_ids 1 ex_manager ex_routing fuel (Some ex_assignment)
        = Some (Ok routes) /\
      length routes = Z.to_nat 1 /\
      forall k r, routes !! k = Some r -> vehicle_id r = Z.of_nat k.
Proof.
  split; [exact ex_manager_ok |]. split; [exact ex_feasible |].
  exact (one_route_per_vehicle ex_ids ex_minutes ex_pairs 1 1 0
           ex_manager ex_routing ex_assignment ex_manager_ok ex_feasible).
Defined.

Lemma depot_at_both_ends_witness :
  manager_ok ex_ids 1 0 ex_manager ex_routing /\
  feasible ex_minutes ex_pairs 1 1 ex_manager ex_routing ex_assignment /\
  exists fuel0, forall fuel, (fuel0 <= fuel)%nat ->
    exists routes,
      solve_routes ex_ids 1 ex_manager ex_routing fuel (Some ex_assignment)
        = Some (Ok routes) /\
      forall r, r ∈ routes ->
        exists first visits final,
          stops r = first :: visits ++ [final] /\
          Py.getitem ex_ids 0 = Ok (stop_id first) /\
          time_min first = 0 /\ load_at_stop first = 0 /\
          Py.getitem ex_ids 0 = Ok (stop_id final) /\
          total_travel_time_min r = time_min final.
Proof.
  split; [exact ex_manager_ok |]. split; [exact ex_feasible |].
  exact (route_starts_and_ends_at_depot ex_ids ex_minutes ex_pairs 1 1 0
           ex_manager ex_routing ex_assignment ex_manager_ok ex_feasible).
Defined.

Lemma times_never_decrease_witness :
  manager_ok ex_ids 1 0 ex_manager ex_routing /\
  feasible ex_minutes ex_pairs 1 1 ex_manager ex_routing ex_assignment /\
  Forall (Forall (fun t => 0 <= t)) ex_minutes /\
  exists fuel0, forall fuel, (fuel0 <= fuel)%nat ->
    exists routes,
      solve_routes ex_ids 1 ex_manager ex_routing fuel (Some ex_assignment)
        = Some (Ok routes) /\
      forall r, r ∈ routes ->
        (forall k1 k2 s1 s2, (k1 <= k2)%nat ->
           stops r !! k1 = Some s1 -> stops r !! k2 = Some s2 ->
           time_min s1 <= time_min s2) /\
        (forall s, s ∈ stops r -> 0 <= time_min s <= total_travel_time_min r) /\
        total_travel_time_min r <= 1440.
Proof.
  split; [exact ex_manager_ok |]. split; [exact ex_feasible |].
  split; [exact ex_minutes_nonneg |].
  exact (times_never_decrease_along_route ex_ids ex_minutes ex_pairs 1 1 0
           ex_manager ex_routing ex_assignment ex_manager_ok ex_feasible ex_minutes_nonneg).
Defined.

Lemma load_is_carried_witness :
  manager_ok ex_ids 1 0 ex_manager ex_routing /\
  feasible ex_minutes ex_pairs 1 1 ex_manager ex_routing ex_assignment /\
  exists fuel0, forall fuel, (fuel0 <= fuel)%nat ->
    exists routes,
      solve_routes ex_ids 1 ex_manager ex_routing fuel (Some ex_assignment)
        = Some (Ok routes) /\
      forall r k s1 s2, r ∈ routes ->
        stops r !! k = Some s1 -> stops r !! S k = Some s2 ->
        exists node,
          Py.getitem ex_ids node = Ok (stop_id s1) /\
          load_at_stop s2 = load_at_stop s1 + demand_of_node ex_pairs node.
Proof.
  split; [exact ex_manager_ok |]. split; [exact ex_feasible |].
  exact (load_is_carried_from_previous_stop ex_ids ex_minutes ex_pairs 1 1 0
           ex_manager ex_routing ex_assignment ex_manager_ok ex_feasible).
Defined.

Lemma leg_time_witness :
  manager_ok ex_ids 1 0 ex_manager ex_routing /\
  feasible ex_minutes ex_pairs 1 1 ex_manager ex_routing ex_assignment /\
  exists fuel0, forall fuel, (fuel0 <= fuel)%nat ->
    exists routes,
      solve_routes ex_ids 1 ex_manager ex_routing fuel (Some ex_assignment)
        = Some (Ok routes) /\
      forall r k s1 s2, r ∈ routes ->
        stops r !! k = Some s1 -> stops r !! S k = Some s2 ->
        exists from_node to_node travel,
          Py.getitem ex_ids from_node = Ok (stop_id s1) /\
          Py.getitem ex_ids to_node = Ok (stop_id s2) /\
          Py.getitem2 ex_minutes from_node to_node = Ok travel /\
          time_min s1 + travel <= time_min s2 <= time_min s1 + travel + 30.
Proof.
  split; [exact ex_manager_ok |]. split; [exact ex_feasible |].
  exact (leg_time_is_travel_plus_wait ex_ids ex_minutes ex_pairs 1 1 0
           ex_manager ex_routing ex_assignment ex_manager_ok ex_feasible).
Defined.

Lemma max_load_witness :
  manager_ok ex_ids 1 0 ex_manager ex_routing /\
  feasible ex_minutes ex_pairs 1 1 ex_manager ex_routing ex_assignment /\
  exists fuel0, forall fuel, (fuel0 <= fuel)%nat ->
    exists routes,
      solve_routes ex_ids 1 ex_manager ex_routing fuel (Some ex_assignment)
        = Some (Ok routes) /\
      forall r, r ∈ routes ->
        exists visits final,
          stops r = visits ++ [final] /\
          (forall s, s ∈ visits -> load_at_stop s <= max_load r) /\
          (exists s, s ∈ visits /\ load_at_stop s = max_load r).
Proof.
  split; [exact ex_manager_ok |]. split; [exact ex_feasible |].
  exact (max_load_is_largest_load_before_return ex_ids ex_minutes ex_pairs 1 1 0
           ex_manager ex_routing ex_assignment ex_manager_ok ex_feasible).
Defined.

Lemma every_stop_is_served_witness :
  manager_ok ex_ids 1 0 ex_manager ex_routing /\
  feasible ex_minutes ex_pairs 1 1 ex_manager ex_routing ex_assignment /\
  exists fuel0, forall fuel, (fuel0 <= fuel)%nat ->
    exists routes,
      solve_routes ex_ids 1 ex_manager ex_routing fuel (Some ex_assignment)
        = Some (Ok routes) /\
      forall n, is_node ex_ids n ->
        exists r s,
          r ∈ routes /\ s ∈ stops r /\
          vehicle_id r = VehicleVar ex_assignment (NodeToIndex ex_manager n) /\
          Py.getitem ex_ids n = Ok (stop_id s).
Proof.
  split; [exact ex_manager_ok |]. split; [exact ex_feasible |].
  exact (every_stop_is_served ex_ids ex_minutes ex_pairs 1 1 0
           ex_manager ex_routing ex_assignment ex_manager_ok ex_feasible).
Defined.

(** ** The same stops with a second vehicle, which stays at the depot *)

(** Indices 0-2 are the stops, 3 is the second vehicle's start, 4 and 5
    are the two ends. *)
Definition ex_idle_manager : RoutingIndexManager :=
  {| IndexToNode := fun j => if j <=? 2 then j else 0; NodeToIndex := fun n => n |}.

Definition ex_idle_routing : RoutingModel :=
  {| num_indices := 6; Start := fun v => if v =? 0 then 0 else 3; IsEnd := fun j => 4 <=? j |}.

(** vehicle 0: depot -> pickup -> drop -> depot; vehicle 1: depot -> depot *)
Definition ex_idle_assignment : Assignment :=
  {| NextVar := fun i => nth (Z.to_nat i) [1; 2; 4; 5; 4; 5] 5;
     VehicleVar := fun i => if (i =? 3) || (i =? 5) then 1 else 0;
     TimeCumulVar := fun i => nth (Z.to_nat i) [0; 10; 15; 0; 30; 0] 0;
     CapacityCumulVar := fun i => nth (Z.to_nat i) [0; 0; 1; 0; 0; 0] 0 |}.

Definition ex_idle_plan : list Route :=
  [{| vehicle_id := 0;
      stops := [{| stop_id := "DEPOT"; load_at_stop := 0; time_min := 0 |};
                {| stop_id := "R001_P"; load_at_stop := 0; time_min := 10 |};
                {| stop_id := "R001_D"; load_at_stop := 1; time_min := 15 |};
                {| stop_id := "DEPOT"; load_at_stop := 0; time_min := 30 |}];
      total_travel_time_min := 30;
      max_load := 1 |};
   {| vehicle_id := 1;
      stops := [{| stop_id := "DEPOT"; load_at_stop := 0; time_min := 0 |};
                {| stop_id := "DEPOT"; load_at_stop := 0; time_min := 0 |}];
      total_travel_time_min := 0;
      max_load := 0 |}].

Ltac index_cases6 j :=
  let H := fresh "Hc" in
  assert (H : j = 0 \/ j = 1 \/ j = 2 \/ j = 3 \/ j = 4 \/ j = 5)
    by (unfold is_index, is_node in *; simpl in *; lia);
  destruct H as [H | [H | [H | [H | [H | H]]]]]; subst j.

Ltac vehicle_cases v :=
  let H := fresh "Hc" in
  assert (H : v = 0 \/ v = 1) by lia; destruct H as [H | H]; subst v.

Lemma ex_idle_manager_ok : manager_ok ex_ids 2 0 ex_idle_manager ex_idle_routing.
Proof.
  constructor.
  - intros j Hj. index_cases6 j; unfold is_node; simpl; lia.
  - intros n Hn. unfold is_node in Hn. simpl in Hn.
    assert (Hc : n = 0 \/ n = 1 \/ n = 2) by lia.
    destruct Hc as [-> | [-> | ->]]; unfold is_index; simpl; repeat split; lia.
  - intros v Hv. vehicle_cases v; unfold is_index; simpl; repeat split; lia.
  - intros j Hj He. index_cases6 j; first [discriminate He | reflexivity].
Qed.

Lemma ex_idle_path0 : path ex_idle_routing ex_idle_assignment 0 [0; 1; 2] 4.
Proof. repeat (apply path_step; [reflexivity |]). apply path_end. reflexivity. Qed.

Lemma ex_idle_path1 : path ex_idle_routing ex_idle_assignment 3 [3] 5.
Proof. apply path_step; [reflexivity |]. apply path_end. reflexivity. Qed.

Lemma ex_idle_feasible :
  feasible ex_minutes ex_pairs 2 1 ex_idle_manager ex_idle_routing ex_idle_assignment.
Proof.
  constructor.
  - intros i Hi He. index_cases6 i; try discriminate He; unfold is_index; simpl; lia.
  - intros v Hv. vehicle_cases v.
    + exists [0; 1; 2], 4. apply ex_idle_path0.
    + exists [3], 5. apply ex_idle_path1.
  - intros i Hi He. index_cases6 i; try discriminate He; (split; [simpl; lia |]).
    1-3: exists [0; 1; 2], 4; split; [apply ex_idle_path0 | set_solver].
    exists [3], 5. split; [apply ex_idle_path1 | set_solver].
  - intros i Hi He.
    index_cases6 i; try discriminate He; vm_compute;
      eexists; (split; [reflexivity |]); split; discriminate.
  - intros j Hj. index_cases6 j; vm_compute; split; discriminate.
  - intros v Hv. vehicle_cases v; reflexivity.
  - intros i Hi He. index_cases6 i; try discriminate He; reflexivity.
  - intros j Hj. index_cases6 j; vm_compute; split; discriminate.
  - intros v Hv. vehicle_cases v; reflexivity.
  - intros p d Hpd. apply list_elem_of_singleton in Hpd. injection Hpd as -> ->. reflexivity.
  - intros p d Hpd. apply list_elem_of_singleton in Hpd. injection Hpd as -> ->.
    vm_compute. discriminate.
Qed.

(** Vehicle 1 is idle, and its route is the second of [ex_idle_plan]. *)
Lemma idle_vehicle_witness :
  manager_ok ex_ids 2 0 ex_idle_manager ex_idle_routing /\
  feasible ex_minutes ex_pairs 2 1 ex_idle_manager ex_idle_routing ex_idle_assignment /\
  IsEnd ex_idle_routing (NextVar ex_idle_assignment (Start ex_idle_routing 1)) = true /\
  solve_routes ex_ids 2 ex_idle_manager ex_idle_routing 5 (Some ex_idle_assignment)
    = Some (Ok ex_idle_plan) /\
  exists fuel0, forall fuel, (fuel0 <= fuel)%nat ->
    exists routes,
      solve_routes ex_ids 2 ex_idle_manager ex_idle_routing fuel (Some ex_idle_assignment)
        = Some (Ok routes) /\
      forall k r, routes !! k = Some r ->
        (2 <= length (stops r))%nat /\
        (length (stops r) = 2%nat <->
         IsEnd ex_idle_routing
           (NextVar ex_idle_assignment (Start ex_idle_routing (Z.of_nat k))) = true) /\
        (IsEnd ex_idle_routing
           (NextVar ex_idle_assignment (Start ex_idle_routing (Z.of_nat k))) = true ->
         exists first final,
           stops r = [first; final] /\
           Py.getitem ex_ids 0 = Ok (stop_id first) /\
           Py.getitem ex_ids 0 = Ok (stop_id final) /\
           time_min first = 0 /\ load_at_stop first = 0 /\
           vehicle_id r = Z.of_nat k /\
           max_load r = 0 /\
           total_travel_time_min r = time_min final).
Proof.
  split; [exact ex_idle_manager_ok |]. split; [exact ex_idle_feasible |].
  split; [reflexivity |]. split; [reflexivity |].
  exact (idle_vehicle_route_is_depot_to_depot ex_ids ex_minutes ex_pairs 2 1 0
           ex_idle_manager ex_idle_routing ex_idle_assignment
           ex_idle_manager_ok ex_idle_feasible).
Defined.

(** The search that found nothing. *)
Lemma infeasible_only_witness :
  solve_routes ex_ids 1 ex_manager ex_routing 5 None = Some (Raise infeasible) /\
  ((@None Assignment = None /\ infeasible = infeasible) \/
   (exists a : Assignment, None = Some a /\ infeasible = IndexError)).
Proof.
  split; [reflexivity |].
  exact (infeasible_error_only_without_solution ex_ids 1 ex_manager ex_routing 5 None
           infeasible eq_refl).
Defined.

(** The plan of the instance. *)
Definition ex_plan : list Route :=
  [{| vehicle_id := 0;
      stops := [{| stop_id := "DEPOT"; load_at_stop := 0; time_min := 0 |};
                {| stop_id := "R001_P"; load_at_stop := 0; time_min := 10 |};
                {| stop_id := "R001_D"; load_at_stop := 1; time_min := 15 |};
                {| stop_id := "DEPOT"; load_at_stop := 0; time_min := 30 |}];
      total_travel_time_min := 30;
      max_load := 1 |}].

Lemma stop_ids_witness :
  solve_routes ex_ids 1 ex_manager ex_routing 5 (Some ex_assignment) = Some (Ok ex_plan) /\
  forall r s, r ∈ ex_plan -> s ∈ stops r -> stop_id s ∈ ex_ids.
Proof.
  split; [reflexivity |].
  exact (stop_ids_come_from_ids ex_ids 1 ex_manager ex_routing 5 ex_assignment
           ex_plan eq_refl).
Defined.

Lemma ex_two_pairs_distinct :
  NoDup (flat_map (fun pd : Z * Z => [fst pd; snd pd]) [(1, 2); (3, 4)]).
Proof. apply (bool_decide_unpack _). vm_compute. reflexivity. Qed.

Lemma pair_demands_cancel_witness :
  NoDup (flat_map (fun pd => [fst pd; snd pd]) [(1, 2); (3, 4)]) /\
  (3, 4) ∈ [(1, 2); (3, 4)] /\
  demand_of_node [(1, 2); (3, 4)] 3 = 1 /\ demand_of_node [(1, 2); (3, 4)] 4 = -1.
Proof.
  assert (Hin : (3, 4) ∈ [(1, 2); (3, 4)]) by (right; left).
  split; [exact ex_two_pairs_distinct |]. split; [exact Hin |].
  exact (pair_demands_cancel [(1, 2); (3, 4)] 3 4 ex_two_pairs_distinct Hin).
Defined.

(** ** Two requests on one vehicle, between stops no time apart *)










End RoutingService.

(** * Python text *)

Module Text.

Definition code (c : ascii) : nat := nat_of_ascii c.

(** [str.isspace] on a code point below 256. *)
Definition isspace (c : ascii) : bool :=
  let n := code c in
  ((9 <=? n) && (n <=? 13) || (28 <=? n) && (n <=? 32) || (n =? 133) || (n =? 160))%nat.

(** The line boundaries of [str.splitlines] below 256. *)
Definition is_linebreak (c : ascii) : bool :=
  let n := code c in
  ((10 <=? n) && (n <=? 13) || (28 <=? n) && (n <=? 30) || (n =? 133))%nat.

Definition LF : ascii := "010"%char.
Definition CR : ascii := "013"%char.
Definition DQUOTE : ascii := "034"%char.

Fixpoint lstrip (s : string) : string :=
  match s with
  | EmptyString => EmptyString
  | String c s' => if isspace c then lstrip s' else s
  end.

(** [s.rstrip(chars)], the set of characters given by its test. *)
Fixpoint rstrip_by (f : ascii -> bool) (s : string) : string :=
  match s with
  | EmptyString => EmptyString
  | String c s' =>
      match rstrip_by f s' with
      | EmptyString => if f c then EmptyString else String c EmptyString
      | r => String c r
      end
  end.

Definition rstrip : string -> string := rstrip_by isspace.
Definition strip (s : string) : string := lstrip (rstrip s).

Fixpoint startswith (prefix s : string) : bool :=
  match prefix, s with
  | EmptyString, _ => true
  | String a p', String b s' => Ascii.eqb a b && startswith p' s'
  | String _ _, EmptyString => false
  end.

Fixpoint endswith (suffix s : string) : bool :=
  String.eqb s suffix ||
  match s with
  | EmptyString => false
  | String _ s' => endswith suffix s'
  end.

(** [s[:-1]] *)
Fixpoint drop_last (s : string) : string :=
  match s with
  | EmptyString => EmptyString
  | String c EmptyString => EmptyString
  | String c s' => String c (drop_last s')
  end.

(** [s[:n]] *)
Definition prefix_of (n : nat) (s : string) : string := substring 0 n s.

(** [s.splitlines()]: a line ends at a boundary, [\r\n] counts as one,
    and no empty line follows the last boundary. *)
Fixpoint splitlines (s : string) : list string :=
  match s with
  | EmptyString => []
  | String c s' =>
      if is_linebreak c then
        EmptyString ::
        splitlines (if Ascii.eqb c CR then
                      match s' with
                      | String c2 s'' => if Ascii.eqb c2 LF then s'' else s'
                      | EmptyString => s'
                      end
                    else s')
      else
        match splitlines s' with
        | [] => [String c EmptyString]
        | line :: lines => String c line :: lines
        end
  end.

(** [sep.join(parts)] *)
Fixpoint join (sep : string) (parts : list string) : string :=
  match parts with
  | [] => EmptyString
  | [x] => x
  | x :: rest => x +:+ sep +:+ join sep rest
  end.

Fixpoint last_char (s : string) : option ascii :=
  match s with
  | EmptyString => None
  | String c EmptyString => Some c
  | String _ s' => last_char s'
  end.

Definition first_char (s : string) : option ascii :=
  match s with
  | EmptyString => None
  | String c _ => Some c
  end.

Fixpoint no_linebreak (s : string) : bool :=
  match s with
  | EmptyString => true
  | String c s' => negb (is_linebreak c) && no_linebreak s'
  end.

Example splitlines_mixed :
  splitlines (String "a" (String CR (String LF (String LF (String "b" (String LF EmptyString))))))
  = ["a"; ""; "b"].
Proof. reflexivity. Qed.

Example strip_both : strip (String LF "  [x] ") = "[x]".
Proof. reflexivity. Qed.

Lemma last_char_cons c s :
  s <> EmptyString -> last_char (String c s) = last_char s.
Proof. destruct s; [congruence | reflexivity]. Qed.

Lemma last_char_nonempty s c : last_char s = Some c -> s <> EmptyString.
Proof. destruct s; [discriminate | discriminate]. Qed.

Lemma rstrip_by_last f s c :
  last_char s = Some c -> f c = false -> rstrip_by f s = s.
Proof.
  induction s as [| a s IH]; [discriminate |].
  intros Hl Hf. destruct s as [| b s].
  - simpl in *. injection Hl as ->. rewrite Hf. reflexivity.
  - change (last_char (String a (String b s))) with (last_char (String b s)) in Hl.
    specialize (IH Hl Hf).
    change (rstrip_by f (String a (String b s)))
      with (match rstrip_by f (String b s) with
            | EmptyString => if f a then EmptyString else String a EmptyString
            | r => String a r
            end).
    rewrite IH. reflexivity.
Qed.

Lemma lstrip_first s c : first_char s = Some c -> isspace c = false -> lstrip s = s.
Proof.
  destruct s as [| a s]; [discriminate |]. simpl. intros [= ->] ->. reflexivity.
Qed.

Lemma strip_id s a b :
  first_char s = Some a -> isspace a = false ->
  last_char s = Some b -> isspace b = false -> strip s = s.
Proof.
  intros Ha Hsa Hb Hsb. unfold strip, rstrip.
  rewrite (rstrip_by_last _ _ _ Hb Hsb). apply (lstrip_first _ _ Ha Hsa).
Qed.

Lemma endswith_char x s :
  endswith (String x EmptyString) s =
  match last_char s with Some y => Ascii.eqb y x | None => false end.
Proof.
  induction s as [| a s IH]; [reflexivity |].
  destruct s as [| b s].
  - simpl. destruct (Ascii.eqb a x); reflexivity.
  - change (endswith (String x EmptyString) (String a (String b s)))
      with (String.eqb (String a (String b s)) (String x EmptyString)
            || endswith (String x EmptyString) (String b s)).
    rewrite IH.
    change (last_char (String a (String b s))) with (last_char (String b s)).
    simpl. destruct (Ascii.eqb a x); reflexivity.
Qed.

Lemma startswith_first p c s a :
  first_char s = Some a -> a <> c -> startswith (String c p) s = false.
Proof.
  destruct s as [| b s]; [discriminate |]. simpl. intros [= ->] Hne.
  destruct (Ascii.eqb_spec c a); [congruence | reflexivity].
Qed.

Lemma splitlines_line l s :
  no_linebreak l = true ->
  splitlines (l +:+ String LF s) = l :: splitlines s.
Proof.
  induction l as [| c l IH]; intros H.
  - reflexivity.
  - simpl in H. apply andb_prop in H as [Hc Hl].
    apply negb_true_iff in Hc.
    change (String c l +:+ String LF s) with (String c (l +:+ String LF s)).
    simpl. rewrite Hc, (IH Hl). reflexivity.
Qed.

Lemma splitlines_single l :
  no_linebreak l = true -> l <> EmptyString -> splitlines l = [l].
Proof.
  induction l as [| c l IH]; intros H Hne; [congruence |].
  simpl in H. apply andb_prop in H as [Hc Hl]. apply negb_true_iff in Hc.
  simpl. rewrite Hc. destruct l as [| b l]; [reflexivity |].
  rewrite (IH Hl); [reflexivity | discriminate].
Qed.

Lemma splitlines_join lines :
  Forall (fun l => no_linebreak l = true /\ l <> EmptyString) lines ->
  splitlines (join (String LF EmptyString) lines) = lines.
Proof.
  induction 1 as [| l lines [Hl Hne] Hrest IH]; [reflexivity |].
  destruct lines as [| l' lines].
  - simpl. apply splitlines_single; assumption.
  - change (join (String LF EmptyString) (l :: l' :: lines))
      with (l +:+ String LF EmptyString +:+ join (String LF EmptyString) (l' :: lines)).
    change (String LF EmptyString +:+ join (String LF EmptyString) (l' :: lines))
      with (String LF (join (String LF EmptyString) (l' :: lines))).
    rewrite (splitlines_line _ _ Hl), IH. reflexivity.
Qed.

End Text.

(** * JSON values as Python sees them after [json.loads] *)

#[local] Set Warnings "-register-all".

Inductive json : Type :=
| JNull
| JBool (b : bool)
| JInt (n : Z)
| JFloat (q : Q)
| JStr (s : string)
| JArr (items : list json)
| JObj (fields : list (string * json)).

Module Dict.

(** [d.get(k)]; a [dict] built by [json.loads] has each key once. *)
Fixpoint get (fields : list (string * json)) (k : string) : option json :=
  match fields with
  | [] => None
  | (k', v) :: rest => if String.eqb k' k then Some v else get rest k
  end.

(** [k in d] *)
Definition contains (fields : list (string * json)) (k : string) : bool :=
  match get fields k with Some _ => true | None => false end.

(** [d[k]] *)
Definition item (fields : list (string * json)) (k : string) : result json :=
  match get fields k with Some v => Ok v | None => Raise (KeyError k) end.

End Dict.

(** [round(x)] on a float: to the nearest integer, ties to the even one. *)
Definition round_half_even (x : Q) : Z :=
  let n := Qnum x in
  let d := Z.pos (Qden x) in
  let f := n / d in
  match 2 * (n mod d) ?= d with
  | Lt => f
  | Gt => f + 1
  | Eq => if Z.even f then f else f + 1
  end.

Example round_down : round_half_even (299 # 60) = 5. Proof. reflexivity. Qed.
Example round_tie_even : round_half_even (150 # 60) = 2. Proof. reflexivity. Qed.
Example round_tie_odd : round_half_even (210 # 60) = 4. Proof. reflexivity. Qed.
Example round_small : round_half_even (29 # 60) = 0. Proof. reflexivity. Qed.

Lemma round_half_even_nonneg x : (0 <= x)%Q -> 0 <= round_half_even x.
Proof.
  destruct x as [n d]. unfold Qle, round_half_even. simpl. intros H.
  assert (Hn : 0 <= n) by lia.
  assert (Hf : 0 <= n / Z.pos d) by (apply Z.div_pos; lia).
  destruct (2 * (n mod Z.pos d) ?= Z.pos d); [destruct (Z.even _) | |]; lia.
Qed.

(** ** Python floats *)

(** A [float]: a finite binary64 value, given as the rational it is, an
    infinity or a NaN. *)
Inductive pyfloat : Type :=
| Finite (q : Q)
| Infinity (negative : bool)
| NaN.

Module Binary64.

(** [2 ^ e] *)
Definition pow2 (e : Z) : Q :=
  match e with
  | Z.neg p => 1 # (2 ^ p)
  | _ => inject_Z (2 ^ e)
  end.

(** The binary exponent of [n / d]: the [e] with
    [2 ^ e <= n / d < 2 ^ (e + 1)]. *)
Definition exponent (n d : positive) : Z :=
  let e := Z.log2 (Z.pos n) - Z.log2 (Z.pos d) in
  if Qle_bool (pow2 e) (Z.pos n # d) then e else e - 1.

(** The gap between the binary64 values around [n / d]: 53 significant
    bits, and nothing finer than [2 ^ -1074]. *)
Definition ulp (n d : positive) : Q := pow2 (Z.max (exponent n d) (-1022) - 52).

(** The binary64 value nearest to [q], ties to the even significand: what
    a float operation whose exact result is [q] returns.  No overflow is
    modelled: the one operation of the code, a float divided by 60, stays
    within the range of its operand. *)
Definition nearest (q : Q) : Q :=
  match Qnum q with
  | 0 => 0
  | Z.pos n | Z.neg n =>
      let u := ulp n (Qden q) in
      inject_Z (round_half_even (q / u)) * u
  end.

Example nearest_exact : Qeq_bool (nearest (300 # 60)) 5 = true.
Proof. reflexivity. Qed.
Example nearest_tenth :
  Qeq_bool (nearest (1 # 10)) (3602879701896397 # 36028797018963968) = true.
Proof. reflexivity. Qed.
Example nearest_tie_even : nearest (inject_Z (2 ^ 53 + 1)) = inject_Z (2 ^ 53).
Proof. reflexivity. Qed.
Example nearest_tie_odd : nearest (inject_Z (2 ^ 53 + 3)) = inject_Z (2 ^ 53 + 4).
Proof. reflexivity. Qed.

Lemma pow2_pos e : (0 < pow2 e)%Q.
Proof.
  destruct e as [| p | p]; unfold pow2, Qlt; simpl.
  - lia.
  - pose proof (Z.pow_pos_nonneg 2 (Z.pos p) ltac:(lia) ltac:(lia)). lia.
  - lia.
Qed.

Lemma nearest_nonneg q : (0 <= q)%Q -> (0 <= nearest q)%Q.
Proof.
  intros H. unfold nearest. destruct q as [n d]. simpl.
  destruct n as [| n | n].
  - apply Qle_refl.
  - set (u := ulp n d). assert (Hu : (0 < u)%Q) by apply pow2_pos.
    apply Qmult_le_0_compat; [| apply Qlt_le_weak; exact Hu].
    change 0%Q with (inject_Z 0). rewrite <- Zle_Qle.
    apply round_half_even_nonneg. apply Qle_shift_div_l; [exact Hu |].
    rewrite Qmult_0_l. exact H.
  - unfold Qle in H. simpl in H. lia.
Qed.

End Binary64.

(** [x / n] for a float [x] and a positive [int] [n] that a float holds
    exactly. *)
Definition truediv (x : pyfloat) (n : Z) : pyfloat :=
  match x with
  | Finite q => Finite (Binary64.nearest (q / inject_Z n))
  | Infinity negative => Infinity negative
  | NaN => NaN
  end.

(** [round(x)] on a float: [OverflowError] on an infinity, [ValueError] on
    a NaN. *)
Definition py_round (x : pyfloat) : result Z :=
  match x with
  | Finite q => Ok (round_half_even q)
  | Infinity _ => Raise OverflowError
  | NaN => Raise ValueError
  end.

(** Five minutes; and a duration at which the rounding of the division
    decides the minute: the exact quotient lies above the half, the float
    quotient on it. *)
Example minutes_of_300s : py_round (truediv (Finite 300) 60) = Ok 5.
Proof. reflexivity. Qed.
Example minutes_at_a_rounded_tie :
  py_round (truediv (Finite (inject_Z 67553994410557472)) 60) = Ok 1125899906842624 /\
  round_half_even (inject_Z 67553994410557472 / inject_Z 60) = 1125899906842625.
Proof. split; reflexivity. Qed.

(** * The travel-matrix builder: [matrix_service.py] *)

Module MatrixService.

Definition MAX_BLOCK : nat := 100.

(** A point of the request: [{id, lat?, lng?, address?}]. *)
Record Point := {
  id : string;
  lat : option Q;
  lng : option Q;
  address : option string
}.

(** A matrix under construction: a cell is [None] until it is stored. *)
Abbreviation matrix := (list (list (option Z))).

(** The dictionary [{"ids": .., "minutes": .., "meters": ..}]. *)
Record TravelMatrix := {
  ids : list string;
  minutes : matrix;
  meters : matrix
}.

(** The body posted to [computeRouteMatrix] (the travel mode is always
    [DRIVE]); [departureTime] is left out when the argument is falsy. *)
Record RouteMatrixBody := {
  origins : list (Q * Q);
  destinations : list (Q * Q);
  routingPreference : string;
  departureTime : option string
}.

Inductive call : Type :=
| GeocodeCall (address key : string)
| RouteMatrixCall (key : string) (body : RouteMatrixBody).

(** What [requests.get]/[requests.post] comes back with. *)
Inductive http_reply : Type :=
| Response (status_code : Z) (text : string)
| NoResponse.

(** The argument of the hash in [_cache_key]: coordinates rounded to six
    decimals (in millionths of a degree), departure time, preference. *)
Record Signature := {
  sig_coords : list (Z * Z);
  sig_dep : option string;
  sig_pref : string
}.

(** The process: the module-level [_cache] and the network calls made so
    far, oldest first. *)
Record state := {
  cache : gmap string TravelMatrix;
  calls : list call
}.

(** A computation that reads and updates the process state and may raise. *)
Definition M (A : Type) : Type := state -> result A * state.

Definition ret {A} (a : A) : M A := fun st => (Ok a, st).
Definition raise {A} (e : exn) : M A := fun st => (Raise e, st).
Definition lift {A} (r : result A) : M A := fun st => (r, st).

Definition bindM {A B} (m : M A) (k : A -> M B) : M B :=
  fun st =>
    match m st with
    | (Ok a, st') => k a st'
    | (Raise e, st') => (Raise e, st')
    end.

Notation "'let!' x ':=' m 'in' k" := (bindM m (fun x => k))
  (at level 10, x pattern, m at level 100, k at level 200) : py_scope.

Fixpoint for_eachM {A S} (l : list A) (body : A -> S -> M S) (s : S) : M S :=
  match l with
  | [] => ret s
  | x :: l' => let! s' := body x s in for_eachM l' body s'
  end.

(** [enumerate(l)] *)
Definition enumerate {A} (l : list A) : list (Z * A) :=
  zip (Py.range (Z.of_nat (length l))) l.

(** [round(a, 6)], in millionths.  A rational has a single zero: the
    coordinates [0.0] and [-0.0], which the signature of the source spells
    differently, share a key here. *)
Definition round6 (a : Q) : Z := round_half_even (a * inject_Z (10 ^ 6)).

(** [_chunks]: the slices [lst[i:i + size]] for [i] in
    [range(0, len(lst), size)]. *)
Definition _chunks {A} (lst : list A) (size : nat) : list (list A) :=
  map (fun k => take size (drop (k * size) lst))
      (seq 0 ((length lst + size - 1) / size)).

(** Truth value of [j.get(k)]. *)
Definition truthy (v : option json) : bool :=
  match v with
  | None | Some JNull => false
  | Some (JBool b) => b
  | Some (JInt n) => negb (n =? 0)
  | Some (JFloat q) => negb (Qeq_bool q 0)
  | Some (JStr s) => negb (String.eqb s EmptyString)
  | Some (JArr l) => match l with [] => false | _ => true end
  | Some (JObj f) => match f with [] => false | _ => true end
  end.

Definition is_str (v : json) (s : string) : bool :=
  match v with JStr s' => String.eqb s' s | _ => false end.

(** A value used as a list subscript. *)
Definition as_index (v : json) : result Z :=
  match v with
  | JInt n => Ok n
  | JBool b => Ok (Z.b2z b)
  | _ => Raise TypeError
  end.

(** [v[k]] for a string key. *)
Definition item (v : json) (k : string) : result json :=
  match v with
  | JObj fields => Dict.item fields k
  | _ => Raise TypeError
  end.

(** [v[0]] *)
Definition first_item (v : json) : result json :=
  match v with
  | JArr l => Py.getitem l 0
  | JObj _ => Raise (KeyError "0")
  | _ => Raise TypeError
  end.

(** [m[oi][di] = x] with the subscripts as they came out of the payload. *)
Definition store (m : matrix) (oi di : json) (x : option Z) : result matrix :=
  let* i := as_index oi in
  let* row := Py.getitem m i in
  let* j := as_index di in
  let* row' := Py.setitem row j x in
  Py.setitem m i row'.

Definition fill_cell (sentinel : Z) (c : option Z) : option Z :=
  match c with None => Some sentinel | Some _ => c end.

(** [if m[i][j] is None: m[i][j] = sentinel] *)
Definition fill_at (m : matrix) (i j : Z) (sentinel : Z) : result matrix :=
  let* c := Py.getitem2 m i j in
  match c with
  | None => Py.setitem2 m i j (Some sentinel)
  | Some _ => Ok m
  end.

(** The [# Fill any None] loops of [_compute_block]; both matrices have
    the shape of [minutes]. *)
Definition fill_none (mm : matrix * matrix) : result (matrix * matrix) :=
  Py.for_each (Py.range (Z.of_nat (length (fst mm))))
    (fun i mm =>
       let* row := Py.getitem (fst mm) i in
       Py.for_each (Py.range (Z.of_nat (length row)))
         (fun j mm =>
            let* minutes := fill_at (fst mm) i j (10 ^ 6) in
            let* meters := fill_at (snd mm) i j (10 ^ 9) in
            Ok (minutes, meters))
         mm)
    mm.

(** The assignments of lines 158-159, for [i], [j] over the block. *)
Definition copy_block (base_i base_j : Z) (m_blk d_blk : matrix) (rows cols : nat)
    (mm : matrix * matrix) : result (matrix * matrix) :=
  Py.for_each (Py.range (Z.of_nat rows))
    (fun i mm =>
       Py.for_each (Py.range (Z.of_nat cols))
         (fun j mm =>
            let* x := Py.getitem2 m_blk i j in
            let* minutes := Py.setitem2 (fst mm) (base_i + i) (base_j + j) x in
            let* y := Py.getitem2 d_blk i j in
            let* meters := Py.setitem2 (snd mm) (base_i + i) (base_j + j) y in
            Ok (minutes, meters))
         mm)
    mm.

(** ** Rectangular matrices, cell by cell *)

Definition shaped (rows cols : nat) (m : matrix) : Prop :=
  length m = rows /\ Forall (fun r => length r = cols) m.

Definition cell (m : matrix) (a b : nat) : option (option Z) :=
  match m !! a with
  | Some row => row !! b
  | None => None
  end.

Lemma shaped_replicate rows cols x : shaped rows cols (replicate rows (replicate cols x)).
Proof.
  split; [apply length_replicate |].
  apply Forall_replicate. apply length_replicate.
Qed.

Lemma cell_replicate rows cols x a b :
  (a < rows)%nat -> (b < cols)%nat ->
  cell (replicate rows (replicate cols x)) a b = Some x.
Proof.
  intros Ha Hb. unfold cell.
  rewrite lookup_replicate_2 by exact Ha. apply lookup_replicate_2. exact Hb.
Qed.

Lemma shaped_row rows cols m a row :
  shaped rows cols m -> m !! a = Some row -> length row = cols.
Proof.
  intros [_ H] Ha. rewrite Forall_forall in H. apply H.
  apply list_elem_of_lookup. exists a. exact Ha.
Qed.

Lemma cell_in_range rows cols m a b :
  shaped rows cols m -> (a < rows)%nat -> (b < cols)%nat ->
  exists c, cell m a b = Some c.
Proof.
  intros Hs Ha Hb. unfold cell.
  destruct (lookup_lt_is_Some_2 m a) as [row Hrow]; [destruct Hs; lia |].
  rewrite Hrow. apply lookup_lt_is_Some_2.
  rewrite (shaped_row _ _ _ _ _ Hs Hrow). exact Hb.
Qed.

Lemma cell_lt rows cols m a b c :
  shaped rows cols m -> cell m a b = Some c -> (a < rows)%nat /\ (b < cols)%nat.
Proof.
  intros Hs. unfold cell. destruct (m !! a) as [row |] eqn:Hrow; [| discriminate].
  intros Hb. split.
  - destruct Hs as [<- _]. apply (lookup_lt_Some _ _ _ Hrow).
  - rewrite <- (shaped_row _ _ _ _ _ Hs Hrow). apply (lookup_lt_Some _ _ _ Hb).
Qed.

Lemma getitem_nat {A} (l : list A) (a : nat) x :
  l !! a = Some x -> Py.getitem l (Z.of_nat a) = Ok x.
Proof.
  intros H. unfold Py.getitem.
  rewrite Py.index_in_range by (pose proof (lookup_lt_Some _ _ _ H); lia).
  rewrite Nat2Z.id, H. reflexivity.
Qed.

Lemma setitem_nat {A} (l : list A) (a : nat) x :
  (a < length l)%nat -> Py.setitem l (Z.of_nat a) x = Ok (<[a := x]> l).
Proof.
  intros H. unfold Py.setitem. rewrite Py.index_in_range by lia.
  rewrite Nat2Z.id. reflexivity.
Qed.

Lemma setitem_length {A} (l l' : list A) i x :
  Py.setitem l i x = Ok l' -> length l' = length l.
Proof.
  unfold Py.setitem. destruct (Py.index (length l) i); [| discriminate].
  intros [= <-]. apply length_insert.
Qed.

Lemma getitem_elem {A} (l : list A) i x : Py.getitem l i = Ok x -> x ∈ l.
Proof.
  unfold Py.getitem. destruct (Py.index (length l) i) as [k |]; [| discriminate].
  destruct (l !! k) eqn:E; [| discriminate]. intros [= <-].
  apply list_elem_of_lookup. exists k. exact E.
Qed.

Lemma getitem2_cell rows cols m a b c :
  shaped rows cols m -> cell m a b = Some c ->
  Py.getitem2 m (Z.of_nat a) (Z.of_nat b) = Ok c.
Proof.
  intros Hs. unfold cell, Py.getitem2.
  destruct (m !! a) as [row |] eqn:Hrow; [| discriminate]. intros Hb.
  rewrite (getitem_nat _ _ _ Hrow). simpl. apply getitem_nat. exact Hb.
Qed.

Lemma setitem2_cell rows cols m a b x :
  shaped rows cols m -> (a < rows)%nat -> (b < cols)%nat ->
  exists m',
    Py.setitem2 m (Z.of_nat a) (Z.of_nat b) x = Ok m' /\
    shaped rows cols m' /\
    forall a' b', cell m' a' b' =
      if decide (a' = a /\ b' = b) then Some x else cell m a' b'.
Proof.
  intros Hs Ha Hb.
  destruct (lookup_lt_is_Some_2 m a) as [row Hrow]; [destruct Hs; lia |].
  pose proof (shaped_row _ _ _ _ _ Hs Hrow) as Hlen.
  exists (<[a := <[b := x]> row]> m). split; [| split].
  - unfold Py.setitem2. rewrite (getitem_nat _ _ _ Hrow). simpl.
    rewrite setitem_nat by lia. simpl. apply setitem_nat. destruct Hs; lia.
  - destruct Hs as [Hl Hf]. split; [rewrite length_insert; exact Hl |].
    apply Forall_insert; [exact Hf |]. rewrite length_insert. exact Hlen.
  - intros a' b'. unfold cell. destruct (decide (a' = a)) as [-> | Hne].
    + rewrite list_lookup_insert_eq by (destruct Hs; lia).
      destruct (decide (b' = b)) as [-> | Hne'].
      * rewrite list_lookup_insert_eq by lia.
        destruct (decide (a = a /\ b = b)) as [_ | n]; [reflexivity | tauto].
      * rewrite list_lookup_insert_ne by congruence. rewrite Hrow.
        destruct (decide (a = a /\ b' = b)) as [[_ e] | _]; [congruence | reflexivity].
    + rewrite list_lookup_insert_ne by congruence.
      destruct (decide (a' = a /\ b' = b)) as [[e _] | _]; [congruence | reflexivity].
Qed.

(** A loop over [range(n)] with an invariant indexed by the turn. *)
Lemma for_range_invariant {S} (n : nat) (I : nat -> S -> Prop)
    (body : Z -> S -> result S) (s : S) :
  I 0%nat s ->
  (forall k s, (k < n)%nat -> I k s -> exists s', body (Z.of_nat k) s = Ok s' /\ I (Datatypes.S k) s') ->
  exists s', Py.for_each (Py.range (Z.of_nat n)) body s = Ok s' /\ I n s'.
Proof.
  intros H0 Hstep. unfold Py.range. rewrite Nat2Z.id.
  assert (G : forall len start s,
             (start + len = n)%nat -> I start s ->
             exists s', Py.for_each (map Z.of_nat (seq start len)) body s = Ok s' /\ I n s').
  { induction len as [| len IH]; intros start s0 Hn Hi.
    - exists s0. replace n with start by lia. split; [reflexivity | exact Hi].
    - simpl. destruct (Hstep start s0 ltac:(lia) Hi) as [s1 [E1 H1]].
      rewrite E1. simpl. apply IH; [lia | exact H1]. }
  apply (G n 0%nat s); [lia | exact H0].
Qed.

(** A loop all of whose turns keep an invariant. *)
Lemma for_each_invariant {A S} (I : S -> Prop) (l : list A)
    (body : A -> S -> result S) (s s' : S) :
  I s -> (forall x s s', x ∈ l -> I s -> body x s = Ok s' -> I s') ->
  Py.for_each l body s = Ok s' -> I s'.
Proof.
  revert s. induction l as [| x l IH]; intros s Hi Hstep.
  - simpl. intros [= <-]. exact Hi.
  - simpl. destruct (body x s) as [s1 |] eqn:E; [| discriminate]. simpl.
    apply IH.
    + apply (Hstep x s s1); [left | exact Hi | exact E].
    + intros y t t' Hy. apply Hstep. right. exact Hy.
Qed.

(** ** The fill loops *)

(** [m] is [m0] with the cells before row [i], and before column [k] of
    row [i], filled. *)
Definition filled_upto (rows cols i k : nat) (sentinel : Z) (m0 m : matrix) : Prop :=
  shaped rows cols m /\
  forall a b, (a < rows)%nat -> (b < cols)%nat ->
    cell m a b =
    if decide (a < i \/ (a = i /\ b < k))%nat
    then fill_cell sentinel <$> cell m0 a b
    else cell m0 a b.

Lemma filled_start rows cols sentinel m0 :
  shaped rows cols m0 -> filled_upto rows cols 0 0 sentinel m0 m0.
Proof.
  intros Hs. split; [exact Hs |]. intros a b _ _.
  destruct (decide _) as [H | _]; [lia | reflexivity].
Qed.

Lemma filled_next_row rows cols i sentinel m0 m :
  filled_upto rows cols i cols sentinel m0 m ->
  filled_upto rows cols (S i) 0 sentinel m0 m.
Proof.
  intros [Hs H]. split; [exact Hs |]. intros a b Ha Hb. rewrite (H a b Ha Hb).
  destruct (decide (a < i \/ a = i /\ b < cols)%nat),
           (decide (a < S i \/ a = S i /\ b < 0)%nat); try reflexivity; lia.
Qed.

Lemma filled_step rows cols i k sentinel m0 m :
  filled_upto rows cols i k sentinel m0 m -> (i < rows)%nat -> (k < cols)%nat ->
  exists m', fill_at m (Z.of_nat i) (Z.of_nat k) sentinel = Ok m' /\
             filled_upto rows cols i (S k) sentinel m0 m'.
Proof.
  intros [Hs H] Hi Hk.
  destruct (cell_in_range _ _ _ i k Hs Hi Hk) as [c Hc].
  pose proof (H i k Hi Hk) as Hik.
  destruct (decide (i < i \/ i = i /\ k < k)%nat) as [Hd | _]; [lia |].
  unfold fill_at. rewrite (getitem2_cell _ _ _ _ _ _ Hs Hc). simpl.
  destruct c as [z |].
  - exists m. split; [reflexivity |]. split; [exact Hs |].
    intros a b Ha Hb. rewrite (H a b Ha Hb).
    destruct (decide (a < i \/ a = i /\ b < k)%nat),
             (decide (a < i \/ a = i /\ b < S k)%nat); try reflexivity; try lia.
    assert (a = i /\ b = k) as [-> ->] by lia.
    rewrite <- Hik, Hc. reflexivity.
  - destruct (setitem2_cell _ _ _ i k (Some sentinel) Hs Hi Hk) as [m' [E [Hs' Hcell]]].
    exists m'. split; [exact E |]. split; [exact Hs' |].
    intros a b Ha Hb. rewrite Hcell.
    destruct (decide (a = i /\ b = k)) as [[-> ->] | Hne].
    + destruct (decide _) as [_ | n]; [| lia]. rewrite <- Hik, Hc. reflexivity.
    + rewrite (H a b Ha Hb).
      destruct (decide (a < i \/ a = i /\ b < k)%nat),
               (decide (a < i \/ a = i /\ b < S k)%nat); try reflexivity; lia.
Qed.

Lemma filled_done rows cols sentinel m0 m a b :
  filled_upto rows cols rows 0 sentinel m0 m -> (a < rows)%nat -> (b < cols)%nat ->
  cell m a b = fill_cell sentinel <$> cell m0 a b.
Proof.
  intros [_ H] Ha Hb. rewrite (H a b Ha Hb).
  destruct (decide _) as [_ | n]; [reflexivity | lia].
Qed.

Lemma fill_none_spec rows cols m d :
  shaped rows cols m -> shaped rows cols d ->
  exists m' d',
    fill_none (m, d) = Ok (m', d') /\
    shaped rows cols m' /\ shaped rows cols d' /\
    forall a b, (a < rows)%nat -> (b < cols)%nat ->
      cell m' a b = fill_cell (10 ^ 6) <$> cell m a b /\
      cell d' a b = fill_cell (10 ^ 9) <$> cell d a b.
Proof.
  intros Hm Hd. unfold fill_none. simpl fst.
  replace (length m) with rows by (destruct Hm; congruence).
  destruct (for_range_invariant rows
              (fun i mm => filled_upto rows cols i 0 (10 ^ 6) m (fst mm) /\
                           filled_upto rows cols i 0 (10 ^ 9) d (snd mm))
              (fun i mm =>
                 let* row := Py.getitem (fst mm) i in
                 Py.for_each (Py.range (Z.of_nat (length row)))
                   (fun j mm =>
                      let* minutes := fill_at (fst mm) i j (10 ^ 6) in
                      let* meters := fill_at (snd mm) i j (10 ^ 9) in
                      Ok (minutes, meters)) mm)
              (m, d)) as [[m' d'] [E [Fm Fd]]].
  - split; apply filled_start; assumption.
  - intros i [m1 d1] Hi [F1 F2]. simpl in F1, F2. simpl fst.
    destruct (lookup_lt_is_Some_2 m1 i) as [row Hrow]; [destruct F1 as [[-> _] _]; exact Hi |].
    rewrite (getitem_nat _ _ _ Hrow). simpl.
    rewrite (shaped_row _ _ _ _ _ (proj1 F1) Hrow).
    destruct (for_range_invariant cols
                (fun k mm => filled_upto rows cols i k (10 ^ 6) m (fst mm) /\
                             filled_upto rows cols i k (10 ^ 9) d (snd mm))
                (fun j mm =>
                   let* minutes := fill_at (fst mm) (Z.of_nat i) j (10 ^ 6) in
                   let* meters := fill_at (snd mm) (Z.of_nat i) j (10 ^ 9) in
                   Ok (minutes, meters))
                (m1, d1)) as [[m2 d2] [E2 [G1 G2]]].
    + split; assumption.
    + intros k [m3 d3] Hk [G1 G2]. simpl in G1, G2. simpl fst. simpl snd.
      destruct (filled_step _ _ _ _ _ _ _ G1 Hi Hk) as [m4 [E4 G4]].
      destruct (filled_step _ _ _ _ _ _ _ G2 Hi Hk) as [d4 [E5 G5]].
      exists (m4, d4). rewrite E4. simpl. rewrite E5. simpl. auto.
    + exists (m2, d2). split; [exact E2 |].
      split; apply filled_next_row; assumption.
  - exists m', d'. split; [exact E |]. simpl in Fm, Fd.
    split; [exact (proj1 Fm) |]. split; [exact (proj1 Fd) |].
    intros a b Ha Hb. split; eapply filled_done; eassumption.
Qed.

(** ** Stores keep what holds of every cell *)

Lemma setitem_forall {A} (P : A -> Prop) (l l' : list A) i x :
  Forall P l -> P x -> Py.setitem l i x = Ok l' -> Forall P l'.
Proof.
  intros Hl Hx. unfold Py.setitem. destruct (Py.index (length l) i); [| discriminate].
  intros [= <-]. apply Forall_insert; assumption.
Qed.

Lemma getitem_forall {A} (P : A -> Prop) (l : list A) i x :
  Forall P l -> Py.getitem l i = Ok x -> P x.
Proof.
  intros Hl H. rewrite Forall_forall in Hl. apply Hl. apply (getitem_elem _ _ _ H).
Qed.

Lemma getitem2_forall (P : option Z -> Prop) (m : matrix) i j x :
  Forall (Forall P) m -> Py.getitem2 m i j = Ok x -> P x.
Proof.
  intros Hm. unfold Py.getitem2.
  destruct (Py.getitem m i) as [row |] eqn:E; [| discriminate]. simpl.
  apply getitem_forall. apply (getitem_forall _ _ _ _ Hm E).
Qed.

Lemma setitem2_preserves (P : option Z -> Prop) rows cols (m m' : matrix) i j x :
  shaped rows cols m -> Forall (Forall P) m -> P x ->
  Py.setitem2 m i j x = Ok m' ->
  shaped rows cols m' /\ Forall (Forall P) m'.
Proof.
  intros [Hlen Hrows] Hm Hx. unfold Py.setitem2.
  destruct (Py.getitem m i) as [row |] eqn:E; [| discriminate]. simpl.
  destruct (Py.setitem row j x) as [row' |] eqn:E'; [| discriminate]. simpl.
  intros E''. split; [split |].
  - rewrite (setitem_length _ _ _ _ E''). exact Hlen.
  - eapply setitem_forall; [exact Hrows | | exact E''].
    rewrite (setitem_length _ _ _ _ E').
    apply (getitem_forall _ _ _ _ Hrows E).
  - eapply setitem_forall; [exact Hm | | exact E''].
    apply (setitem_forall _ _ _ _ _ (getitem_forall _ _ _ _ Hm E) Hx E').
Qed.

Lemma store_preserves (P : option Z -> Prop) rows cols (m m' : matrix) oi di x :
  shaped rows cols m -> Forall (Forall P) m -> P x ->
  store m oi di x = Ok m' ->
  shaped rows cols m' /\ Forall (Forall P) m'.
Proof.
  intros Hs Hm Hx. unfold store.
  destruct (as_index oi) as [i |]; [| discriminate]. simpl.
  destruct (Py.getitem m i) as [row |] eqn:E; [| discriminate]. simpl.
  destruct (as_index di) as [j |]; [| discriminate]. simpl.
  intros H. apply (setitem2_preserves P rows cols m m' i j x Hs Hm Hx).
  unfold Py.setitem2. rewrite E. exact H.
Qed.

Lemma forall_cells (P : option Z -> Prop) rows cols (m : matrix) :
  shaped rows cols m ->
  (forall a b c, cell m a b = Some c -> P c) -> Forall (Forall P) m.
Proof.
  intros Hs H. apply Forall_lookup. intros a row Hrow.
  apply Forall_lookup. intros b c Hc. apply (H a b). unfold cell. rewrite Hrow. exact Hc.
Qed.

Lemma copy_block_preserves (P : option Z -> Prop) rows cols base_i base_j
    (m_blk d_blk : matrix) r c (mm mm' : matrix * matrix) :
  Forall (Forall P) m_blk -> Forall (Forall P) d_blk ->
  shaped rows cols (fst mm) -> shaped rows cols (snd mm) ->
  Forall (Forall P) (fst mm) -> Forall (Forall P) (snd mm) ->
  copy_block base_i base_j m_blk d_blk r c mm = Ok mm' ->
  (shaped rows cols (fst mm') /\ shaped rows cols (snd mm')) /\
  (Forall (Forall P) (fst mm') /\ Forall (Forall P) (snd mm')).
Proof.
  intros Hmb Hdb H1 H2 H3 H4. unfold copy_block.
  pose (I := fun mm : list (list (option Z)) * list (list (option Z)) =>
               (shaped rows cols (fst mm) /\ shaped rows cols (snd mm)) /\
               (Forall (Forall P) (fst mm) /\ Forall (Forall P) (snd mm))).
  apply (for_each_invariant I); [unfold I; tauto |].
  intros i s s' _ Hs. apply (for_each_invariant I); [exact Hs |].
  unfold I. clear -Hmb Hdb. intros j [m d] t _ [[Hm Hd] [Pm Pd]]. simpl in *.
  destruct (Py.getitem2 m_blk i j) as [x |] eqn:Ex; [| discriminate]. simpl.
  destruct (Py.setitem2 m _ _ x) as [m1 |] eqn:E1; [| discriminate]. simpl.
  destruct (Py.getitem2 d_blk i j) as [y |] eqn:Ey; [| discriminate]. simpl.
  destruct (Py.setitem2 d _ _ y) as [d1 |] eqn:E2; [| discriminate]. simpl.
  intros [= <-]. simpl.
  destruct (setitem2_preserves P _ _ _ _ _ _ _ Hm Pm (getitem2_forall P _ _ _ _ Hmb Ex) E1).
  destruct (setitem2_preserves P _ _ _ _ _ _ _ Hd Pd (getitem2_forall P _ _ _ _ Hdb Ey) E2).
  tauto.
Qed.

(** ** The copy loops, cell by cell *)

Lemma index_nonneg len i k :
  0 <= i -> Py.index len i = Some k -> k = Z.to_nat i /\ (Z.to_nat i < len)%nat.
Proof.
  intros Hi. unfold Py.index.
  destruct (Z.leb_spec 0 i); [| lia].
  destruct (Z.ltb_spec i (Z.of_nat len)); simpl.
  - intros [= <-]. split; [reflexivity | lia].
  - destruct (Z.ltb_spec i 0); [lia |]. rewrite andb_false_r. discriminate.
Qed.

Lemma getitem_ok_nat {A} (l : list A) (a : nat) x :
  Py.getitem l (Z.of_nat a) = Ok x -> l !! a = Some x.
Proof.
  unfold Py.getitem. destruct (Py.index (length l) (Z.of_nat a)) as [k |] eqn:E; [| discriminate].
  apply index_nonneg in E as [-> _]; [| lia]. rewrite Nat2Z.id.
  destruct (l !! a); [| discriminate]. intros [= <-]. reflexivity.
Qed.

Lemma getitem2_ok_cell (m : matrix) (a b : nat) x :
  Py.getitem2 m (Z.of_nat a) (Z.of_nat b) = Ok x -> cell m a b = Some x.
Proof.
  unfold Py.getitem2, cell.
  destruct (Py.getitem m (Z.of_nat a)) as [row |] eqn:E; [| discriminate]. simpl.
  rewrite (getitem_ok_nat _ _ _ E). apply getitem_ok_nat.
Qed.

Lemma setitem2_ok_cell rows cols (m m' : matrix) (a b : nat) x :
  shaped rows cols m ->
  Py.setitem2 m (Z.of_nat a) (Z.of_nat b) x = Ok m' ->
  shaped rows cols m' /\
  forall a' b', cell m' a' b' =
    if decide (a' = a /\ b' = b) then Some x else cell m a' b'.
Proof.
  intros Hs H.
  assert (Ha : (a < rows)%nat).
  { unfold Py.setitem2 in H.
    destruct (Py.getitem m (Z.of_nat a)) as [row |] eqn:E; [| discriminate].
    apply getitem_ok_nat, lookup_lt_Some in E. destruct Hs; lia. }
  assert (Hb : (b < cols)%nat).
  { unfold Py.setitem2 in H.
    destruct (Py.getitem m (Z.of_nat a)) as [row |] eqn:E; [| discriminate].
    simpl in H. apply getitem_ok_nat in E.
    rewrite <- (shaped_row _ _ _ _ _ Hs E).
    unfold Py.setitem in H at 1.
    destruct (Py.index (length row) (Z.of_nat b)) as [k |] eqn:Ek; [| discriminate].
    apply index_nonneg in Ek as [_ Hk]; lia. }
  destruct (setitem2_cell rows cols m a b x Hs Ha Hb) as [m'' [E [Hs' Hc]]].
  rewrite E in H. injection H as <-. auto.
Qed.

(** A loop over [range(n)] that finished, with an invariant indexed by
    the turn. *)
Lemma for_range_finished {S} (n : nat) (I : nat -> S -> Prop)
    (body : Z -> S -> result S) (s s' : S) :
  I 0%nat s ->
  (forall k s s', (k < n)%nat -> I k s -> body (Z.of_nat k) s = Ok s' -> I (Datatypes.S k) s') ->
  Py.for_each (Py.range (Z.of_nat n)) body s = Ok s' -> I n s'.
Proof.
  intros H0 Hstep. unfold Py.range. rewrite Nat2Z.id.
  assert (G : forall len start s,
             (start + len = n)%nat -> I start s ->
             Py.for_each (map Z.of_nat (seq start len)) body s = Ok s' -> I n s').
  { induction len as [| len IH]; intros start s0 Hn Hi.
    - simpl. intros [= <-]. replace n with start by lia. exact Hi.
    - simpl. destruct (body (Z.of_nat start) s0) as [s1 |] eqn:E; [| discriminate]. simpl.
      apply IH; [lia |]. apply (Hstep start s0 s1); [lia | exact Hi | exact E]. }
  apply (G n 0%nat s); [lia | exact H0].
Qed.

(** Cell [(a, b)] of the big matrix has been overwritten once the copy
    of a block placed at [(bi, bj)], [c] columns wide, has reached row
    [i], column [k] of the block. *)
Definition copied (bi bj c i k a b : nat) : Prop :=
  (bi <= a /\ bj <= b /\ b - bj < c /\ (a - bi < i \/ (a - bi = i /\ b - bj < k)))%nat.

Definition copied_upto (rows cols bi bj c i k : nat) (blk m0 m : matrix) : Prop :=
  shaped rows cols m /\
  forall a b, cell m a b =
    if decide (copied bi bj c i k a b) then cell blk (a - bi) (b - bj) else cell m0 a b.

Lemma copied_start rows cols bi bj c blk m0 :
  shaped rows cols m0 -> copied_upto rows cols bi bj c 0 0 blk m0 m0.
Proof.
  intros Hs. split; [exact Hs |]. intros a b.
  destruct (decide _) as [H | _]; [unfold copied in H; lia | reflexivity].
Qed.

Lemma copied_next_row rows cols bi bj c i blk m0 m :
  copied_upto rows cols bi bj c i c blk m0 m ->
  copied_upto rows cols bi bj c (S i) 0 blk m0 m.
Proof.
  intros [Hs H]. split; [exact Hs |]. intros a b. rewrite (H a b).
  destruct (decide (copied bi bj c i c a b)) as [H1 | H1],
           (decide (copied bi bj c (S i) 0 a b)) as [H2 | H2];
    try reflexivity; unfold copied in *; lia.
Qed.

Lemma copied_step rows cols bi bj c i k blk m0 m m' x :
  copied_upto rows cols bi bj c i k blk m0 m -> (k < c)%nat ->
  Py.getitem2 blk (Z.of_nat i) (Z.of_nat k) = Ok x ->
  Py.setitem2 m (Z.of_nat bi + Z.of_nat i) (Z.of_nat bj + Z.of_nat k) x = Ok m' ->
  copied_upto rows cols bi bj c i (S k) blk m0 m'.
Proof.
  intros [Hs H] Hk Hx Hset. apply getitem2_ok_cell in Hx.
  rewrite <- !Nat2Z.inj_add in Hset.
  destruct (setitem2_ok_cell _ _ _ _ _ _ _ Hs Hset) as [Hs' Hc].
  split; [exact Hs' |]. intros a b. rewrite Hc.
  destruct (decide (a = (bi + i)%nat /\ b = (bj + k)%nat)) as [[-> ->] | Hne].
  - destruct (decide _) as [_ | n]; [| unfold copied in n; lia].
    replace (bi + i - bi)%nat with i by lia. replace (bj + k - bj)%nat with k by lia.
    symmetry. exact Hx.
  - rewrite (H a b).
    destruct (decide (copied bi bj c i k a b)) as [H1 | H1],
             (decide (copied bi bj c i (S k) a b)) as [H2 | H2];
      try reflexivity; unfold copied in *; lia.
Qed.

Lemma copy_block_spec rows cols bi bj (m_blk d_blk : matrix) r c
    (mm mm' : matrix * matrix) :
  shaped rows cols (fst mm) -> shaped rows cols (snd mm) ->
  copy_block (Z.of_nat bi) (Z.of_nat bj) m_blk d_blk r c mm = Ok mm' ->
  shaped rows cols (fst mm') /\ shaped rows cols (snd mm') /\
  forall a b,
    (cell (fst mm') a b =
       if decide (bi <= a < bi + r /\ bj <= b < bj + c)%nat
       then cell m_blk (a - bi) (b - bj) else cell (fst mm) a b) /\
    (cell (snd mm') a b =
       if decide (bi <= a < bi + r /\ bj <= b < bj + c)%nat
       then cell d_blk (a - bi) (b - bj) else cell (snd mm) a b).
Proof.
  intros Hm Hd H. unfold copy_block in H.
  pose (I := fun i k (s : list (list (option Z)) * list (list (option Z))) =>
               copied_upto rows cols bi bj c i k m_blk (fst mm) (fst s) /\
               copied_upto rows cols bi bj c i k d_blk (snd mm) (snd s)).
  assert (Hfin : I r 0%nat mm').
  { refine (for_range_finished r (fun i s => I i 0%nat s) _ mm mm' _ _ H).
    - split; apply copied_start; assumption.
    - intros i s s' Hi Hs Hrow.
      assert (Hend : I i c s');
        [| destruct Hend; split; apply copied_next_row; assumption].
      refine (for_range_finished c (fun k s => I i k s) _ s s' Hs _ Hrow).
      intros k [m d] t Hk [Im Id]. simpl in Im, Id. simpl fst. simpl snd.
      destruct (Py.getitem2 m_blk (Z.of_nat i) (Z.of_nat k)) as [x |] eqn:Ex;
        [| discriminate]. simpl.
      destruct (Py.setitem2 m _ _ x) as [m1 |] eqn:E1; [| discriminate]. simpl.
      destruct (Py.getitem2 d_blk (Z.of_nat i) (Z.of_nat k)) as [y |] eqn:Ey;
        [| discriminate]. simpl.
      destruct (Py.setitem2 d _ _ y) as [d1 |] eqn:E2; [| discriminate]. simpl.
      intros [= <-]. split; simpl.
      + apply (copied_step _ _ _ _ _ _ _ _ _ _ _ _ Im Hk Ex E1).
      + apply (copied_step _ _ _ _ _ _ _ _ _ _ _ _ Id Hk Ey E2). }
  destruct Hfin as [[Hs1 H1] [Hs2 H2]].
  split; [exact Hs1 |]. split; [exact Hs2 |].
  intros a b. rewrite (H1 a b), (H2 a b).
  destruct (decide (copied bi bj c r 0 a b)) as [Hc | Hc],
           (decide (bi <= a < bi + r /\ bj <= b < bj + c)%nat) as [Hr | Hr];
    try (split; reflexivity); unfold copied in *; lia.
Qed.

Definition quoted (s : string) : string :=
  String Text.DQUOTE s +:+ String Text.DQUOTE EmptyString.

(** The failures of the builder: a missing key (500), a point that
    cannot be resolved (400), an answer of the provider that is an error
    or cannot be read (502), and what [requests], [json] and the payload
    handling raise themselves. *)
Definition builder_failure (e : exn) : Prop :=
  match e with
  | HTTPException code detail =>
      code = 400 \/ code = 502 \/
      (code = 500 /\ detail = "GOOGLE_MAPS_API_KEY not set")
  | _ => True
  end.

Definition only_raises {A} (r : result A) : Prop :=
  forall e, r = Raise e -> builder_failure e.

Definition only_raisesM {A} (m : M A) : Prop :=
  forall st, only_raises (fst (m st)).

Create HintDb raises.

(** ** Subscripts out of the payload *)

(** The position a subscript designates in a sequence of [len] items. *)
Definition wrap (len : nat) (i : Z) : Z := if i <? 0 then Z.of_nat len + i else i.

Lemma index_wrap len i :
  - Z.of_nat len <= i < Z.of_nat len -> Py.index len i = Py.index len (wrap len i).
Proof.
  intros H. unfold wrap. destruct (Z.ltb_spec i 0) as [Hneg | Hpos]; [| reflexivity].
  rewrite (Py.index_in_range len (Z.of_nat len + i)) by lia.
  unfold Py.index.
  destruct (Z.leb_spec 0 i); [lia |]. simpl.
  destruct (Z.leb_spec (- Z.of_nat len) i); [| lia].
  destruct (Z.ltb_spec i 0); [| lia]. reflexivity.
Qed.

Lemma index_outside len i :
  ~ (- Z.of_nat len <= i < Z.of_nat len) -> Py.index len i = None.
Proof.
  intros H. unfold Py.index.
  destruct (Z.leb_spec 0 i), (Z.ltb_spec i (Z.of_nat len)); simpl; try lia;
    destruct (Z.leb_spec (- Z.of_nat len) i), (Z.ltb_spec i 0); simpl; try lia;
    reflexivity.
Qed.

(** X18.  The indices of an element are used as Python subscripts.  A
    negative index within the block counts from the end, so the element
    is stored in the row (or column) it designates that way and nothing
    is raised; an index outside [-len, len) raises [IndexError]. *)
Theorem element_index_wraps_or_fails
    (rows cols : nat) (m : matrix) (oi di : Z) (x : option Z) :
  shaped rows cols m ->
  (- Z.of_nat rows <= oi < Z.of_nat rows -> - Z.of_nat cols <= di < Z.of_nat cols ->
   exists m',
     store m (JInt oi) (JInt di) x = Ok m' /\
     shaped rows cols m' /\
     forall a b, cell m' a b =
       if decide (Z.of_nat a = wrap rows oi /\ Z.of_nat b = wrap cols di)
       then Some x else cell m a b) /\
  (~ (- Z.of_nat rows <= oi < Z.of_nat rows /\ - Z.of_nat cols <= di < Z.of_nat cols) ->
   store m (JInt oi) (JInt di) x = Raise IndexError).
Proof.
  intros Hs. pose proof Hs as [Hl Hr].
  assert (Hrow : forall i row, Py.getitem m i = Ok row -> length row = cols).
  { intros i row Hg. apply getitem_elem in Hg. rewrite Forall_forall in Hr. auto. }
  split.
  - intros Hoi Hdi.
    assert (E : store m (JInt oi) (JInt di) x
                = store m (JInt (wrap rows oi)) (JInt (wrap cols di)) x).
    { unfold store. simpl.
      assert (Hg : Py.getitem m oi = Py.getitem m (wrap rows oi))
        by (unfold Py.getitem; rewrite Hl, (index_wrap _ _ Hoi); reflexivity).
      rewrite Hg. destruct (Py.getitem m (wrap rows oi)) as [row |] eqn:Er; [| reflexivity].
      simpl. apply Hrow in Er.
      assert (Hset : Py.setitem row di x = Py.setitem row (wrap cols di) x)
        by (unfold Py.setitem; rewrite Er, (index_wrap _ _ Hdi); reflexivity).
      rewrite Hset. destruct (Py.setitem row (wrap cols di) x) as [row' |]; [| reflexivity].
      simpl. unfold Py.setitem. rewrite Hl, (index_wrap _ _ Hoi). reflexivity. }
    assert (Hwo : 0 <= wrap rows oi < Z.of_nat rows)
      by (unfold wrap; destruct (Z.ltb_spec oi 0); lia).
    assert (Hwd : 0 <= wrap cols di < Z.of_nat cols)
      by (unfold wrap; destruct (Z.ltb_spec di 0); lia).
    destruct (setitem2_cell rows cols m (Z.to_nat (wrap rows oi)) (Z.to_nat (wrap cols di))
                x Hs) as [m' [E' [Hs' Hc]]]; [lia | lia |].
    rewrite !Z2Nat.id in E' by lia.
    exists m'. split; [rewrite E; exact E' |]. split; [exact Hs' |].
    intros a b. rewrite Hc.
    destruct (decide (a = Z.to_nat (wrap rows oi) /\ b = Z.to_nat (wrap cols di))),
             (decide (Z.of_nat a = wrap rows oi /\ Z.of_nat b = wrap cols di));
      try reflexivity; lia.
  - intros Hout. unfold store. simpl.
    destruct (Py.getitem m oi) as [row |] eqn:Eg; simpl.
    + pose proof (Hrow _ _ Eg) as Hlen.
      assert (Hoi : - Z.of_nat rows <= oi < Z.of_nat rows).
      { destruct (decide (- Z.of_nat rows <= oi < Z.of_nat rows)) as [H | H]; [exact H |].
        unfold Py.getitem in Eg. rewrite Hl, (index_outside _ _ H) in Eg. discriminate Eg. }
      unfold Py.setitem at 1. rewrite Hlen, index_outside by tauto. reflexivity.
    + unfold Py.getitem in Eg.
      destruct (Py.index (length m) oi) as [k |]; [| congruence].
      destruct (m !! k); [discriminate Eg | congruence].
Qed.

Section World.

(** [json.loads]: [None] where it raises [JSONDecodeError]. *)
Variable json_loads : string -> option json.
(** [float(s)] and [int(s)] on text: [None] where they raise [ValueError]. *)
Variable py_float : string -> option pyfloat.
Variable py_int : string -> option Z.
(** [str(v)] *)
Variable py_str : option json -> string.
(** [hashlib.sha256(json.dumps(sig, sort_keys=True).encode()).hexdigest()] *)
Variable sha256_hexdigest : Signature -> string.
(** [os.getenv("GOOGLE_MAPS_API_KEY", "")] *)
Variable GOOGLE_MAPS_API_KEY : string.
(** The reply to a call, given how many calls the process made before. *)
Variable requests : nat -> call -> http_reply.

Definition loads (s : string) : result json :=
  match json_loads s with Some v => Ok v | None => Raise JSONDecodeError end.

Definition float_of_text (s : string) : result pyfloat :=
  match py_float s with Some x => Ok x | None => Raise ValueError end.

(** Coordinates are rationals throughout ([Point], [RouteMatrixBody]), so
    a coordinate is a finite float; text that reads as an infinity or a
    NaN is no coordinate of this model. *)
Definition finite (x : pyfloat) : result Q :=
  match x with Finite q => Ok q | _ => Raise ValueError end.

Definition int_of_text (s : string) : result Z :=
  match py_int s with Some n => Ok n | None => Raise ValueError end.

Definition _get_key : result string :=
  let k := Text.strip GOOGLE_MAPS_API_KEY in
  if String.eqb k EmptyString
  then Raise (HTTPException 500 "GOOGLE_MAPS_API_KEY not set")
  else Ok k.

Definition _cache_key (coords : list (Q * Q)) (departure_time : option string)
    (routing_pref : string) : string :=
  sha256_hexdigest
    {| sig_coords := map (fun ab => (round6 (fst ab), round6 (snd ab))) coords;
       sig_dep := departure_time;
       sig_pref := routing_pref |}.

(** One network call: logged, answered by the world. *)
Definition request (c : call) : M http_reply :=
  fun st =>
    (Ok (requests (length (calls st)) c),
     {| cache := cache st; calls := calls st ++ [c] |}).

(** [resp.raise_for_status()] raises on a 4xx or 5xx status. *)
Definition is_http_error (status : Z) : bool := (400 <=? status) && (status <? 600).

(** [float(v)] *)
Definition to_float (v : json) : result Q :=
  match v with
  | JInt n => Ok (inject_Z n)
  | JFloat q => Ok q
  | JBool b => Ok (inject_Z (Z.b2z b))
  | JStr s => let* x := float_of_text s in finite x
  | _ => Raise TypeError
  end.

(** [int(v)] *)
Definition to_int (v : json) : result Z :=
  match v with
  | JInt n => Ok n
  | JFloat q => Ok (Z.quot (Qnum q) (Z.pos (Qden q)))
  | JBool b => Ok (Z.b2z b)
  | JStr s => int_of_text s
  | _ => Raise TypeError
  end.

Definition geocode (address : string) : M (Q * Q) :=
  let! key := lift _get_key in
  let! r := request (GeocodeCall address key) in
  match r with
  | NoResponse => raise RequestsConnectionError
  | Response status text =>
      if is_http_error status then raise (RequestsHTTPError status text)
      else
        lift (let* j := loads text in
              match j with
              | JObj fields =>
                  if negb (is_str (default JNull (Dict.get fields "status")) "OK")
                     || negb (truthy (Dict.get fields "results"))
                  then Raise (HTTPException 400
                                ("Geocode failed: " +:+ address +:+ " → "
                                 +:+ py_str (Dict.get fields "status")))
                  else
                    let* results := Dict.item fields "results" in
                    let* first := first_item results in
                    let* geometry := item first "geometry" in
                    let* loc := item geometry "location" in
                    let* la := item loc "lat" in
                    let* la := to_float la in
                    let* ln := item loc "lng" in
                    let* ln := to_float ln in
                    Ok (la, ln)
              | _ => Raise AttributeError
              end)
  end.

(** [{"error"], the start of an error payload on a line of its own. *)
Definition error_prefix : string := "{" +:+ quoted "error".

(** One turn of the NDJSON loop of [_parse_route_matrix_text]. *)
Definition parse_line (line : string) (out : list json) : result (list json) :=
  let t := Text.strip line in
  if String.eqb t EmptyString || String.eqb t "[" || String.eqb t "]" || String.eqb t ","
  then Ok out
  else if Text.startswith ")]}'" t then Ok out
  else
    let t := if Text.endswith "," t then Text.drop_last t else t in
    if Text.startswith error_prefix t
    then Raise (HTTPException 502 (Text.prefix_of 400 t))
    else
      match json_loads t with
      | Some v => Ok (out ++ [v])
      | None =>
          Raise (HTTPException 502
                   ("Bad JSON line from Routes API: " +:+ Text.prefix_of 160 t))
      end.

(** [json.loads] of a text that starts with a bracket is a list or
    raises; any other value has no elements to iterate and is a
    [TypeError] here. *)
Definition _parse_route_matrix_text (txt : string) : result (list json) :=
  let s := Text.strip txt in
  if String.eqb s EmptyString then Ok []
  else if Text.startswith "[" s then
    let* data := loads s in
    match data with
    | JArr items =>
        match items with
        | JObj fields :: _ =>
            if Dict.contains fields "error"
            then Raise (HTTPException 502 (Text.prefix_of 400 s))
            else Ok items
        | _ => Ok items
        end
    | _ => Raise TypeError
    end
  else Py.for_each (Text.splitlines s) parse_line [].

(** The test of line 108. *)
Definition route_reported (fields : list (string * json)) : bool :=
  is_str (default (JStr "ROUTE_EXISTS") (Dict.get fields "condition")) "ROUTE_EXISTS"
  && Dict.contains fields "duration"
  && Dict.contains fields "distanceMeters".

(** [int(round(float(obj["duration"].rstrip("s")) / 60))], or the
    sentinel of the other branch. *)
Definition element_minutes (fields : list (string * json)) : result Z :=
  if route_reported fields then
    let* d := Dict.item fields "duration" in
    match d with
    | JStr s =>
        let* secs := float_of_text (Text.rstrip_by (Ascii.eqb "s") s) in
        py_round (truediv secs 60)
    | _ => Raise AttributeError
    end
  else Ok (10 ^ 6).

(** [int(obj["distanceMeters"])], or the sentinel of the other branch. *)
Definition element_meters (fields : list (string * json)) : result Z :=
  if route_reported fields then
    let* d := Dict.item fields "distanceMeters" in to_int d
  else Ok (10 ^ 9).

(** The body of [for obj in _parse_route_matrix_text(resp.text)]. *)
Definition store_element (obj : json) (mm : matrix * matrix)
  : result (matrix * matrix) :=
  let '(minutes, meters) := mm in
  match obj with
  | JObj fields =>
      let* oi := Dict.item fields "originIndex" in
      let* di := Dict.item fields "destinationIndex" in
      let* m := element_minutes fields in
      let* minutes := store minutes oi di (Some m) in
      let* d := element_meters fields in
      let* meters := store meters oi di (Some d) in
      Ok (minutes, meters)
  | _ => Raise TypeError
  end.

Definition empty_block (rows cols : nat) : matrix :=
  replicate rows (replicate cols None).

(** Lines 105-121: merge the elements, then fill what is still [None]. *)
Definition block_of_elements (rows cols : nat) (objs : list json)
  : result (matrix * matrix) :=
  let* mm := Py.for_each objs store_element (empty_block rows cols, empty_block rows cols) in
  fill_none mm.

(** The [body] dictionary of lines 86-93. *)
Definition route_matrix_body (origins destinations : list (Q * Q))
    (departure_time_iso : option string) (routing_pref : string) : RouteMatrixBody :=
  {| origins := origins; destinations := destinations;
     routingPreference := routing_pref;
     departureTime :=
       match departure_time_iso with
       | Some t => if String.eqb t EmptyString then None else Some t
       | None => None
       end |}.

Definition _compute_block (origins destinations : list (Q * Q))
    (departure_time_iso : option string) (routing_pref : string)
  : M (matrix * matrix) :=
  let! key := lift _get_key in
  let body := route_matrix_body origins destinations departure_time_iso routing_pref in
  let! resp := request (RouteMatrixCall key body) in
  match resp with
  | NoResponse => raise RequestsConnectionError
  | Response status text =>
      if is_http_error status
      then raise (HTTPException 502
                    ("Routes API HTTP " +:+ pretty status +:+ ": "
                     +:+ Text.prefix_of 400 text))
      else
        lift (let* objs := _parse_route_matrix_text text in
              block_of_elements (length origins) (length destinations) objs)
  end.

(** The loop of lines 133-142 for one point. *)
Definition resolve_point (require_coords : bool) (p : Point)
    (acc : list string * list (Q * Q)) : M (list string * list (Q * Q)) :=
  let '(ids, coords) := acc in
  let pid := id p in
  let ids := ids ++ [pid] in
  match lat p, lng p with
  | Some la, Some ln => ret (ids, coords ++ [(la, ln)])
  | _, _ =>
      if require_coords
      then raise (HTTPException 400
                    ("Point " +:+ pid +:+ " missing lat/lng (geocoding disabled)"))
      else
        match address p with
        | Some a =>
            if String.eqb a EmptyString
            then raise (HTTPException 400
                          ("Point " +:+ pid +:+ " missing both (lat,lng) and address"))
            else let! c := geocode a in ret (ids, coords ++ [c])
        | None =>
            raise (HTTPException 400
                     ("Point " +:+ pid +:+ " missing both (lat,lng) and address"))
        end
  end.

Definition resolve_points (points : list Point) (require_coords : bool)
  : M (list string * list (Q * Q)) :=
  for_eachM points (resolve_point require_coords) ([], []).

(** The body of the two nested [enumerate] loops, lines 154-159. *)
Definition build_block (departure_time : option string) (routing_preference : string)
    (o : Z * list (Q * Q)) (d : Z * list (Q * Q)) (mm : matrix * matrix)
  : M (matrix * matrix) :=
  let '(oi, o_block) := o in
  let '(di, d_block) := d in
  let! blk := _compute_block o_block d_block departure_time routing_preference in
  let '(m_blk, d_blk) := blk in
  let base_i := oi * Z.of_nat MAX_BLOCK in
  let base_j := di * Z.of_nat MAX_BLOCK in
  lift (copy_block base_i base_j m_blk d_blk (length o_block) (length d_block) mm).

Definition cache_store (key : string) (res : TravelMatrix) : M unit :=
  fun st => (Ok tt, {| cache := <[key := res]> (cache st); calls := calls st |}).

(** The two nested [enumerate] loops of lines 152-159. *)
Definition build_blocks (coords : list (Q * Q)) (departure_time : option string)
    (routing_preference : string) (mm : matrix * matrix) : M (matrix * matrix) :=
  for_eachM (enumerate (_chunks coords MAX_BLOCK))
    (fun o mm =>
       for_eachM (enumerate (_chunks coords MAX_BLOCK))
         (fun d mm => build_block departure_time routing_preference o d mm)
         mm)
    mm.

Definition build_matrix (points : list Point) (departure_time : option string)
    (routing_preference : string) (require_coords : bool) : M TravelMatrix :=
  let! resolved := resolve_points points require_coords in
  let '(ids, coords) := resolved in
  let key := _cache_key coords departure_time routing_preference in
  fun st =>
    match cache st !! key with
    | Some hit => (Ok hit, st)
    | None =>
        let N := length coords in
        let minutes : matrix := replicate N (replicate N (Some 0)) in
        let meters : matrix := replicate N (replicate N (Some 0)) in
        (let! mm := build_blocks coords departure_time routing_preference
                      (minutes, meters) in
         let res := {| ids := ids; minutes := fst mm; meters := snd mm |} in
         let! _ := cache_store key res in
         ret res) st
    end.

(** ** The two encodings of a provider response *)

(** A JSON object written on one line: it opens and closes with a brace
    and holds no line boundary. *)
Definition object_line (l : string) : Prop :=
  Text.first_char l = Some "{"%char /\
  Text.last_char l = Some "}"%char /\
  Text.no_linebreak l = true.

(** An [{"error": ..}] payload, as opposed to a result element. *)
Definition error_payload (v : json) : bool :=
  match v with
  | JObj fields => Dict.contains fields "error"
  | _ => false
  end.

Lemma first_char_join sep l rest c :
  Text.first_char l = Some c -> Text.first_char (Text.join sep (l :: rest)) = Some c.
Proof.
  destruct l as [| a l]; [discriminate |]. intros H.
  destruct rest; exact H.
Qed.

Lemma first_char_nonempty l c : Text.first_char l = Some c -> l <> EmptyString.
Proof. destruct l; discriminate. Qed.

Lemma parse_object_line line e out :
  object_line line ->
  Text.startswith error_prefix line = false ->
  json_loads line = Some e ->
  parse_line line out = Ok (out ++ [e]).
Proof.
  intros [Hf [Hl Hn]] Herr Hj. unfold parse_line.
  rewrite (Text.strip_id line "{" "}" Hf eq_refl Hl eq_refl).
  assert (E : String.eqb line EmptyString || String.eqb line "[" || String.eqb line "]"
              || String.eqb line "," = false).
  { destruct line as [| a line]; [discriminate |]. simpl in Hf. injection Hf as ->.
    reflexivity. }
  rewrite E.
  rewrite (Text.startswith_first _ ")" line "{" Hf) by discriminate.
  rewrite Text.endswith_char, Hl.
  change (Ascii.eqb "}" ",") with false. cbv iota.
  rewrite Herr, Hj. reflexivity.
Qed.

Lemma parse_object_lines lines elements :
  Forall2 (fun line e => object_line line /\
                         Text.startswith error_prefix line = false /\
                         json_loads line = Some e) lines elements ->
  forall out, Py.for_each lines parse_line out = Ok (out ++ elements).
Proof.
  induction 1 as [| line e lines elements [Ho [He Hj]] _ IH]; intros out.
  - simpl. rewrite app_nil_r. reflexivity.
  - simpl. rewrite (parse_object_line line e out Ho He Hj). simpl.
    rewrite IH, <- app_assoc. reflexivity.
Qed.

(** C9.  Take any collection of result elements, a text that
    [json.loads] reads as the array of them, and a text whose lines are
    the elements one object per line.  [_parse_route_matrix_text] returns
    the same list for both: the elements, in order. *)
Theorem array_and_ndjson_parse_alike
    (elements : list json) (lines : list string) (array_text ndjson_text : string) :
  Text.startswith "[" (Text.strip array_text) = true ->
  json_loads (Text.strip array_text) = Some (JArr elements) ->
  Text.strip ndjson_text = Text.join (String Text.LF EmptyString) lines ->
  Forall2 (fun line e => object_line line /\
                         Text.startswith error_prefix line = false /\
                         json_loads line = Some e) lines elements ->
  Forall (fun e => error_payload e = false) elements ->
  _parse_route_matrix_text array_text = Ok elements /\
  _parse_route_matrix_text ndjson_text = Ok elements.
Proof.
  intros Hstart Harr Hnd Hlines Hres. split.
  - unfold _parse_route_matrix_text.
    destruct (Text.strip array_text) as [| a s] eqn:Es; [discriminate |].
    simpl String.eqb. cbv iota. unfold loads. rewrite Hstart, Harr. simpl.
    destruct Hres as [| e rest He _]; [reflexivity |].
    destruct e; try reflexivity. simpl in He. rewrite He. reflexivity.
  - unfold _parse_route_matrix_text. rewrite Hnd.
    destruct Hlines as [| line e lines elements [Ho [Herr Hj]] Hrest].
    + reflexivity.
    + pose proof Ho as [Hf [Hl Hn]].
      pose proof (first_char_join (String Text.LF EmptyString) line lines _ Hf) as Hfj.
      destruct (Text.join (String Text.LF EmptyString) (line :: lines)) as [| a s] eqn:Ej;
        [discriminate |].
      simpl in Hfj. injection Hfj as ->.
      simpl String.eqb. cbv iota.
      change (Text.startswith "[" (String "{" s)) with false. cbv iota.
      rewrite <- Ej, Text.splitlines_join.
      * apply (parse_object_lines (line :: lines) (e :: elements)).
        constructor; auto.
      * constructor.
        -- split; [exact Hn | exact (first_char_nonempty _ _ Hf)].
        -- eapply Forall2_Forall_l; [exact Hrest |].
           apply Forall_forall. intros e' _ l' [[Hf' [_ Hn']] _].
           split; [exact Hn' | exact (first_char_nonempty _ _ Hf')].
Qed.

(** ** The elements of a block, as the provider's contract lists them *)

(** [(originIndex, destinationIndex, condition?, duration?, distance?)];
    the duration in seconds. *)
Record Element := {
  originIndex : Z;
  destinationIndex : Z;
  condition : option string;
  duration : option Q;
  distanceMeters : option Z
}.

(** The object [json.loads] produced carries exactly these fields; a
    duration is text such as [300s] that [float] reads once the unit is
    stripped. *)
Definition represents (fields : list (string * json)) (e : Element) : Prop :=
  Dict.get fields "originIndex" = Some (JInt (originIndex e)) /\
  Dict.get fields "destinationIndex" = Some (JInt (destinationIndex e)) /\
  Dict.get fields "condition" = JStr <$> condition e /\
  match duration e with
  | Some secs =>
      exists s, Dict.get fields "duration" = Some (JStr s) /\
                py_float (Text.rstrip_by (Ascii.eqb "s") s) = Some (Finite secs)
  | None => Dict.get fields "duration" = None
  end /\
  Dict.get fields "distanceMeters" = JInt <$> distanceMeters e.

(** The element says a route exists; one that names no condition counts
    as saying so. *)
Definition reports_route (e : Element) : bool :=
  match condition e with
  | Some c => String.eqb c "ROUTE_EXISTS"
  | None => true
  end.

(** [round(duration_seconds / 60)]: the float quotient, rounded to the
    nearest integer. *)
Definition rounded_minutes (secs : Q) : Z :=
  round_half_even (Binary64.nearest (secs / inject_Z 60)).

(** What the specification stores for an element: the rounded minutes
    and the distance of a route that exists with both figures, the
    sentinels otherwise. *)
Definition expected_minutes (e : Element) : Z :=
  match duration e, distanceMeters e with
  | Some secs, Some _ =>
      if reports_route e then rounded_minutes secs else 10 ^ 6
  | _, _ => 10 ^ 6
  end.

Definition expected_meters (e : Element) : Z :=
  match duration e, distanceMeters e with
  | Some _, Some dist => if reports_route e then dist else 10 ^ 9
  | _, _ => 10 ^ 9
  end.

Lemma rounded_minutes_nonneg secs : (0 <= secs)%Q -> 0 <= rounded_minutes secs.
Proof.
  intros H. unfold rounded_minutes.
  apply round_half_even_nonneg, Binary64.nearest_nonneg.
  unfold Qdiv. apply Qmult_le_0_compat; [exact H | discriminate].
Qed.

Definition addressed (i j : nat) (e : Element) : bool :=
  (originIndex e =? Z.of_nat i) && (destinationIndex e =? Z.of_nat j).

(** The element of the response that decides cell [(i, j)]: the last
    one addressed to it, if any. *)
Definition element_for (elements : list Element) (i j : nat) : option Element :=
  last (List.filter (addressed i j) elements).

Lemma element_for_cons e rest i j :
  element_for (e :: rest) i j =
  match element_for rest i j with
  | Some x => Some x
  | None => if addressed i j e then Some e else None
  end.
Proof.
  unfold element_for. simpl. destruct (addressed i j e).
  - rewrite last_cons. reflexivity.
  - destruct (last _); reflexivity.
Qed.

Lemma element_values fields e :
  represents fields e ->
  element_minutes fields = Ok (expected_minutes e) /\
  element_meters fields = Ok (expected_meters e).
Proof.
  intros [_ [_ [Hc [Hd Hm]]]].
  assert (Hr : route_reported fields =
               reports_route e && bool_decide (is_Some (duration e))
               && bool_decide (is_Some (distanceMeters e))).
  { unfold route_reported, reports_route, Dict.contains. rewrite Hc, Hm.
    destruct (condition e) as [c |]; simpl;
      (destruct (duration e) as [secs |]; [destruct Hd as [s [-> _]] | rewrite Hd]);
      destruct (distanceMeters e); simpl; rewrite ?andb_false_r; reflexivity. }
  unfold element_minutes, element_meters, expected_minutes, expected_meters.
  rewrite Hr. unfold Dict.item. rewrite Hm.
  destruct (duration e) as [secs |], (distanceMeters e) as [dist |];
    simpl; rewrite ?andb_false_r; try (split; reflexivity).
  destruct Hd as [s [-> Hs]].
  destruct (reports_route e); simpl; [unfold float_of_text; rewrite Hs |]; split; reflexivity.
Qed.

(** A duration that reads as an infinity or as a NaN stops the block:
    [round] raises on it. *)
Lemma nonfinite_duration_raises fields s x :
  route_reported fields = true ->
  Dict.get fields "duration" = Some (JStr s) ->
  py_float (Text.rstrip_by (Ascii.eqb "s") s) = Some x ->
  element_minutes fields =
    match x with
    | Finite secs => Ok (rounded_minutes secs)
    | Infinity _ => Raise OverflowError
    | NaN => Raise ValueError
    end.
Proof.
  intros Hr Hd Hf. unfold element_minutes, Dict.item, float_of_text.
  rewrite Hr, Hd. cbn [bind]. rewrite Hf. cbn [bind].
  destruct x; reflexivity.
Qed.

Lemma store_in_range rows cols m oi di x :
  shaped rows cols m -> 0 <= oi < Z.of_nat rows -> 0 <= di < Z.of_nat cols ->
  exists m',
    store m (JInt oi) (JInt di) x = Ok m' /\
    shaped rows cols m' /\
    forall a b, cell m' a b =
      if decide (Z.of_nat a = oi /\ Z.of_nat b = di) then Some x else cell m a b.
Proof.
  intros Hs Hoi Hdi.
  destruct (setitem2_cell rows cols m (Z.to_nat oi) (Z.to_nat di) x Hs)
    as [m' [E [Hs' Hc]]]; [lia | lia |].
  rewrite !Z2Nat.id in E by lia.
  exists m'. split; [exact E |]. split; [exact Hs' |].
  intros a b. rewrite Hc.
  destruct (decide (a = Z.to_nat oi /\ b = Z.to_nat di)),
           (decide (Z.of_nat a = oi /\ Z.of_nat b = di)); try reflexivity; lia.
Qed.

(** The element loop on well-formed elements: every cell holds what its
    last element stores, or what it held before. *)
Lemma store_elements_spec rows cols objs elements :
  Forall2 (fun obj e => exists fields, obj = JObj fields /\ represents fields e /\
             0 <= originIndex e < Z.of_nat rows /\
             0 <= destinationIndex e < Z.of_nat cols) objs elements ->
  forall m d, shaped rows cols m -> shaped rows cols d ->
  exists m' d',
    Py.for_each objs store_element (m, d) = Ok (m', d') /\
    shaped rows cols m' /\ shaped rows cols d' /\
    forall a b,
      cell m' a b = match element_for elements a b with
                    | Some e => Some (Some (expected_minutes e))
                    | None => cell m a b
                    end /\
      cell d' a b = match element_for elements a b with
                    | Some e => Some (Some (expected_meters e))
                    | None => cell d a b
                    end.
Proof.
  induction 1 as [| obj e objs elements [fields [-> [Hrep [Hoi Hdi]]]] _ IH];
    intros m d Hm Hd.
  - exists m, d. split; [reflexivity |]. split; [exact Hm |]. split; [exact Hd |].
    intros a b. split; reflexivity.
  - destruct (element_values fields e Hrep) as [Emin Emet].
    pose proof Hrep as [Hgo [Hgd _]].
    destruct (store_in_range _ _ m _ _ (Some (expected_minutes e)) Hm Hoi Hdi)
      as [m1 [E1 [Hm1 Hc1]]].
    destruct (store_in_range _ _ d _ _ (Some (expected_meters e)) Hd Hoi Hdi)
      as [d1 [E2 [Hd1 Hc2]]].
    destruct (IH m1 d1 Hm1 Hd1) as [m' [d' [E [Hm' [Hd' Hcell]]]]].
    exists m', d'. split; [| split; [exact Hm' | split; [exact Hd' |]]].
    + simpl. unfold Dict.item. rewrite Hgo, Hgd. simpl.
      rewrite Emin. simpl. rewrite E1. simpl. rewrite Emet. simpl. rewrite E2. simpl.
      exact E.
    + intros a b. destruct (Hcell a b) as [H1 H2].
      rewrite H1, H2, element_for_cons, Hc1, Hc2.
      destruct (element_for elements a b); [split; reflexivity |].
      unfold addressed.
      destruct (decide (Z.of_nat a = originIndex e /\ Z.of_nat b = destinationIndex e))
        as [[Ha Hb] | Hne].
      * rewrite <- Ha, <- Hb, !Z.eqb_refl. split; reflexivity.
      * destruct (Z.eqb_spec (originIndex e) (Z.of_nat a));
          destruct (Z.eqb_spec (destinationIndex e) (Z.of_nat b));
          simpl; try (split; reflexivity).
        exfalso. apply Hne. split; congruence.
Qed.

Lemma cell_empty_block rows cols a b :
  (a < rows)%nat -> (b < cols)%nat -> cell (empty_block rows cols) a b = Some None.
Proof. apply cell_replicate. Qed.

Lemma block_of_elements_spec rows cols objs elements :
  Forall2 (fun obj e => exists fields, obj = JObj fields /\ represents fields e /\
             0 <= originIndex e < Z.of_nat rows /\
             0 <= destinationIndex e < Z.of_nat cols) objs elements ->
  exists minutes meters,
    block_of_elements rows cols objs = Ok (minutes, meters) /\
    shaped rows cols minutes /\ shaped rows cols meters /\
    forall i j, (i < rows)%nat -> (j < cols)%nat ->
      cell minutes i j =
        Some (Some (match element_for elements i j with
                    | Some e => expected_minutes e
                    | None => 10 ^ 6
                    end)) /\
      cell meters i j =
        Some (Some (match element_for elements i j with
                    | Some e => expected_meters e
                    | None => 10 ^ 9
                    end)).
Proof.
  intros H.
  destruct (store_elements_spec rows cols objs elements H
              (empty_block rows cols) (empty_block rows cols))
    as [m1 [d1 [E1 [Hm1 [Hd1 Hc1]]]]]; try apply shaped_replicate.
  destruct (fill_none_spec rows cols m1 d1 Hm1 Hd1) as [m2 [d2 [E2 [Hm2 [Hd2 Hc2]]]]].
  exists m2, d2. split; [| split; [exact Hm2 | split; [exact Hd2 |]]].
  - unfold block_of_elements. rewrite E1. simpl. exact E2.
  - intros i j Hi Hj. destruct (Hc2 i j Hi Hj) as [-> ->].
    destruct (Hc1 i j) as [-> ->].
    rewrite (cell_empty_block _ _ _ _ Hi Hj).
    destruct (element_for elements i j); split; reflexivity.
Qed.

(** C4.  When the provider answers a block request with well-formed
    elements, [_compute_block] returns, both matrices have one cell per
    origin/destination pair and no cell is left unset: the cell of a pair
    holds [round(duration / 60)] minutes and the distance in meters when
    its (last) element reports a route with both figures, and the
    sentinels [10^6] and [10^9] when that element reports no route or
    when the response holds no element for the pair. *)
Theorem compute_block_stores_or_sentinels
    (origins destinations : list (Q * Q)) (departure_time : option string)
    (routing_pref : string) (st : state) (key : string) (status : Z) (text : string)
    (objs : list json) (elements : list Element) :
  _get_key = Ok key ->
  requests (length (calls st))
    (RouteMatrixCall key (route_matrix_body origins destinations departure_time routing_pref))
    = Response status text ->
  is_http_error status = false ->
  _parse_route_matrix_text text = Ok objs ->
  Forall2 (fun obj e => exists fields, obj = JObj fields /\ represents fields e /\
             0 <= originIndex e < Z.of_nat (length origins) /\
             0 <= destinationIndex e < Z.of_nat (length destinations)) objs elements ->
  exists minutes meters st',
    _compute_block origins destinations departure_time routing_pref st
      = (Ok (minutes, meters), st') /\
    shaped (length origins) (length destinations) minutes /\
    shaped (length origins) (length destinations) meters /\
    forall i j, (i < length origins)%nat -> (j < length destinations)%nat ->
      cell minutes i j =
        Some (Some (match element_for elements i j with
                    | Some e => expected_minutes e
                    | None => 10 ^ 6
                    end)) /\
      cell meters i j =
        Some (Some (match element_for elements i j with
                    | Some e => expected_meters e
                    | None => 10 ^ 9
                    end)).
Proof.
  intros Hkey Hreply Hstatus Hparse Hwf.
  destruct (block_of_elements_spec _ _ objs elements Hwf)
    as [minutes [meters [E [Hm [Hd Hc]]]]].
  exists minutes, meters. eexists. split; [| split; [exact Hm | split; [exact Hd | exact Hc]]].
  unfold _compute_block, bindM, lift, request. rewrite Hkey. simpl.
  rewrite Hreply, Hstatus, Hparse. simpl. rewrite E. reflexivity.
Qed.

(** ** What a computation leaves of the cache *)

(** The computation does not touch [_cache], and only adds to the calls. *)
Definition frame {A} (m : M A) : Prop :=
  forall st, cache (snd (m st)) = cache st /\
             exists new, calls (snd (m st)) = calls st ++ new.

Lemma frame_ret {A} (a : A) : frame (ret a).
Proof. intros st. split; [reflexivity |]. exists []. simpl. rewrite app_nil_r. reflexivity. Qed.

Lemma frame_raise {A} (e : exn) : frame (@raise A e).
Proof. intros st. split; [reflexivity |]. exists []. simpl. rewrite app_nil_r. reflexivity. Qed.

Lemma frame_lift {A} (r : result A) : frame (lift r).
Proof. intros st. split; [reflexivity |]. exists []. simpl. rewrite app_nil_r. reflexivity. Qed.

Lemma frame_request c : frame (request c).
Proof. intros st. split; [reflexivity |]. exists [c]. reflexivity. Qed.

Lemma frame_bind {A B} (m : M A) (k : A -> M B) :
  frame m -> (forall a, frame (k a)) -> frame (bindM m k).
Proof.
  intros Hm Hk st. unfold bindM. destruct (Hm st) as [Hc [n1 Hn1]].
  destruct (m st) as [[a | e] st1]; simpl in *.
  - destruct (Hk a st1) as [Hc2 [n2 Hn2]]. split; [congruence |].
    exists (n1 ++ n2). rewrite Hn2, Hn1, app_assoc. reflexivity.
  - split; [exact Hc |]. exists n1. exact Hn1.
Qed.

Lemma frame_for_eachM {A S} (l : list A) (body : A -> S -> M S) :
  (forall x s, frame (body x s)) -> forall s, frame (for_eachM l body s).
Proof.
  intros Hb. induction l as [| x l IH]; intros s.
  - apply frame_ret.
  - simpl. apply frame_bind; [apply Hb | exact IH].
Qed.

Lemma frame_geocode a : frame (geocode a).
Proof.
  unfold geocode. apply frame_bind; [apply frame_lift |]. intros key.
  apply frame_bind; [apply frame_request |]. intros [status text |].
  - destruct (is_http_error status); [apply frame_raise | apply frame_lift].
  - apply frame_raise.
Qed.

Lemma frame_compute_block o d dep pref : frame (_compute_block o d dep pref).
Proof.
  unfold _compute_block. apply frame_bind; [apply frame_lift |]. intros key.
  apply frame_bind; [apply frame_request |]. intros [status text |].
  - destruct (is_http_error status); [apply frame_raise | apply frame_lift].
  - apply frame_raise.
Qed.

Lemma frame_build_block dep pref o d mm : frame (build_block dep pref o d mm).
Proof.
  unfold build_block. destruct o as [oi o_block], d as [di d_block].
  apply frame_bind; [apply frame_compute_block |]. intros [m_blk d_blk].
  apply frame_lift.
Qed.

Lemma frame_resolve_point rc p acc : frame (resolve_point rc p acc).
Proof.
  unfold resolve_point. destruct acc as [ids0 coords0].
  destruct (lat p), (lng p); try apply frame_ret;
    (destruct rc; [apply frame_raise |]);
    (destruct (address p) as [a |]; [| apply frame_raise]);
    (destruct (String.eqb a EmptyString); [apply frame_raise |]);
    (apply frame_bind; [apply frame_geocode | intros c; apply frame_ret]).
Qed.

Lemma frame_resolve_points points rc : frame (resolve_points points rc).
Proof. apply frame_for_eachM. intros p acc. apply frame_resolve_point. Qed.

Lemma frame_build_blocks coords dep pref mm : frame (build_blocks coords dep pref mm).
Proof.
  unfold build_blocks. apply frame_for_eachM. intros o mm'.
  apply frame_for_eachM. intros d mm''. apply frame_build_block.
Qed.

(** ** Resolving the coordinates of the points *)

Definition needs_geocoding (p : Point) : bool :=
  match lat p, lng p with
  | Some _, Some _ => false
  | _, _ => true
  end.

(** The geocoding calls of a resolution that succeeds: one per point
    that comes without both coordinates, in order. *)
Definition geocode_calls (points : list Point) : list call :=
  flat_map (fun p =>
              if needs_geocoding p then
                match address p with
                | Some a => [GeocodeCall a (Text.strip GOOGLE_MAPS_API_KEY)]
                | None => []
                end
              else []) points.

Lemma geocode_calls_cons p points :
  geocode_calls (p :: points) = geocode_calls [p] ++ geocode_calls points.
Proof. unfold geocode_calls. simpl. rewrite app_nil_r. reflexivity. Qed.

Lemma geocode_logs_one_call a st c st' :
  geocode a st = (Ok c, st') ->
  calls st' = calls st ++ [GeocodeCall a (Text.strip GOOGLE_MAPS_API_KEY)].
Proof.
  unfold geocode, bindM, lift, request, _get_key.
  destruct (String.eqb (Text.strip GOOGLE_MAPS_API_KEY) EmptyString); [discriminate |].
  simpl.
  destruct (requests _ _) as [status text |]; [| discriminate].
  destruct (is_http_error status); [discriminate |].
  intros [= _ <-]. reflexivity.
Qed.

Lemma resolve_point_spec rc p ids0 coords0 st ids1 coords1 st1 :
  resolve_point rc p (ids0, coords0) st = (Ok (ids1, coords1), st1) ->
  ids1 = ids0 ++ [id p] /\
  length coords1 = S (length coords0) /\
  calls st1 = calls st ++ geocode_calls [p] /\
  (needs_geocoding p = false ->
   exists la ln, lat p = Some la /\ lng p = Some ln /\ coords1 = coords0 ++ [(la, ln)]).
Proof.
  unfold resolve_point, geocode_calls, needs_geocoding. simpl.
  assert (Geo : (if rc then raise (HTTPException 400
                    ("Point " +:+ id p +:+ " missing lat/lng (geocoding disabled)"))
                 else match address p with
                      | Some a =>
                          if String.eqb a EmptyString
                          then raise (HTTPException 400
                                 ("Point " +:+ id p +:+ " missing both (lat,lng) and address"))
                          else let! c := geocode a in ret (ids0 ++ [id p], coords0 ++ [c])
                      | None =>
                          raise (HTTPException 400
                                 ("Point " +:+ id p +:+ " missing both (lat,lng) and address"))
                      end) st = (Ok (ids1, coords1), st1) ->
                ids1 = ids0 ++ [id p] /\
                length coords1 = S (length coords0) /\
                calls st1 =
                  calls st ++ (match address p with
                               | Some a => [GeocodeCall a (Text.strip GOOGLE_MAPS_API_KEY)]
                               | None => []
                               end) ++ []).
  { destruct rc; [discriminate |].
    destruct (address p) as [a |]; [| discriminate].
    destruct (String.eqb a EmptyString); [discriminate |].
    unfold bindM. destruct (geocode a st) as [[c | e] st2] eqn:G; [| discriminate].
    unfold ret. intros H. injection H as H1 H2 H3. subst ids1 coords1 st1.
    rewrite length_app. simpl.
    split; [reflexivity |]. split; [lia |].
    apply (geocode_logs_one_call _ _ _ _ G). }
  destruct (lat p) as [la |], (lng p) as [ln |].
  - unfold ret. intros H. injection H as H1 H2 H3. subst ids1 coords1 st1.
    rewrite length_app, app_nil_r. simpl.
    split; [reflexivity |]. split; [lia |]. split; [reflexivity |]. eauto.
  - intros H. apply Geo in H as [H1 [H2 H3]]. repeat split; try assumption. discriminate.
  - intros H. apply Geo in H as [H1 [H2 H3]]. repeat split; try assumption. discriminate.
  - intros H. apply Geo in H as [H1 [H2 H3]]. repeat split; try assumption. discriminate.
Qed.

Lemma resolve_points_from rc points :
  forall ids0 coords0 st ids1 coords1 st1,
    for_eachM points (resolve_point rc) (ids0, coords0) st = (Ok (ids1, coords1), st1) ->
    ids1 = ids0 ++ map id points /\
    length coords1 = (length coords0 + length points)%nat /\
    calls st1 = calls st ++ geocode_calls points.
Proof.
  induction points as [| p points IH]; intros ids0 coords0 st ids1 coords1 st1.
  - simpl. unfold ret. intros H. injection H as H1 H2 H3. subst ids1 coords1 st1.
    rewrite !app_nil_r. split; [reflexivity |]. split; [lia | reflexivity].
  - change (for_eachM (p :: points) (resolve_point rc) (ids0, coords0))
      with (bindM (resolve_point rc p (ids0, coords0))
              (fun s' => for_eachM points (resolve_point rc) s')).
    unfold bindM at 1.
    destruct (resolve_point rc p (ids0, coords0) st) as [[[ids2 coords2] | e] st2] eqn:E;
      [| intros H; discriminate H].
    intros H. apply IH in H as [-> [Hlen Hcalls]].
    apply resolve_point_spec in E as [-> [Hlen2 [Hcalls2 _]]].
    split; [rewrite <- app_assoc; reflexivity |].
    split; [simpl; lia |].
    rewrite Hcalls, Hcalls2.
    rewrite (geocode_calls_cons p points), app_assoc. reflexivity.
Qed.

Lemma resolve_points_spec rc points st ids1 coords1 st1 :
  resolve_points points rc st = (Ok (ids1, coords1), st1) ->
  ids1 = map id points /\
  length coords1 = length points /\
  cache st1 = cache st /\
  calls st1 = calls st ++ geocode_calls points.
Proof.
  intros H. pose proof (frame_resolve_points points rc st) as [Hc _].
  rewrite H in Hc. simpl in Hc.
  apply resolve_points_from in H as [-> [Hlen Hcalls]]. simpl in Hlen. auto.
Qed.

(** ** The cache *)

Lemma build_matrix_hit points dep pref rc st ids1 coords st1 stored :
  resolve_points points rc st = (Ok (ids1, coords), st1) ->
  cache st !! _cache_key coords dep pref = Some stored ->
  build_matrix points dep pref rc st = (Ok stored, st1).
Proof.
  intros Hres Hhit. unfold build_matrix, bindM at 1. rewrite Hres.
  apply resolve_points_spec in Hres as [_ [_ [Hc _]]].
  rewrite Hc, Hhit. reflexivity.
Qed.

Lemma build_matrix_miss points dep pref rc st ids1 coords st1 res st' :
  resolve_points points rc st = (Ok (ids1, coords), st1) ->
  cache st !! _cache_key coords dep pref = None ->
  build_matrix points dep pref rc st = (Ok res, st') ->
  exists mm st2,
    build_blocks coords dep pref
      (replicate (length coords) (replicate (length coords) (Some 0)),
       replicate (length coords) (replicate (length coords) (Some 0))) st1
      = (Ok mm, st2) /\
    res = {| ids := ids1; minutes := fst mm; meters := snd mm |} /\
    cache st' = <[_cache_key coords dep pref := res]> (cache st) /\
    calls st' = calls st2.
Proof.
  intros Hres Hmiss. unfold build_matrix, bindM at 1. rewrite Hres.
  pose proof (resolve_points_spec _ _ _ _ _ _ Hres) as [_ [_ [Hc _]]].
  rewrite Hc, Hmiss. unfold bindM.
  pose proof (frame_build_blocks coords dep pref
                (replicate (length coords) (replicate (length coords) (Some 0)),
                 replicate (length coords) (replicate (length coords) (Some 0))) st1)
    as [Hc2 _].
  destruct (build_blocks _ _ _ _ st1) as [[mm | e] st2]; [| discriminate].
  simpl in Hc2. simpl. intros [= <- <-]. exists mm, st2.
  split; [reflexivity |]. split; [reflexivity |]. simpl.
  split; [congruence | reflexivity].
Qed.

(** Whatever a build returns is what the cache holds under its key
    afterwards. *)
Lemma build_matrix_cached points dep pref rc st ids1 coords st1 res st' :
  resolve_points points rc st = (Ok (ids1, coords), st1) ->
  build_matrix points dep pref rc st = (Ok res, st') ->
  cache st' !! _cache_key coords dep pref = Some res.
Proof.
  intros Hres Hb.
  destruct (cache st !! _cache_key coords dep pref) as [stored |] eqn:E.
  - rewrite (build_matrix_hit _ _ _ _ _ _ _ _ _ Hres E) in Hb.
    injection Hb as <- <-.
    apply resolve_points_spec in Hres as [_ [_ [-> _]]]. exact E.
  - destruct (build_matrix_miss _ _ _ _ _ _ _ _ _ _ Hres E Hb) as [mm [st2 [_ [_ [-> _]]]]].
    apply lookup_insert_eq.
Qed.

(** C5 (the code at the failing input).  Given no stop at all,
    [build_matrix] raises nothing: it returns a matrix, the empty one
    unless the cache already holds something under the key of the empty
    coordinate list, without a single network call. *)
Theorem empty_stop_list_builds_a_matrix
    (departure_time : option string) (routing_preference : string)
    (require_coords : bool) (st : state) :
  exists res st',
    build_matrix [] departure_time routing_preference require_coords st = (Ok res, st') /\
    calls st' = calls st /\
    (cache st !! _cache_key [] departure_time routing_preference = None ->
     res = {| ids := []; minutes := []; meters := [] |}).
Proof.
  unfold build_matrix, bindM, resolve_points. simpl.
  destruct (cache st !! _cache_key [] departure_time routing_preference) as [hit |] eqn:E.
  - exists hit, st. split; [reflexivity |]. split; [reflexivity | discriminate].
  - eexists. eexists. split; [reflexivity |]. split; reflexivity.
Qed.

(** C6, amended.  When the cache holds an entry under the key of the
    resolved coordinates, [build_matrix] returns that entry unchanged,
    leaves the cache as it was and sends no route-matrix request; the
    network calls it makes are the geocoding calls of the resolution,
    one per stop given without coordinates, and none when every stop
    carries its coordinates. *)
Theorem cache_hit_returns_stored_entry
    (points : list Point) (departure_time : option string)
    (routing_preference : string) (require_coords : bool)
    (st st1 : state) (ids1 : list string) (coords : list (Q * Q))
    (stored : TravelMatrix) :
  resolve_points points require_coords st = (Ok (ids1, coords), st1) ->
  cache st !! _cache_key coords departure_time routing_preference = Some stored ->
  build_matrix points departure_time routing_preference require_coords st
    = (Ok stored, st1) /\
  cache st1 = cache st /\
  calls st1 = calls st ++ geocode_calls points /\
  (forallb (fun p => negb (needs_geocoding p)) points = true -> calls st1 = calls st).
Proof.
  intros Hres Hhit.
  split; [apply (build_matrix_hit _ _ _ _ _ _ _ _ _ Hres Hhit) |].
  apply resolve_points_spec in Hres as [_ [_ [Hc Hcalls]]].
  split; [exact Hc |]. split; [exact Hcalls |].
  intros Hall. rewrite Hcalls.
  assert (E : geocode_calls points = []).
  { clear -Hall. induction points as [| p points IH]; [reflexivity |].
    simpl in Hall. apply andb_prop in Hall as [Hp Hrest].
    apply negb_true_iff in Hp.
    rewrite geocode_calls_cons, (IH Hrest). unfold geocode_calls. simpl. rewrite Hp. reflexivity. }
  rewrite E, app_nil_r. reflexivity.
Qed.

(** C7.  A build that succeeded, followed by a build whose stops resolve
    to the same coordinates, with the same departure time and routing
    preference: the second build finds the entry the first one left in
    the cache and returns exactly the value the first build returned,
    without touching the cache. *)
Theorem rebuild_returns_cached_matrix
    (points1 points2 : list Point) (departure_time : option string)
    (routing_preference : string) (rc1 rc2 : bool)
    (st0 st0' st1 st2 : state) (ids1 ids2 : list string) (coords : list (Q * Q))
    (res1 : TravelMatrix) :
  resolve_points points1 rc1 st0 = (Ok (ids1, coords), st0') ->
  build_matrix points1 departure_time routing_preference rc1 st0 = (Ok res1, st1) ->
  resolve_points points2 rc2 st1 = (Ok (ids2, coords), st2) ->
  cache st1 !! _cache_key coords departure_time routing_preference = Some res1 /\
  build_matrix points2 departure_time routing_preference rc2 st1 = (Ok res1, st2) /\
  cache st2 = cache st1.
Proof.
  intros Hres1 Hb1 Hres2.
  pose proof (build_matrix_cached _ _ _ _ _ _ _ _ _ _ Hres1 Hb1) as Hc.
  split; [exact Hc |].
  split; [apply (build_matrix_hit _ _ _ _ _ _ _ _ _ Hres2 Hc) |].
  apply resolve_points_spec in Hres2 as [_ [_ [H _]]]. exact H.
Qed.

(** C10.  The key is a function of the coordinates, the departure time
    and the routing preference alone.  So after a build that computed and
    cached a matrix, a build whose stops resolve to the same coordinates
    under other ids returns the cached entry, and the ids in it are those
    of the earlier request. *)
Theorem cache_hit_keeps_earlier_ids
    (points1 points2 : list Point) (departure_time : option string)
    (routing_preference : string) (rc1 rc2 : bool)
    (st0 st0' st1 st2 : state) (ids1 ids2 : list string) (coords : list (Q * Q))
    (res1 : TravelMatrix) :
  resolve_points points1 rc1 st0 = (Ok (ids1, coords), st0') ->
  cache st0 !! _cache_key coords departure_time routing_preference = None ->
  build_matrix points1 departure_time routing_preference rc1 st0 = (Ok res1, st1) ->
  resolve_points points2 rc2 st1 = (Ok (ids2, coords), st2) ->
  build_matrix points2 departure_time routing_preference rc2 st1 = (Ok res1, st2) /\
  ids res1 = map id points1 /\
  ids2 = map id points2.
Proof.
  intros Hres1 Hmiss Hb1 Hres2.
  pose proof (build_matrix_cached _ _ _ _ _ _ _ _ _ _ Hres1 Hb1) as Hc.
  split; [apply (build_matrix_hit _ _ _ _ _ _ _ _ _ Hres2 Hc) |].
  destruct (build_matrix_miss _ _ _ _ _ _ _ _ _ _ Hres1 Hmiss Hb1)
    as [mm [st3 [_ [-> _]]]].
  apply resolve_points_spec in Hres1 as [-> _].
  apply resolve_points_spec in Hres2 as [-> _].
  split; reflexivity.
Qed.

(** ** The shape and the entries of a built matrix *)

Lemma for_eachM_invariant {A S} (I : S -> Prop) (l : list A)
    (body : A -> S -> M S) :
  (forall x s st s' st', x ∈ l -> I s -> body x s st = (Ok s', st') -> I s') ->
  forall s st s' st', I s -> for_eachM l body s st = (Ok s', st') -> I s'.
Proof.
  induction l as [| x l IH]; intros Hstep s st s' st' Hi.
  - simpl. unfold ret. intros [= <- _]. exact Hi.
  - simpl. unfold bindM. destruct (body x s st) as [[s1 | e] st1] eqn:E;
      [| intros H; discriminate H].
    apply IH.
    + intros y t st2 t' st2' Hy. apply Hstep. right. exact Hy.
    + apply (Hstep x s st s1 st1); [left | exact Hi | exact E].
Qed.

Section Values.

(** A property of the integers a matrix may hold: of [0], of the two
    sentinels, and of whatever an element of a response yields. *)
Variable V : Z -> Prop.
Hypothesis V_zero : V 0.
Hypothesis V_no_route_minutes : V (10 ^ 6).
Hypothesis V_no_route_meters : V (10 ^ 9).

(** The cell is set, to a value with the property. *)
Definition settled (c : option Z) : Prop := exists z, c = Some z /\ V z.

(** The cell is unset, or set to a value with the property. *)
Definition unset_or_settled (c : option Z) : Prop :=
  match c with Some z => V z | None => True end.

Definition element_values_in (obj : json) : Prop :=
  forall fields, obj = JObj fields ->
    (forall v, element_minutes fields = Ok v -> V v) /\
    (forall v, element_meters fields = Ok v -> V v).

(** Every figure the provider ever reports has the property. *)
Definition provider_values : Prop :=
  forall clock key body status text objs,
    requests clock (RouteMatrixCall key body) = Response status text ->
    _parse_route_matrix_text text = Ok objs ->
    Forall element_values_in objs.

Definition entries_settled (t : TravelMatrix) : Prop :=
  Forall (Forall settled) (minutes t) /\ Forall (Forall settled) (meters t).

Lemma store_element_preserves rows cols obj (mm mm' : matrix * matrix) :
  element_values_in obj ->
  shaped rows cols (fst mm) -> shaped rows cols (snd mm) ->
  Forall (Forall unset_or_settled) (fst mm) ->
  Forall (Forall unset_or_settled) (snd mm) ->
  store_element obj mm = Ok mm' ->
  (shaped rows cols (fst mm') /\ shaped rows cols (snd mm')) /\
  (Forall (Forall unset_or_settled) (fst mm') /\
   Forall (Forall unset_or_settled) (snd mm')).
Proof.
  intros Hv Hm Hd Pm Pd. destruct mm as [m d]. simpl in *.
  destruct obj as [| | | | | | fields]; try discriminate.
  destruct (Hv fields eq_refl) as [Vmin Vmet].
  destruct (Dict.item fields "originIndex") as [oi |]; [| discriminate]. simpl.
  destruct (Dict.item fields "destinationIndex") as [di |]; [| discriminate]. simpl.
  destruct (element_minutes fields) as [v |]; [| discriminate]. simpl.
  destruct (store m oi di (Some v)) as [m1 |] eqn:E1; [| discriminate]. simpl.
  destruct (element_meters fields) as [w |]; [| discriminate]. simpl.
  destruct (store d oi di (Some w)) as [d1 |] eqn:E2; [| discriminate]. simpl.
  intros [= <-]. simpl.
  destruct (store_preserves unset_or_settled _ _ m m1 oi di (Some v) Hm Pm (Vmin v eq_refl) E1).
  destruct (store_preserves unset_or_settled _ _ d d1 oi di (Some w) Hd Pd (Vmet w eq_refl) E2).
  tauto.
Qed.

Lemma fill_settles sentinel c :
  V sentinel -> unset_or_settled c -> settled (fill_cell sentinel c).
Proof.
  intros Hs Hc. destruct c as [z |]; simpl.
  - exists z. auto.
  - exists sentinel. auto.
Qed.

Lemma block_of_elements_settled rows cols objs m d :
  Forall element_values_in objs ->
  block_of_elements rows cols objs = Ok (m, d) ->
  (shaped rows cols m /\ shaped rows cols d) /\
  (Forall (Forall settled) m /\ Forall (Forall settled) d).
Proof.
  intros Hobjs. unfold block_of_elements.
  destruct (Py.for_each objs store_element (empty_block rows cols, empty_block rows cols))
    as [[m1 d1] |] eqn:E; [| discriminate]. simpl.
  pose (I := fun mm : list (list (option Z)) * list (list (option Z)) =>
               (shaped rows cols (fst mm) /\ shaped rows cols (snd mm)) /\
               (Forall (Forall unset_or_settled) (fst mm) /\
                Forall (Forall unset_or_settled) (snd mm))).
  assert (H1 : I (m1, d1)).
  { apply (for_each_invariant I objs store_element
             (empty_block rows cols, empty_block rows cols)); [| | exact E].
    - unfold I. simpl. split; [split; apply shaped_replicate |].
      split; apply Forall_replicate, Forall_replicate; exact Logic.I.
    - intros obj s s' Hin [[Hm Hd] [Pm Pd]] Hs. rewrite Forall_forall in Hobjs.
      apply (store_element_preserves rows cols obj s s' (Hobjs _ Hin) Hm Hd Pm Pd Hs). }
  destruct H1 as [[Hm1 Hd1] [Pm1 Pd1]]. simpl in *.
  destruct (fill_none_spec rows cols m1 d1 Hm1 Hd1) as [m2 [d2 [E2 [Hm2 [Hd2 Hc]]]]].
  rewrite E2. intros [= <- <-]. split; [tauto |].
  split; (eapply forall_cells; [eassumption |]); intros a b c Hcell.
  - destruct (cell_lt _ _ _ _ _ _ Hm2 Hcell) as [Ha Hb].
    destruct (Hc a b Ha Hb) as [Hcm _]. rewrite Hcm in Hcell.
    destruct (cell m1 a b) as [c1 |] eqn:E1; [| discriminate]. injection Hcell as <-.
    apply fill_settles; [exact V_no_route_minutes |].
    apply (getitem2_forall unset_or_settled m1 (Z.of_nat a) (Z.of_nat b) c1 Pm1).
    apply (getitem2_cell _ _ _ _ _ _ Hm1 E1).
  - destruct (cell_lt _ _ _ _ _ _ Hd2 Hcell) as [Ha Hb].
    destruct (Hc a b Ha Hb) as [_ Hcd]. rewrite Hcd in Hcell.
    destruct (cell d1 a b) as [c1 |] eqn:E1; [| discriminate]. injection Hcell as <-.
    apply fill_settles; [exact V_no_route_meters |].
    apply (getitem2_forall unset_or_settled d1 (Z.of_nat a) (Z.of_nat b) c1 Pd1).
    apply (getitem2_cell _ _ _ _ _ _ Hd1 E1).
Qed.

Lemma compute_block_settled o d dep pref st m dd st' :
  provider_values ->
  _compute_block o d dep pref st = (Ok (m, dd), st') ->
  (shaped (length o) (length d) m /\ shaped (length o) (length d) dd) /\
  (Forall (Forall settled) m /\ Forall (Forall settled) dd).
Proof.
  intros Hp. unfold _compute_block, bindM, lift, request.
  destruct _get_key as [key |]; [| discriminate]. simpl.
  destruct (requests _ _) as [status text |] eqn:Er; [| discriminate].
  destruct (is_http_error status); [discriminate |].
  destruct (_parse_route_matrix_text text) as [objs |] eqn:Ep; [| discriminate]. simpl.
  intros [= H _]. apply (block_of_elements_settled _ _ objs); [| exact H].
  apply (Hp _ _ _ _ _ _ Er Ep).
Qed.

Lemma build_blocks_settled coords dep pref rows cols (mm mm' : matrix * matrix) st st' :
  provider_values ->
  shaped rows cols (fst mm) -> shaped rows cols (snd mm) ->
  Forall (Forall settled) (fst mm) -> Forall (Forall settled) (snd mm) ->
  build_blocks coords dep pref mm st = (Ok mm', st') ->
  (shaped rows cols (fst mm') /\ shaped rows cols (snd mm')) /\
  (Forall (Forall settled) (fst mm') /\ Forall (Forall settled) (snd mm')).
Proof.
  intros Hp H1 H2 H3 H4. unfold build_blocks.
  pose (I := fun mm : list (list (option Z)) * list (list (option Z)) =>
               (shaped rows cols (fst mm) /\ shaped rows cols (snd mm)) /\
               (Forall (Forall settled) (fst mm) /\ Forall (Forall settled) (snd mm))).
  apply (for_eachM_invariant I); [| unfold I; tauto].
  intros o s st1 s' st1' _ Hs. apply (for_eachM_invariant I); [| exact Hs].
  intros dblk t st2 t' st2' _ [[Hm Hd] [Pm Pd]].
  unfold build_block. destruct o as [oi o_block], dblk as [di d_block].
  unfold bindM. destruct (_compute_block o_block d_block dep pref st2)
    as [[[m_blk d_blk] | e] st3] eqn:E; [| intros H; discriminate H].
  unfold lift. intros [= H _].
  destruct (compute_block_settled _ _ _ _ _ _ _ _ Hp E) as [_ [Pmb Pdb]].
  apply (copy_block_preserves settled rows cols _ _ _ _ _ _ t t' Pmb Pdb Hm Hd Pm Pd H).
Qed.

(** A matrix for [n] stops: as many ids, [n] by [n], every entry set. *)
Definition well_built (n : nat) (t : TravelMatrix) : Prop :=
  length (ids t) = n /\
  shaped n n (minutes t) /\ shaped n n (meters t) /\
  entries_settled t.

(** Every entry of the cache sits under the key of some coordinate list
    and is a matrix for as many stops. *)
Definition cache_sound (st : state) : Prop :=
  forall k e, cache st !! k = Some e ->
    exists coords dep pref,
      k = _cache_key coords dep pref /\ well_built (length coords) e.

(** The digest tells signatures apart. *)
Definition no_collision : Prop :=
  forall s1 s2, sha256_hexdigest s1 = sha256_hexdigest s2 -> s1 = s2.

Lemma build_matrix_well_built points dep pref rc st ids1 coords st1 res st' :
  provider_values -> cache_sound st ->
  resolve_points points rc st = (Ok (ids1, coords), st1) ->
  build_matrix points dep pref rc st = (Ok res, st') ->
  cache_sound st' /\
  (cache st !! _cache_key coords dep pref = None \/ no_collision ->
   well_built (length points) res).
Proof.
  intros Hp Hcache Hres Hb.
  pose proof (resolve_points_spec _ _ _ _ _ _ Hres) as [Hids [Hlen [Hc1 _]]].
  destruct (cache st !! _cache_key coords dep pref) as [stored |] eqn:E.
  - rewrite (build_matrix_hit _ _ _ _ _ _ _ _ _ Hres E) in Hb. injection Hb as <- <-.
    split.
    + intros k e. rewrite Hc1. apply Hcache.
    + intros [H | Hinj]; [discriminate |].
      destruct (Hcache _ _ E) as [coords' [dep' [pref' [Hk Hw]]]].
      unfold _cache_key in Hk. apply Hinj in Hk. injection Hk as Hk _ _.
      apply (f_equal (@length _)) in Hk. rewrite !length_map in Hk.
      rewrite <- Hlen, Hk. exact Hw.
  - destruct (build_matrix_miss _ _ _ _ _ _ _ _ _ _ Hres E Hb)
      as [mm [st2 [Hblocks [Hr [Hc2 _]]]]].
    assert (Hw : well_built (length coords) res).
    { assert (Hinit : Forall (Forall settled)
                        (replicate (length coords) (replicate (length coords) (Some 0)))).
      { apply Forall_replicate, Forall_replicate. exists 0. auto. }
      destruct (build_blocks_settled coords dep pref (length coords) (length coords)
                  (replicate (length coords) (replicate (length coords) (Some 0)),
                   replicate (length coords) (replicate (length coords) (Some 0)))
                  mm st1 st2 Hp (shaped_replicate _ _ _) (shaped_replicate _ _ _)
                  Hinit Hinit Hblocks) as [[Hm Hd] [Pm Pd]].
      rewrite Hr. split; [simpl; rewrite Hids, length_map; congruence |].
      split; [exact Hm |]. split; [exact Hd |]. split; assumption. }
    split.
    + intros k e. rewrite Hc2. destruct (decide (k = _cache_key coords dep pref)) as [-> | Hne].
      * rewrite lookup_insert_eq. intros [= <-]. exists coords, dep, pref. auto.
      * rewrite lookup_insert_ne by congruence. apply Hcache.
    + intros _. rewrite <- Hlen. exact Hw.
Qed.

End Values.

(** The figures of a well-formed element are non-negative when the
    duration and the distance it reports are. *)
Lemma represented_values_nonneg fields e :
  represents fields e ->
  (forall secs, duration e = Some secs -> (0 <= secs)%Q) ->
  (forall dist, distanceMeters e = Some dist -> 0 <= dist) ->
  element_values_in (fun z => 0 <= z) (JObj fields).
Proof.
  intros Hrep Hsecs Hdist fields' [= <-].
  destruct (element_values fields e Hrep) as [-> ->].
  unfold expected_minutes, expected_meters.
  assert (H6 : 0 <= 10 ^ 6) by (vm_compute; discriminate).
  assert (H9 : 0 <= 10 ^ 9) by (vm_compute; discriminate).
  split; intros v [= <-];
    destruct (duration e) as [secs |], (distanceMeters e) as [dist |];
    try assumption; destruct (reports_route e); try assumption.
  - apply rounded_minutes_nonneg. apply Hsecs. reflexivity.
  - apply Hdist. reflexivity.
Qed.

(** ** Where each cell of a computed matrix comes from *)

(** The [k]-th block of [_chunks(coords, MAX_BLOCK)]. *)
Definition chunk (coords : list (Q * Q)) (k : nat) : list (Q * Q) :=
  take MAX_BLOCK (drop (k * MAX_BLOCK) coords).

Definition chunk_count (coords : list (Q * Q)) : nat :=
  (length coords + MAX_BLOCK - 1) / MAX_BLOCK.

Lemma zip_maps {A B C} (f : A -> B) (g : A -> C) (l : list A) :
  zip (map f l) (map g l) = map (fun x => (f x, g x)) l.
Proof. induction l as [| x l IH]; [reflexivity |]. simpl. rewrite IH. reflexivity. Qed.

Lemma enumerate_chunks coords :
  enumerate (_chunks coords MAX_BLOCK) =
  map (fun k => (Z.of_nat k, chunk coords k)) (seq 0 (chunk_count coords)).
Proof.
  unfold enumerate, _chunks, Py.range.
  rewrite length_map, length_seq, Nat2Z.id. apply zip_maps.
Qed.

Lemma chunk_length coords k :
  length (chunk coords k) = Nat.min MAX_BLOCK (length coords - k * MAX_BLOCK).
Proof. unfold chunk. rewrite length_take, length_drop. reflexivity. Qed.

Lemma chunk_of_index coords a :
  (a < length coords)%nat ->
  (a / MAX_BLOCK < chunk_count coords)%nat /\
  (a mod MAX_BLOCK < length (chunk coords (a / MAX_BLOCK)))%nat /\
  (a / MAX_BLOCK * MAX_BLOCK + a mod MAX_BLOCK = a)%nat.
Proof.
  intros Ha. rewrite chunk_length. unfold chunk_count, MAX_BLOCK.
  pose proof (Nat.div_mod_eq a 100) as E.
  pose proof (Nat.mod_upper_bound a 100 ltac:(lia)) as Hm.
  split; [| split; lia].
  apply Nat.Div0.div_lt_upper_bound.
  pose proof (Nat.div_mod_eq (length coords + 100 - 1) 100).
  pose proof (Nat.mod_upper_bound (length coords + 100 - 1) 100 ltac:(lia)).
  lia.
Qed.

Lemma for_seqM_finished {A S} (n : nat) (f : nat -> A) (I : nat -> S -> Prop)
    (body : A -> S -> M S) (s : S) (st : state) (s' : S) (st' : state) :
  I 0%nat s ->
  (forall k s st s' st', (k < n)%nat -> I k s ->
     body (f k) s st = (Ok s', st') -> I (Datatypes.S k) s') ->
  for_eachM (map f (seq 0 n)) body s st = (Ok s', st') -> I n s'.
Proof.
  intros H0 Hstep.
  assert (G : forall len start s st,
             (start + len = n)%nat -> I start s ->
             for_eachM (map f (seq start len)) body s st = (Ok s', st') -> I n s').
  { induction len as [| len IH]; intros start s0 st0 Hn Hi.
    - simpl. unfold ret. intros [= <- _]. replace n with start by lia. exact Hi.
    - simpl. unfold bindM.
      destruct (body (f start) s0 st0) as [[s1 | e] st1] eqn:E; [| intros H; discriminate H].
      apply IH; [lia |]. apply (Hstep start s0 st0 s1 st1); [lia | exact Hi | exact E]. }
  apply (G n 0%nat s st); [lia | exact H0].
Qed.

(** The cells of block pair [(ko, kd)] hold what some successful call of
    [_compute_block] on those two blocks returned. *)
Definition from_block (coords : list (Q * Q)) (dep : option string) (pref : string)
    (mm : matrix * matrix) (ko kd : nat) : Prop :=
  exists st m_blk d_blk st',
    _compute_block (chunk coords ko) (chunk coords kd) dep pref st
      = (Ok (m_blk, d_blk), st') /\
    forall i j, (i < length (chunk coords ko))%nat -> (j < length (chunk coords kd))%nat ->
      cell (fst mm) (ko * MAX_BLOCK + i) (kd * MAX_BLOCK + j) = cell m_blk i j /\
      cell (snd mm) (ko * MAX_BLOCK + i) (kd * MAX_BLOCK + j) = cell d_blk i j.

Lemma build_block_spec coords dep pref rows cols ko kd (mm mm' : matrix * matrix) st st' :
  shaped rows cols (fst mm) -> shaped rows cols (snd mm) ->
  build_block dep pref (Z.of_nat ko, chunk coords ko) (Z.of_nat kd, chunk coords kd) mm st
    = (Ok mm', st') ->
  (shaped rows cols (fst mm') /\ shaped rows cols (snd mm')) /\
  from_block coords dep pref mm' ko kd /\
  forall ko' kd', (ko', kd') <> (ko, kd) ->
    from_block coords dep pref mm ko' kd' -> from_block coords dep pref mm' ko' kd'.
Proof.
  intros Hm Hd. unfold build_block, bindM.
  destruct (_compute_block (chunk coords ko) (chunk coords kd) dep pref st)
    as [[[m_blk d_blk] | e] st1] eqn:E; [| intros H; discriminate H].
  unfold lift. intros [= H _]. rewrite <- !Nat2Z.inj_mul in H.
  destruct (copy_block_spec rows cols _ _ _ _ _ _ mm mm' Hm Hd H) as [Hm' [Hd' Hc]].
  split; [tauto |]. split.
  - exists st, m_blk, d_blk, st1. split; [exact E |]. intros i j Hi Hj.
    destruct (Hc (ko * MAX_BLOCK + i)%nat (kd * MAX_BLOCK + j)%nat) as [-> ->].
    destruct (decide _) as [_ | n]; [| lia].
    replace (ko * MAX_BLOCK + i - ko * MAX_BLOCK)%nat with i by lia.
    replace (kd * MAX_BLOCK + j - kd * MAX_BLOCK)%nat with j by lia.
    split; reflexivity.
  - intros ko' kd' Hne [st2 [m2 [d2 [st2' [E2 Hcells]]]]].
    exists st2, m2, d2, st2'. split; [exact E2 |]. intros i j Hi Hj.
    destruct (Hc (ko' * MAX_BLOCK + i)%nat (kd' * MAX_BLOCK + j)%nat) as [-> ->].
    destruct (decide _) as [Hin | _]; [| apply Hcells; assumption].
    exfalso. apply Hne.
    rewrite chunk_length in Hi, Hj.
    pose proof (chunk_length coords ko). pose proof (chunk_length coords kd).
    unfold MAX_BLOCK in *.
    assert (ko' = ko) by lia. assert (kd' = kd) by lia. congruence.
Qed.

Lemma build_blocks_spec coords dep pref rows cols (mm mm' : matrix * matrix) st st' :
  shaped rows cols (fst mm) -> shaped rows cols (snd mm) ->
  build_blocks coords dep pref mm st = (Ok mm', st') ->
  forall ko kd, (ko < chunk_count coords)%nat -> (kd < chunk_count coords)%nat ->
    from_block coords dep pref mm' ko kd.
Proof.
  intros Hm Hd. unfold build_blocks. rewrite enumerate_chunks.
  pose (shape := fun s : list (list (option Z)) * list (list (option Z)) =>
                   shaped rows cols (fst s) /\ shaped rows cols (snd s)).
  pose (I := fun k s =>
               shape s /\
               forall ko kd, (ko < k)%nat -> (kd < chunk_count coords)%nat ->
                 from_block coords dep pref s ko kd).
  intros H.
  assert (Hfin : I (chunk_count coords) mm').
  { refine (for_seqM_finished (chunk_count coords) _ I _ mm st mm' st' _ _ H).
    - split; [split; assumption |]. intros ko kd Hko. lia.
    - clear H. intros k s st1 s' st1' Hk [Hs Hdone] Hinner.
      pose (J := fun k' t =>
                   shape t /\
                   (forall ko kd, (ko < k)%nat -> (kd < chunk_count coords)%nat ->
                      from_block coords dep pref t ko kd) /\
                   (forall kd, (kd < k')%nat -> from_block coords dep pref t k kd)).
      assert (Hend : J (chunk_count coords) s').
      { refine (for_seqM_finished (chunk_count coords) _ J _ s st1 s' st1' _ _ Hinner).
        - split; [exact Hs |]. split; [exact Hdone |]. intros kd Hkd. lia.
        - intros k' t st2 t' st2' Hk' [[Htm Htd] [Hprev Hrow]] Hb.
          destruct (build_block_spec coords dep pref rows cols k k' t t' st2 st2' Htm Htd Hb)
            as [Hshape [Hnew Hkeep]].
          split; [exact Hshape |]. split.
          + intros ko kd Hko Hkd. apply Hkeep; [| apply Hprev; assumption].
            intros Heq. assert (ko = k) by congruence. lia.
          + intros kd Hkd. destruct (decide (kd = k')) as [-> | Hne]; [exact Hnew |].
            apply Hkeep; [| apply Hrow; lia]. intros Heq. apply Hne. congruence. }
      destruct Hend as [Hs' [Hprev Hrow]]. split; [exact Hs' |].
      intros ko kd Hko Hkd. destruct (decide (ko = k)) as [-> | Hne].
      + apply Hrow. exact Hkd.
      + apply Hprev; [lia | exact Hkd]. }
  destruct Hfin as [_ Hall]. exact Hall.
Qed.

(** On a miss, every cell of the result is the cell some successful
    [_compute_block] call returned for its pair of blocks. *)
Lemma build_matrix_cells points dep pref rc st ids1 coords st1 res st' :
  resolve_points points rc st = (Ok (ids1, coords), st1) ->
  cache st !! _cache_key coords dep pref = None ->
  build_matrix points dep pref rc st = (Ok res, st') ->
  ids res = map id points /\
  forall a b, (a < length points)%nat -> (b < length points)%nat ->
    exists st_b m_blk d_blk st_b',
      _compute_block (chunk coords (a / MAX_BLOCK)) (chunk coords (b / MAX_BLOCK))
        dep pref st_b = (Ok (m_blk, d_blk), st_b') /\
      cell (minutes res) a b = cell m_blk (a mod MAX_BLOCK) (b mod MAX_BLOCK) /\
      cell (meters res) a b = cell d_blk (a mod MAX_BLOCK) (b mod MAX_BLOCK).
Proof.
  intros Hres E Hb.
  pose proof (resolve_points_spec _ _ _ _ _ _ Hres) as [Hids [Hlen _]].
  destruct (build_matrix_miss _ _ _ _ _ _ _ _ _ _ Hres E Hb)
    as [mm [st2 [Hblocks [Hr _]]]].
  split; [rewrite Hr; exact Hids |].
  intros a b Ha Hb'. rewrite <- Hlen in Ha, Hb'.
  destruct (chunk_of_index coords a Ha) as [Hka [Hia Ea]].
  destruct (chunk_of_index coords b Hb') as [Hkb [Hib Eb]].
  destruct (build_blocks_spec coords dep pref (length coords) (length coords)
              (replicate (length coords) (replicate (length coords) (Some 0)),
               replicate (length coords) (replicate (length coords) (Some 0)))
              mm st1 st2
              (shaped_replicate _ _ _) (shaped_replicate _ _ _) Hblocks _ _ Hka Hkb)
    as [st_b [m_blk [d_blk [st_b' [Hcb Hcells]]]]].
  exists st_b, m_blk, d_blk, st_b'. split; [exact Hcb |].
  destruct (Hcells _ _ Hia Hib) as [H1 H2]. rewrite Ea, Eb in H1, H2.
  rewrite Hr. simpl. auto.
Qed.

(** ** The figures the provider reports *)

(** A JSON number that is not negative; text counts as the number [int]
    reads in it. *)
Definition nonneg_number (v : json) : Prop :=
  match v with
  | JInt n => 0 <= n
  | JFloat q => (0 <= q)%Q
  | JStr s => forall n, py_int s = Some n -> 0 <= n
  | _ => True
  end.

(** The duration and the distance an element reports are not negative. *)
Definition nonneg_figures (obj : json) : Prop :=
  forall fields, obj = JObj fields ->
    (forall s secs, Dict.get fields "duration" = Some (JStr s) ->
       py_float (Text.rstrip_by (Ascii.eqb "s") s) = Some (Finite secs) -> (0 <= secs)%Q) /\
    (forall v, Dict.get fields "distanceMeters" = Some v -> nonneg_number v).

(** No response to a matrix request reports a negative duration or a
    negative distance. *)
Definition provider_figures_nonneg : Prop :=
  forall clock key body status text objs,
    requests clock (RouteMatrixCall key body) = Response status text ->
    _parse_route_matrix_text text = Ok objs ->
    Forall nonneg_figures objs.

(** The elements of a response for a block of [rows] origins and [cols]
    destinations, as the provider's contract has them: each carries its
    two indices, within the block, and figures the code can read. *)
Definition well_formed (rows cols : nat) (objs : list json) (elements : list Element)
  : Prop :=
  Forall2 (fun obj e => exists fields, obj = JObj fields /\ represents fields e /\
             0 <= originIndex e < Z.of_nat rows /\
             0 <= destinationIndex e < Z.of_nat cols) objs elements.

Lemma nonneg_figures_values obj :
  nonneg_figures obj -> element_values_in (fun z => 0 <= z) obj.
Proof.
  intros H fields ->. destruct (H fields eq_refl) as [Hsecs Hdist].
  assert (H6 : 0 <= 10 ^ 6) by (vm_compute; discriminate).
  assert (H9 : 0 <= 10 ^ 9) by (vm_compute; discriminate).
  split; intros v.
  - unfold element_minutes. destruct (route_reported fields); [| intros [= <-]; exact H6].
    unfold Dict.item. destruct (Dict.get fields "duration") as [d |] eqn:Ed; [| discriminate].
    cbn [bind]. destruct d as [| | | | s | |]; try discriminate.
    unfold float_of_text.
    destruct (py_float _) as [[secs | neg |] |] eqn:Ef; cbn [bind]; try discriminate.
    change (py_round (truediv (Finite secs) 60)) with (Ok (rounded_minutes secs)).
    intros [= <-]. apply rounded_minutes_nonneg. apply (Hsecs s secs eq_refl Ef).
  - unfold element_meters. destruct (route_reported fields); [| intros [= <-]; exact H9].
    unfold Dict.item. destruct (Dict.get fields "distanceMeters") as [d |] eqn:Ed;
      [| discriminate].
    cbn [bind]. specialize (Hdist d eq_refl).
    destruct d as [| b | n | q | s | |]; simpl in *; try discriminate.
    + destruct b; intros [= <-]; simpl; lia.
    + intros [= <-]. exact Hdist.
    + intros [= <-]. apply Z.quot_pos; [| lia].
      unfold Qle in Hdist. simpl in Hdist. lia.
    + unfold int_of_text. destruct (py_int s) as [n |] eqn:En; [| discriminate].
      intros [= <-]. apply Hdist. reflexivity.
Qed.

Lemma figures_give_values :
  provider_figures_nonneg -> provider_values (fun z => 0 <= z).
Proof.
  intros H clock key body status text objs Er Ep.
  eapply Forall_impl; [apply (H _ _ _ _ _ _ Er Ep) |].
  intros obj. apply nonneg_figures_values.
Qed.

Lemma compute_block_inv o d dep pref st m dd st' :
  _compute_block o d dep pref st = (Ok (m, dd), st') ->
  exists key status text objs,
    _get_key = Ok key /\
    requests (length (calls st)) (RouteMatrixCall key (route_matrix_body o d dep pref))
      = Response status text /\
    is_http_error status = false /\
    _parse_route_matrix_text text = Ok objs /\
    block_of_elements (length o) (length d) objs = Ok (m, dd).
Proof.
  unfold _compute_block, bindM, lift, request.
  destruct _get_key as [key |]; [| discriminate]. simpl.
  destruct (requests _ _) as [status text |] eqn:Er; [| discriminate].
  destruct (is_http_error status) eqn:Es; [discriminate |].
  destruct (_parse_route_matrix_text text) as [objs |] eqn:Ep; [| discriminate]. simpl.
  intros [= H _]. exists key, status, text, objs. auto.
Qed.

(** Zero minutes are stored only for a route that exists, with both
    figures, whose duration rounds to zero. *)
Lemma zero_minutes_expected e :
  expected_minutes e = 0 ->
  exists secs dist,
    reports_route e = true /\ duration e = Some secs /\ distanceMeters e = Some dist /\
    rounded_minutes secs = 0.
Proof.
  assert (H6 : 10 ^ 6 <> 0) by (vm_compute; discriminate).
  unfold expected_minutes.
  destruct (duration e) as [secs |], (distanceMeters e) as [dist |];
    try (intros H; contradiction).
  destruct (reports_route e); [| intros H; contradiction].
  intros H. exists secs, dist. auto.
Qed.

(** C8, amended.  A build that returns leaves the cache holding, under
    each key, a matrix that is square for the stops of that key, with
    every entry an integer; so does the matrix it returns, for the [N]
    stops of the request, when it was computed (and also on a hit, when
    the digest separates signatures).  The entries are non-negative when
    no duration and no distance the provider reports is negative.  The
    diagonal is not forced to zero: on a miss every cell, diagonal
    included, holds what [_compute_block] returned for its pair of
    blocks, out of the provider's response to the request for that pair.
    When the elements of that response are well-formed, the cell holds
    [round(duration / 60)] minutes and the distance if the (last) element
    for its pair reports a route with both figures, and the sentinels
    [10^6] and [10^9] if that element reports no route or the response
    holds no element for the pair; so the minutes of a cell, [i] to [i]
    included, are 0 only when the provider reports for it a route whose
    duration rounds to 0 minutes. *)
Theorem built_matrix_square_and_total
    (points : list Point) (departure_time : option string)
    (routing_preference : string) (require_coords : bool)
    (st st1 st' : state) (ids1 : list string) (coords : list (Q * Q))
    (res : TravelMatrix) :
  resolve_points points require_coords st = (Ok (ids1, coords), st1) ->
  build_matrix points departure_time routing_preference require_coords st = (Ok res, st') ->
  (cache_sound (fun _ => True) st ->
   cache_sound (fun _ => True) st' /\
   (cache st !! _cache_key coords departure_time routing_preference = None \/ no_collision ->
    well_built (fun _ => True) (length points) res)) /\
  (provider_figures_nonneg -> cache_sound (fun z => 0 <= z) st ->
   cache_sound (fun z => 0 <= z) st' /\
   (cache st !! _cache_key coords departure_time routing_preference = None \/ no_collision ->
    well_built (fun z => 0 <= z) (length points) res)) /\
  (cache st !! _cache_key coords departure_time routing_preference = None ->
   ids res = map id points /\
   forall a b, (a < length points)%nat -> (b < length points)%nat ->
     exists st_b m_blk d_blk st_b' key status text objs,
       _compute_block (chunk coords (a / MAX_BLOCK)) (chunk coords (b / MAX_BLOCK))
         departure_time routing_preference st_b = (Ok (m_blk, d_blk), st_b') /\
       cell (minutes res) a b = cell m_blk (a mod MAX_BLOCK) (b mod MAX_BLOCK) /\
       cell (meters res) a b = cell d_blk (a mod MAX_BLOCK) (b mod MAX_BLOCK) /\
       requests (length (calls st_b))
         (RouteMatrixCall key
            (route_matrix_body (chunk coords (a / MAX_BLOCK)) (chunk coords (b / MAX_BLOCK))
               departure_time routing_preference))
         = Response status text /\
       _parse_route_matrix_text text = Ok objs /\
       forall elements,
         well_formed (length (chunk coords (a / MAX_BLOCK)))
           (length (chunk coords (b / MAX_BLOCK))) objs elements ->
         cell (minutes res) a b =
           Some (Some (match element_for elements (a mod MAX_BLOCK) (b mod MAX_BLOCK) with
                       | Some e => expected_minutes e
                       | None => 10 ^ 6
                       end)) /\
         cell (meters res) a b =
           Some (Some (match element_for elements (a mod MAX_BLOCK) (b mod MAX_BLOCK) with
                       | Some e => expected_meters e
                       | None => 10 ^ 9
                       end)) /\
         (cell (minutes res) a b = Some (Some 0) ->
          exists e secs dist,
            element_for elements (a mod MAX_BLOCK) (b mod MAX_BLOCK) = Some e /\
            reports_route e = true /\
            duration e = Some secs /\ distanceMeters e = Some dist /\
            rounded_minutes secs = 0)).
Proof.
  intros Hres Hb. split; [| split].
  - intros Hc.
    apply (build_matrix_well_built (fun _ => True) Logic.I Logic.I Logic.I points departure_time
             routing_preference require_coords st ids1 coords st1 res st');
      try assumption.
    intros clock key body status text objs _ _. apply Forall_forall. intros obj _ fields _.
    split; intros; exact Logic.I.
  - intros Hp Hc.
    apply (build_matrix_well_built (fun z => 0 <= z) (Z.le_refl 0)
             ltac:(vm_compute; discriminate) ltac:(vm_compute; discriminate)
             points departure_time
             routing_preference require_coords st ids1 coords st1 res st');
      try assumption.
    apply figures_give_values. exact Hp.
  - intros E.
    destruct (build_matrix_cells _ _ _ _ _ _ _ _ _ _ Hres E Hb) as [Hids Hcells].
    split; [exact Hids |].
    intros a b Ha Hb'.
    destruct (Hcells a b Ha Hb') as [st_b [m_blk [d_blk [st_b' [Hcb [Hm Hd]]]]]].
    destruct (compute_block_inv _ _ _ _ _ _ _ _ Hcb)
      as [key [status [text [objs [_ [Hreq [_ [Hparse Hblock]]]]]]]].
    exists st_b, m_blk, d_blk, st_b', key, status, text, objs.
    split; [exact Hcb |]. split; [exact Hm |]. split; [exact Hd |].
    split; [exact Hreq |]. split; [exact Hparse |].
    intros elements Hwf.
    destruct (block_of_elements_spec _ _ objs elements Hwf)
      as [m2 [d2 [E2 [_ [_ Hc2]]]]].
    rewrite Hblock in E2. injection E2 as <- <-.
    pose proof (resolve_points_spec _ _ _ _ _ _ Hres) as [_ [Hlen _]].
    rewrite <- Hlen in Ha, Hb'.
    destruct (chunk_of_index coords a Ha) as [_ [Hia _]].
    destruct (chunk_of_index coords b Hb') as [_ [Hib _]].
    destruct (Hc2 _ _ Hia Hib) as [Hvm Hvd].
    rewrite Hm, Hd. split; [exact Hvm |]. split; [exact Hvd |].
    rewrite Hvm.
    destruct (element_for elements (a mod MAX_BLOCK) (b mod MAX_BLOCK)) as [e |]; intros H.
    + assert (Hzero : expected_minutes e = 0) by congruence.
      destruct (zero_minutes_expected e Hzero) as [secs [dist H']].
      exists e, secs, dist. tauto.
    + exfalso. assert (Hzero : 10 ^ 6 = 0) by congruence.
      revert Hzero. vm_compute. discriminate.
Qed.

(** ** What the builder can raise *)

Lemma raises_ok {A} (a : A) : only_raises (Ok a).
Proof. intros e H. discriminate H. Qed.

Lemma raises_exn {A} (e : exn) : builder_failure e -> only_raises (@Raise A e).
Proof. intros He e' [= <-]. exact He. Qed.

Lemma raises_bind {A B} (r : result A) (k : A -> result B) :
  only_raises r -> (forall a, only_raises (k a)) -> only_raises (bind r k).
Proof.
  intros Hr Hk. destruct r as [a | e]; simpl; [apply Hk |].
  intros e' [= <-]. apply (Hr e eq_refl).
Qed.

Lemma raises_for_each {A S} (l : list A) (body : A -> S -> result S) :
  (forall x s, only_raises (body x s)) -> forall s, only_raises (Py.for_each l body s).
Proof.
  intros Hb. induction l as [| x l IH]; intros s; simpl.
  - apply raises_ok.
  - apply raises_bind; [apply Hb | exact IH].
Qed.

Ltac raises :=
  repeat
    match goal with
    | |- only_raises (Ok _) => apply raises_ok
    | |- only_raises (Raise _) => apply raises_exn; simpl; tauto
    | |- only_raises (bind _ _) => apply raises_bind; [| intros ?]
    | |- only_raises (Py.for_each _ _ _) => apply raises_for_each; intros ? ?
    | |- only_raises (match ?x with _ => _ end) => destruct x
    | |- only_raises _ => solve [auto with raises]
    end.

Lemma getitem_raises {A} (l : list A) i : only_raises (Py.getitem l i).
Proof. unfold Py.getitem. raises. Qed.

Lemma setitem_raises {A} (l : list A) i x : only_raises (Py.setitem l i x).
Proof. unfold Py.setitem. raises. Qed.

#[local] Hint Resolve getitem_raises setitem_raises : raises.

Lemma getitem2_raises {A} (m : list (list A)) i j : only_raises (Py.getitem2 m i j).
Proof. unfold Py.getitem2. raises. Qed.

Lemma setitem2_raises {A} (m : list (list A)) i j x : only_raises (Py.setitem2 m i j x).
Proof. unfold Py.setitem2. raises. Qed.

Lemma dict_item_raises fields k : only_raises (Dict.item fields k).
Proof. unfold Dict.item. raises. Qed.

Lemma as_index_raises v : only_raises (as_index v).
Proof. unfold as_index. raises. Qed.

#[local] Hint Resolve getitem2_raises setitem2_raises dict_item_raises as_index_raises
  : raises.

Lemma item_raises v k : only_raises (item v k).
Proof. unfold item. raises. Qed.

Lemma first_item_raises v : only_raises (first_item v).
Proof. unfold first_item. raises. Qed.

Lemma store_raises m oi di x : only_raises (store m oi di x).
Proof. unfold store. raises. Qed.

Lemma fill_at_raises m i j z : only_raises (fill_at m i j z).
Proof. unfold fill_at. raises. Qed.

#[local] Hint Resolve item_raises first_item_raises store_raises fill_at_raises : raises.

Lemma fill_none_raises mm : only_raises (fill_none mm).
Proof. unfold fill_none. raises. Qed.

Lemma copy_block_raises bi bj m d r c mm : only_raises (copy_block bi bj m d r c mm).
Proof. unfold copy_block. raises. Qed.

Lemma loads_raises t : only_raises (loads t).
Proof. unfold loads. raises. Qed.

Lemma float_of_text_raises t : only_raises (float_of_text t).
Proof. unfold float_of_text. raises. Qed.

Lemma int_of_text_raises t : only_raises (int_of_text t).
Proof. unfold int_of_text. raises. Qed.

Lemma get_key_raises : only_raises _get_key.
Proof. unfold _get_key. raises. Qed.

Lemma finite_raises x : only_raises (finite x).
Proof. unfold finite. raises. Qed.

Lemma py_round_raises x : only_raises (py_round x).
Proof. unfold py_round. raises. Qed.

#[local] Hint Resolve fill_none_raises copy_block_raises loads_raises
  float_of_text_raises int_of_text_raises get_key_raises finite_raises py_round_raises
  : raises.

Lemma to_float_raises v : only_raises (to_float v).
Proof. unfold to_float. raises. Qed.

Lemma to_int_raises v : only_raises (to_int v).
Proof. unfold to_int. raises. Qed.

#[local] Hint Resolve to_float_raises to_int_raises : raises.

Lemma parse_line_raises line out : only_raises (parse_line line out).
Proof. unfold parse_line. raises. Qed.

#[local] Hint Resolve parse_line_raises : raises.

Lemma parse_raises txt : only_raises (_parse_route_matrix_text txt).
Proof. unfold _parse_route_matrix_text. raises. Qed.

Lemma element_minutes_raises fields : only_raises (element_minutes fields).
Proof. unfold element_minutes. raises. Qed.

Lemma element_meters_raises fields : only_raises (element_meters fields).
Proof. unfold element_meters. raises. Qed.

#[local] Hint Resolve parse_raises element_minutes_raises element_meters_raises : raises.

Lemma store_element_raises obj mm : only_raises (store_element obj mm).
Proof. unfold store_element. raises. Qed.

#[local] Hint Resolve store_element_raises : raises.

Lemma block_of_elements_raises rows cols objs :
  only_raises (block_of_elements rows cols objs).
Proof. unfold block_of_elements. raises. Qed.

#[local] Hint Resolve block_of_elements_raises : raises.

Lemma raisesM_ret {A} (a : A) : only_raisesM (ret a).
Proof. intros st. apply raises_ok. Qed.

Lemma raisesM_raise {A} (e : exn) : builder_failure e -> only_raisesM (@raise A e).
Proof. intros He st. apply raises_exn. exact He. Qed.

Lemma raisesM_lift {A} (r : result A) : only_raises r -> only_raisesM (lift r).
Proof. intros Hr st. exact Hr. Qed.

Lemma raisesM_bind {A B} (m : M A) (k : A -> M B) :
  only_raisesM m -> (forall a, only_raisesM (k a)) -> only_raisesM (bindM m k).
Proof.
  intros Hm Hk st. unfold bindM. specialize (Hm st).
  destruct (m st) as [[a | e] st1]; simpl in *; [apply Hk |].
  apply raises_exn. apply (Hm e eq_refl).
Qed.

Lemma raisesM_for_eachM {A S} (l : list A) (body : A -> S -> M S) :
  (forall x s, only_raisesM (body x s)) -> forall s, only_raisesM (for_eachM l body s).
Proof.
  intros Hb. induction l as [| x l IH]; intros s; simpl.
  - apply raisesM_ret.
  - apply raisesM_bind; [apply Hb | exact IH].
Qed.

Lemma request_raises c : only_raisesM (request c).
Proof. intros st. apply raises_ok. Qed.

Lemma geocode_raises a : only_raisesM (geocode a).
Proof.
  unfold geocode. apply raisesM_bind; [apply raisesM_lift, get_key_raises |]. intros key.
  apply raisesM_bind; [apply request_raises |]. intros [status text |].
  - destruct (is_http_error status); [apply raisesM_raise; exact Logic.I |].
    apply raisesM_lift. raises.
  - apply raisesM_raise. exact Logic.I.
Qed.

Lemma compute_block_raises o d dep pref : only_raisesM (_compute_block o d dep pref).
Proof.
  unfold _compute_block. apply raisesM_bind; [apply raisesM_lift, get_key_raises |].
  intros key. apply raisesM_bind; [apply request_raises |]. intros [status text |].
  - destruct (is_http_error status); [apply raisesM_raise; simpl; tauto |].
    apply raisesM_lift. raises.
  - apply raisesM_raise. exact Logic.I.
Qed.

Lemma resolve_point_raises rc p acc : only_raisesM (resolve_point rc p acc).
Proof.
  unfold resolve_point. destruct acc as [ids0 coords0].
  destruct (lat p), (lng p); try apply raisesM_ret;
    (destruct rc; [apply raisesM_raise; simpl; tauto |]);
    (destruct (address p) as [a |]; [| apply raisesM_raise; simpl; tauto]);
    (destruct (String.eqb a EmptyString); [apply raisesM_raise; simpl; tauto |]);
    (apply raisesM_bind; [apply geocode_raises | intros c; apply raisesM_ret]).
Qed.

Lemma build_block_raises dep pref o d mm : only_raisesM (build_block dep pref o d mm).
Proof.
  unfold build_block. destruct o as [oi o_block], d as [di d_block].
  apply raisesM_bind; [apply compute_block_raises |]. intros [m_blk d_blk].
  apply raisesM_lift, copy_block_raises.
Qed.

(** Whatever [build_matrix] raises is a failure of the builder's own
    kind. *)
Lemma build_matrix_raises points dep pref rc : only_raisesM (build_matrix points dep pref rc).
Proof.
  unfold build_matrix. apply raisesM_bind.
  - apply raisesM_for_eachM. intros p acc. apply resolve_point_raises.
  - intros [ids1 coords] st.
    destruct (cache st !! _cache_key coords dep pref); [apply raises_ok |].
    apply raisesM_bind.
    + unfold build_blocks. apply raisesM_for_eachM. intros o mm.
      apply raisesM_for_eachM. intros d mm'. apply build_block_raises.
    + intros mm. apply raisesM_bind; [intros st'; apply raises_ok |].
      intros _. apply raisesM_ret.
Qed.

(** ** The blocks of a coordinate list *)

Lemma chunks_concat_upto {A} (lst : list A) (size n : nat) :
  concat (map (fun k => take size (drop (k * size) lst)) (seq 0 n)) = take (n * size) lst.
Proof.
  induction n as [| n IH]; [reflexivity |].
  rewrite seq_S, map_app, concat_app, IH. simpl. rewrite app_nil_r.
  rewrite take_take_drop. f_equal. lia.
Qed.

Lemma chunks_cover (len size : nat) :
  (0 < size)%nat -> (len <= (len + size - 1) / size * size)%nat.
Proof.
  intros Hs.
  pose proof (Nat.div_mod_eq (len + size - 1) size) as E.
  pose proof (Nat.mod_upper_bound (len + size - 1) size ltac:(lia)) as Hm.
  rewrite (Nat.mul_comm size) in E. lia.
Qed.

Lemma chunks_before_end (len size k : nat) :
  (0 < size)%nat -> (k < (len + size - 1) / size)%nat -> (k * size < len)%nat.
Proof.
  intros Hs Hk.
  pose proof (Nat.div_mod_eq (len + size - 1) size) as E.
  pose proof (Nat.mod_upper_bound (len + size - 1) size ltac:(lia)) as Hm.
  rewrite (Nat.mul_comm size) in E.
  assert (S k * size <= (len + size - 1) / size * size)%nat
    by (apply Nat.mul_le_mono_r; lia).
  simpl in *. lia.
Qed.

(** X9.  [_chunks] cuts the list into consecutive slices and loses
    nothing: glued together the slices give the list back, no slice is
    empty or longer than [size], and every slice but the last one has
    exactly [size] items. *)
Theorem chunks_partition {A} (lst : list A) (size : nat) :
  (0 < size)%nat ->
  concat (_chunks lst size) = lst /\
  forall k c, _chunks lst size !! k = Some c ->
    (0 < length c <= size)%nat /\
    (S k < length (_chunks lst size) -> length c = size)%nat.
Proof.
  intros Hs. unfold _chunks. split.
  - rewrite chunks_concat_upto. apply take_ge, chunks_cover. exact Hs.
  - intros k c Hk. rewrite list_lookup_fmap in Hk.
    destruct (seq 0 ((length lst + size - 1) / size) !! k) as [j |] eqn:E; [| discriminate].
    apply lookup_seq in E as [-> Hlt]. simpl in Hk. injection Hk as <-.
    rewrite length_take, length_drop, length_map, length_seq.
    pose proof (chunks_before_end _ _ _ Hs Hlt). split; [lia |].
    intros Hnext. pose proof (chunks_before_end _ _ _ Hs Hnext). simpl in *. lia.
Qed.

(** ** Matrices that agree cell by cell *)

Lemma shaped_ext rows cols (m m' : matrix) :
  shaped rows cols m -> shaped rows cols m' ->
  (forall a b, cell m a b = cell m' a b) -> m = m'.
Proof.
  intros [Hl Hr] [Hl' Hr'] Hc. apply list_eq. intros a.
  destruct (m !! a) as [row |] eqn:E, (m' !! a) as [row' |] eqn:E'.
  - f_equal. apply list_eq. intros b. specialize (Hc a b). unfold cell in Hc.
    rewrite E, E' in Hc. exact Hc.
  - apply lookup_lt_Some in E. apply lookup_ge_None in E'. lia.
  - apply lookup_ge_None in E. apply lookup_lt_Some in E'. lia.
  - reflexivity.
Qed.

(** ** The calls a computation adds *)

(** The computation only appends calls, each of the given kind. *)
Definition adds {A} (P : call -> Prop) (m : M A) : Prop :=
  forall st, exists new, calls (snd (m st)) = calls st ++ new /\ Forall P new.

Lemma adds_nothing {A} P (m : M A) : (forall st, snd (m st) = st) -> adds P m.
Proof.
  intros H st. exists []. rewrite H, app_nil_r. split; [reflexivity | constructor].
Qed.

Lemma adds_request P c : P c -> adds P (request c).
Proof. intros H st. exists [c]. split; [reflexivity | repeat constructor; exact H]. Qed.

Lemma adds_bind {A B} P (m : M A) (k : A -> M B) :
  adds P m -> (forall a, adds P (k a)) -> adds P (bindM m k).
Proof.
  intros Hm Hk st. unfold bindM. destruct (Hm st) as [n1 [E1 H1]].
  destruct (m st) as [[a | e] st1]; simpl in *.
  - destruct (Hk a st1) as [n2 [E2 H2]]. exists (n1 ++ n2).
    rewrite E2, E1, app_assoc. split; [reflexivity | apply Forall_app; auto].
  - exists n1. auto.
Qed.

Lemma adds_for_eachM {A S} P (l : list A) (body : A -> S -> M S) :
  (forall x s, adds P (body x s)) -> forall s, adds P (for_eachM l body s).
Proof.
  intros Hb. induction l as [| x l IH]; intros s.
  - apply adds_nothing. reflexivity.
  - simpl. apply adds_bind; [apply Hb | exact IH].
Qed.

Lemma adds_resolve_points P points rc :
  (forall a, adds P (geocode a)) -> adds P (resolve_points points rc).
Proof.
  intros Hg. apply adds_for_eachM. intros p [ids0 coords0]. unfold resolve_point.
  destruct (lat p), (lng p); try (apply adds_nothing; reflexivity);
    (destruct rc; [apply adds_nothing; reflexivity |]);
    (destruct (address p) as [a |]; [| apply adds_nothing; reflexivity]);
    (destruct (String.eqb a EmptyString); [apply adds_nothing; reflexivity |]);
    (apply adds_bind; [apply Hg | intros c; apply adds_nothing; reflexivity]).
Qed.

Lemma adds_build_blocks P coords dep pref mm :
  (forall o d, adds P (_compute_block o d dep pref)) ->
  adds P (build_blocks coords dep pref mm).
Proof.
  intros Hc. unfold build_blocks. apply adds_for_eachM. intros [oi o_block] mm1.
  apply adds_for_eachM. intros [di d_block] mm2. unfold build_block.
  apply adds_bind; [apply Hc |]. intros [m_blk d_blk]. apply adds_nothing. reflexivity.
Qed.

Lemma adds_build_matrix P points dep pref rc :
  adds P (resolve_points points rc) ->
  (forall o d, adds P (_compute_block o d dep pref)) ->
  adds P (build_matrix points dep pref rc).
Proof.
  intros Hr Hc. unfold build_matrix. apply adds_bind; [exact Hr |].
  intros [ids1 coords] st.
  destruct (cache st !! _cache_key coords dep pref) as [hit |].
  - exists []. rewrite app_nil_r. split; [reflexivity | constructor].
  - apply (adds_bind P); [apply adds_build_blocks; exact Hc |].
    intros mm st0. exists []. simpl. rewrite app_nil_r. split; [reflexivity | constructor].
Qed.

(** ** The API key *)

(** [HTTPException(status_code=500, detail="GOOGLE_MAPS_API_KEY not set")] *)
Definition key_not_set : exn := HTTPException 500 "GOOGLE_MAPS_API_KEY not set".

Lemma geocode_without_key a st :
  Text.strip GOOGLE_MAPS_API_KEY = EmptyString -> geocode a st = (Raise key_not_set, st).
Proof. intros H. unfold geocode, bindM, lift, _get_key. rewrite H. reflexivity. Qed.

Lemma compute_block_without_key o d dep pref st :
  Text.strip GOOGLE_MAPS_API_KEY = EmptyString ->
  _compute_block o d dep pref st = (Raise key_not_set, st).
Proof. intros H. unfold _compute_block, bindM, lift, _get_key. rewrite H. reflexivity. Qed.

Lemma first_block_fails coords dep pref mm st e st' :
  coords <> [] ->
  (forall o d st, _compute_block o d dep pref st = (Raise e, st' st)) ->
  build_blocks coords dep pref mm st = (Raise e, st' st).
Proof.
  intros Hne Hfail. unfold build_blocks. rewrite enumerate_chunks.
  assert (Hpos : (0 < chunk_count coords)%nat).
  { unfold chunk_count, MAX_BLOCK. destruct coords as [| c coords]; [congruence |].
    simpl length. apply Nat.div_str_pos. lia. }
  destruct (chunk_count coords) as [| n]; [lia |].
  simpl. unfold bindM at 1. unfold bindM at 1. unfold build_block, bindM.
  rewrite Hfail. reflexivity.
Qed.

(** X10.  Without an API key (the variable unset, empty or blank)
    nothing is sent: [geocode] and [_compute_block] raise the 500 error
    before any request, and a build makes no call at all; it can only
    return an entry the cache already holds, or the empty matrix of an
    empty stop list. *)
Theorem missing_key_sends_no_request :
  Text.strip GOOGLE_MAPS_API_KEY = EmptyString ->
  (forall a st, geocode a st = (Raise key_not_set, st)) /\
  (forall o d dep pref st, _compute_block o d dep pref st = (Raise key_not_set, st)) /\
  (forall points dep pref rc st,
      calls (snd (build_matrix points dep pref rc st)) = calls st /\
      forall res, fst (build_matrix points dep pref rc st) = Ok res ->
        points = [] \/ exists k, cache st !! k = Some res).
Proof.
  intros Hkey.
  split; [intros a st; apply geocode_without_key; exact Hkey |].
  split; [intros o d dep pref st; apply compute_block_without_key; exact Hkey |].
  intros points dep pref rc st. split.
  - destruct (adds_build_matrix (fun _ => False) points dep pref rc) with (st := st)
      as [new [E Hnew]].
    + apply adds_resolve_points. intros a. apply adds_nothing. intros st0.
      rewrite geocode_without_key by exact Hkey. reflexivity.
    + intros o d. apply adds_nothing. intros st0.
      rewrite compute_block_without_key by exact Hkey. reflexivity.
    + destruct new as [| c new]; [rewrite app_nil_r in E; exact E |].
      inversion Hnew as [| ? ? Hc _]. contradiction.
  - intros res. unfold build_matrix, bindM at 1.
    destruct (resolve_points points rc st) as [[[ids1 coords] | e] st1] eqn:Hres;
      [| intros H; discriminate H].
    pose proof (resolve_points_spec _ _ _ _ _ _ Hres) as [_ [Hlen [Hc _]]].
    destruct (cache st1 !! _cache_key coords dep pref) as [hit |] eqn:E.
    + simpl. intros [= <-]. right. exists (_cache_key coords dep pref).
      rewrite <- Hc. exact E.
    + destruct points as [| p points]; [intros _; left; reflexivity |].
      unfold bindM.
      rewrite (first_block_fails coords dep pref _ st1 key_not_set (fun st => st)).
      * intros H. discriminate H.
      * destruct coords; [discriminate Hlen | discriminate].
      * intros o d st0. apply compute_block_without_key. exact Hkey.
Qed.

(** X11.  With a key, [geocode] and [_compute_block] each send exactly
    one request, whatever becomes of it, carrying the key stripped of
    surrounding white space; neither touches the cache.  The block
    request names the origins and destinations it was given. *)
Theorem each_call_sends_one_request :
  Text.strip GOOGLE_MAPS_API_KEY <> EmptyString ->
  (forall a st,
      snd (geocode a st) =
      {| cache := cache st;
         calls := calls st ++ [GeocodeCall a (Text.strip GOOGLE_MAPS_API_KEY)] |}) /\
  (forall o d dep pref st,
      snd (_compute_block o d dep pref st) =
      {| cache := cache st;
         calls := calls st ++
                  [RouteMatrixCall (Text.strip GOOGLE_MAPS_API_KEY)
                     (route_matrix_body o d dep pref)] |}).
Proof.
  intros Hkey.
  assert (E : _get_key = Ok (Text.strip GOOGLE_MAPS_API_KEY)).
  { unfold _get_key. destruct (String.eqb_spec (Text.strip GOOGLE_MAPS_API_KEY) EmptyString);
      [contradiction | reflexivity]. }
  split.
  - intros a st. unfold geocode, bindM, lift, request. rewrite E. simpl.
    destruct (requests _ _) as [status text |]; [| reflexivity].
    destruct (is_http_error status); reflexivity.
  - intros o d dep pref st. unfold _compute_block, bindM, lift, request. rewrite E. simpl.
    destruct (requests _ _) as [status text |]; [| reflexivity].
    destruct (is_http_error status); reflexivity.
Qed.

(** X27.  [geocode] returns coordinates only for an answer without
    error status whose JSON says ["status": "OK"] and lists at least one
    result; what it returns is the [geometry.location] of the first
    result, the others are not looked at. *)
Theorem geocode_returns_first_result (address : string) (st : state) (la ln : Q) :
  fst (geocode address st) = Ok (la, ln) ->
  exists status text fields first others location,
    requests (length (calls st)) (GeocodeCall address (Text.strip GOOGLE_MAPS_API_KEY))
      = Response status text /\
    is_http_error status = false /\
    json_loads text = Some (JObj fields) /\
    Dict.get fields "status" = Some (JStr "OK") /\
    Dict.get fields "results" = Some (JArr (first :: others)) /\
    (let* geometry := item first "geometry" in item geometry "location") = Ok location /\
    (let* v := item location "lat" in to_float v) = Ok la /\
    (let* v := item location "lng" in to_float v) = Ok ln.
Proof.
  unfold geocode, bindM, lift, request, _get_key.
  destruct (String.eqb (Text.strip GOOGLE_MAPS_API_KEY) EmptyString); [discriminate |].
  simpl.
  destruct (requests _ _) as [status text |] eqn:Er; [| discriminate].
  destruct (is_http_error status) eqn:Es; [discriminate |]. simpl.
  unfold loads. destruct (json_loads text) as [j |] eqn:Ej; [| discriminate]. simpl.
  destruct j as [| | | | | | fields]; try discriminate.
  destruct (negb _ || negb _) eqn:Ec; [discriminate |].
  apply orb_false_elim in Ec as [E1 E2]. apply negb_false_iff in E1, E2.
  destruct (Dict.get fields "status") as [[| | | | s | |] |] eqn:Est; try discriminate E1.
  simpl in E1. apply String.eqb_eq in E1. subst s.
  unfold Dict.item at 1.
  destruct (Dict.get fields "results") as [res |] eqn:Eres; [| discriminate E2]. simpl.
  destruct res as [| | | | | l |]; try discriminate.
  destruct l as [| first others]; [discriminate |].
  change (first_item (JArr (first :: others))) with (Ok first). simpl.
  destruct (item first "geometry") as [geometry |] eqn:Eg; [| discriminate]. simpl.
  destruct (item geometry "location") as [location |] eqn:El; [| discriminate]. simpl.
  destruct (item location "lat") as [vla |] eqn:Ela; [| discriminate]. simpl.
  destruct (to_float vla) as [la' |] eqn:Efa; [| discriminate]. simpl.
  destruct (item location "lng") as [vln |] eqn:Eln; [| discriminate]. simpl.
  destruct (to_float vln) as [ln' |] eqn:Efn; [| discriminate]. simpl.
  intros [= <- <-].
  exists status, text, fields, first, others, location.
  split; [reflexivity |]. split; [exact Es |]. split; [exact Ej |].
  split; [exact Est |]. split; [exact Eres |].
  split; [rewrite Eg; exact El |].
  split; [rewrite Ela; exact Efa | rewrite Eln; exact Efn].
Qed.

(** ** Requests that never reach the provider *)

Definition is_route_matrix_call (c : call) : Prop :=
  match c with
  | RouteMatrixCall _ _ => True
  | GeocodeCall _ _ => False
  end.

Lemma for_eachM_silent {A S} (l : list A) (body : A -> S -> M S) :
  (forall x s st, snd (body x s st) = st) ->
  forall s st, snd (for_eachM l body s st) = st.
Proof.
  intros Hb. induction l as [| x l IH]; intros s st; [reflexivity |].
  simpl. unfold bindM. specialize (Hb x s st).
  destruct (body x s st) as [[s1 | e] st1]; simpl in Hb; subst st1; [apply IH | reflexivity].
Qed.

Lemma resolve_with_coords_only points st : snd (resolve_points points true st) = st.
Proof.
  apply for_eachM_silent. intros p [ids0 coords0] st0. unfold resolve_point.
  destruct (lat p), (lng p); reflexivity.
Qed.

Lemma adds_compute_block o d dep pref :
  adds is_route_matrix_call (_compute_block o d dep pref).
Proof.
  unfold _compute_block. apply adds_bind; [apply adds_nothing; reflexivity |]. intros key.
  apply adds_bind; [apply adds_request; exact Logic.I |]. intros [status text |].
  - destruct (is_http_error status); apply adds_nothing; reflexivity.
  - apply adds_nothing. reflexivity.
Qed.

(** X12.  With [require_coords] set the builder never geocodes: every
    call a build makes, whether it ends well or not, is a route-matrix
    request. *)
Theorem require_coords_never_geocodes
    (points : list Point) (departure_time : option string)
    (routing_preference : string) (st : state) :
  exists new,
    calls (snd (build_matrix points departure_time routing_preference true st))
      = calls st ++ new /\
    Forall is_route_matrix_call new.
Proof.
  apply (adds_build_matrix is_route_matrix_call).
  - apply adds_nothing. apply resolve_with_coords_only.
  - intros o d. apply adds_compute_block.
Qed.

Lemma for_eachM_app {A S} (l1 l2 : list A) (body : A -> S -> M S) s st :
  for_eachM (l1 ++ l2) body s st =
  bindM (for_eachM l1 body s) (for_eachM l2 body) st.
Proof.
  revert s st. induction l1 as [| x l1 IH]; intros s st; [reflexivity |].
  simpl. unfold bindM.
  destruct (body x s st) as [[s1 | e] st1]; [| reflexivity].
  rewrite IH. reflexivity.
Qed.

(** The [HTTPException] of line 138 or of line 142. *)
Definition rejection (require_coords : bool) (p : Point) : exn :=
  HTTPException 400
    (if require_coords
     then "Point " +:+ id p +:+ " missing lat/lng (geocoding disabled)"
     else "Point " +:+ id p +:+ " missing both (lat,lng) and address").

(** X13.  A point without both coordinates stops the build with a 400
    error that names it, when geocoding is disabled or when the point has
    no address (or an empty one).  The points before it have been
    resolved by then; nothing after it is looked at, no route-matrix
    request is sent and the cache is left alone. *)
Theorem unresolvable_point_is_rejected
    (before after : list Point) (p : Point) (departure_time : option string)
    (routing_preference : string) (require_coords : bool)
    (st st1 : state) (resolved : list string * list (Q * Q)) :
  resolve_points before require_coords st = (Ok resolved, st1) ->
  needs_geocoding p = true ->
  require_coords = true \/ address p = None \/ address p = Some EmptyString ->
  build_matrix (before ++ p :: after) departure_time routing_preference require_coords st
    = (Raise (rejection require_coords p), st1) /\
  cache st1 = cache st /\
  calls st1 = calls st ++ geocode_calls before.
Proof.
  intros Hres Hp Hwhy.
  destruct resolved as [ids0 coords0].
  pose proof (resolve_points_spec _ _ _ _ _ _ Hres) as [_ [_ [Hc Hcalls]]].
  split; [| auto].
  unfold build_matrix, bindM at 1, resolve_points.
  unfold resolve_points in Hres. rewrite for_eachM_app. unfold bindM at 1. rewrite Hres.
  change (for_eachM (p :: after) (resolve_point require_coords) (ids0, coords0) st1)
    with (bindM (resolve_point require_coords p (ids0, coords0))
            (for_eachM after (resolve_point require_coords)) st1).
  unfold bindM, resolve_point, rejection. unfold needs_geocoding in Hp.
  destruct (lat p), (lng p); try discriminate Hp;
    (destruct require_coords; [reflexivity |]);
    (destruct Hwhy as [H | [-> | ->]]; [discriminate H | reflexivity | reflexivity]).
Qed.

(** ** What a build does to the cache *)

Lemma build_matrix_cache points dep pref rc st r st' :
  build_matrix points dep pref rc st = (r, st') ->
  cache st' = cache st \/
  exists coords res,
    r = Ok res /\
    cache st !! _cache_key coords dep pref = None /\
    cache st' = <[_cache_key coords dep pref := res]> (cache st).
Proof.
  unfold build_matrix, bindM at 1.
  pose proof (frame_resolve_points points rc st) as [Hc _].
  destruct (resolve_points points rc st) as [[[ids1 coords] | e] st1]; simpl in Hc;
    [| intros [= <- <-]; left; exact Hc].
  destruct (cache st1 !! _cache_key coords dep pref) as [hit |] eqn:E;
    [intros [= <- <-]; left; exact Hc |].
  unfold bindM.
  pose proof (frame_build_blocks coords dep pref
                (replicate (length coords) (replicate (length coords) (Some 0)),
                 replicate (length coords) (replicate (length coords) (Some 0))) st1)
    as [Hc2 _].
  destruct (build_blocks _ _ _ _ st1) as [[mm | e] st2]; simpl in Hc2 |- *;
    intros [= <- <-].
  - right. eexists coords, _. split; [reflexivity |]. simpl.
    rewrite Hc2, Hc. split; [rewrite <- Hc; exact E | reflexivity].
  - left. congruence.
Qed.

(** X14.  The cache only grows.  A build never removes or replaces an
    entry; a build that raises leaves the cache as it was; a build that
    returns leaves its result in the cache under one key and every other
    key as it was. *)
Theorem cache_only_grows
    (points : list Point) (departure_time : option string)
    (routing_preference : string) (require_coords : bool) (st : state) :
  let run := build_matrix points departure_time routing_preference require_coords st in
  (forall k v, cache st !! k = Some v -> cache (snd run) !! k = Some v) /\
  (forall e, fst run = Raise e -> cache (snd run) = cache st) /\
  (forall res, fst run = Ok res ->
     exists k, cache (snd run) !! k = Some res /\
               forall k', k' <> k -> cache (snd run) !! k' = cache st !! k').
Proof.
  intros run. subst run.
  destruct (build_matrix points departure_time routing_preference require_coords st)
    as [r st'] eqn:Hrun. simpl.
  destruct (build_matrix_cache _ _ _ _ _ _ _ Hrun)
    as [Hsame | [coords [res [Hok [Hnone Hins]]]]].
  - split; [intros k v; rewrite Hsame; auto |]. split; [auto |].
    intros res ->. rewrite <- Hsame.
    destruct (resolve_points points require_coords st) as [[[ids1 coords] | e] st1] eqn:Hres.
    + exists (_cache_key coords departure_time routing_preference).
      split; [apply (build_matrix_cached _ _ _ _ _ _ _ _ _ _ Hres Hrun) | auto].
    + unfold build_matrix, bindM at 1 in Hrun. rewrite Hres in Hrun. discriminate Hrun.
  - rewrite Hins, Hok. split; [| split].
    + intros k v Hk. rewrite lookup_insert_ne; [exact Hk | congruence].
    + intros e He. discriminate He.
    + intros res' [= <-]. exists (_cache_key coords departure_time routing_preference).
      split; [apply lookup_insert_eq |].
      intros k' Hne. apply lookup_insert_ne. congruence.
Qed.

(** ** The requests of a build that computes *)

(** One request per pair of blocks, origin blocks outermost. *)
Definition block_calls (coords : list (Q * Q)) (dep : option string) (pref : string)
  : list call :=
  flat_map
    (fun o_block =>
       map (fun d_block =>
              RouteMatrixCall (Text.strip GOOGLE_MAPS_API_KEY)
                (route_matrix_body o_block d_block dep pref))
           (_chunks coords MAX_BLOCK))
    (_chunks coords MAX_BLOCK).

Lemma for_eachM_calls {A S} (f : A -> list call) (l : list A) (body : A -> S -> M S) :
  (forall x s st s' st', body x s st = (Ok s', st') -> calls st' = calls st ++ f x) ->
  forall s st s' st',
    for_eachM l body s st = (Ok s', st') -> calls st' = calls st ++ flat_map f l.
Proof.
  intros Hb. induction l as [| x l IH]; intros s st s' st'.
  - simpl. unfold ret. intros [= _ <-]. rewrite app_nil_r. reflexivity.
  - simpl. unfold bindM. destruct (body x s st) as [[s1 | e] st1] eqn:E;
      [| intros H; discriminate H].
    intros H. rewrite (IH _ _ _ _ H), (Hb _ _ _ _ _ E), app_assoc. reflexivity.
Qed.

Lemma flat_map_enumerate {A B} (f : A -> list B) (l : list A) :
  flat_map (fun x => f (snd x)) (enumerate l) = flat_map f l.
Proof.
  unfold enumerate.
  assert (G : forall (ks : list Z), (length l <= length ks)%nat ->
            flat_map (fun x => f (snd x)) (zip ks l) = flat_map f l).
  { induction l as [| x l IH]; intros ks Hk.
    - destruct ks; reflexivity.
    - destruct ks as [| k ks]; [simpl in Hk; lia |]. simpl. rewrite IH; [reflexivity |].
      simpl in Hk. lia. }
  apply G. unfold Py.range. rewrite length_map, length_seq. lia.
Qed.

Lemma compute_block_logs_one_call o d dep pref st blk st' :
  _compute_block o d dep pref st = (Ok blk, st') ->
  calls st' = calls st ++
    [RouteMatrixCall (Text.strip GOOGLE_MAPS_API_KEY) (route_matrix_body o d dep pref)].
Proof.
  unfold _compute_block, bindM, lift, request, _get_key.
  destruct (String.eqb (Text.strip GOOGLE_MAPS_API_KEY) EmptyString);
    [intros H; discriminate H |].
  simpl.
  destruct (requests _ _) as [status text |]; [| intros H; discriminate H].
  destruct (is_http_error status); [intros H; discriminate H |].
  intros [= _ <-]. reflexivity.
Qed.

Lemma build_blocks_calls coords dep pref mm st mm' st' :
  build_blocks coords dep pref mm st = (Ok mm', st') ->
  calls st' = calls st ++ block_calls coords dep pref.
Proof.
  intros H. unfold block_calls.
  rewrite <- (flat_map_enumerate
                (fun o_block =>
                   map (fun d_block =>
                          RouteMatrixCall (Text.strip GOOGLE_MAPS_API_KEY)
                            (route_matrix_body o_block d_block dep pref))
                       (_chunks coords MAX_BLOCK))).
  revert H. unfold build_blocks. apply for_eachM_calls.
  intros [oi o_block] s st1 s' st1' Hinner. simpl snd.
  replace (map (fun d_block =>
                  RouteMatrixCall (Text.strip GOOGLE_MAPS_API_KEY)
                    (route_matrix_body o_block d_block dep pref))
               (_chunks coords MAX_BLOCK))
    with (flat_map (fun d : Z * list (Q * Q) =>
                      [RouteMatrixCall (Text.strip GOOGLE_MAPS_API_KEY)
                         (route_matrix_body o_block (snd d) dep pref)])
                   (enumerate (_chunks coords MAX_BLOCK))).
  - revert Hinner. apply for_eachM_calls.
    intros [di d_block] t st2 t' st2'. unfold build_block, bindM.
    destruct (_compute_block o_block d_block dep pref st2) as [[[m_blk d_blk] | e] st3] eqn:E;
      [| intros H; discriminate H].
    unfold lift. intros [= _ <-]. apply (compute_block_logs_one_call _ _ _ _ _ _ _ E).
  - rewrite (flat_map_enumerate
               (fun d_block =>
                  [RouteMatrixCall (Text.strip GOOGLE_MAPS_API_KEY)
                     (route_matrix_body o_block d_block dep pref)])).
    clear Hinner. induction (_chunks coords MAX_BLOCK) as [| c l IH]; [reflexivity |].
    simpl. rewrite IH. reflexivity.
Qed.

Lemma block_calls_length coords dep pref :
  length (block_calls coords dep pref) = (chunk_count coords * chunk_count coords)%nat.
Proof.
  unfold block_calls.
  assert (G : forall (l1 l2 : list (list (Q * Q))),
            length (flat_map
                      (fun o_block =>
                         map (fun d_block =>
                                RouteMatrixCall (Text.strip GOOGLE_MAPS_API_KEY)
                                  (route_matrix_body o_block d_block dep pref)) l2) l1)
            = (length l1 * length l2)%nat).
  { induction l1 as [| x l1 IH]; intros l2; [reflexivity |].
    simpl. rewrite length_app, length_map, IH. reflexivity. }
  rewrite G. unfold _chunks, chunk_count. rewrite length_map, length_seq. reflexivity.
Qed.

(** X15.  A build that misses the cache and returns has sent, after the
    geocoding calls of the resolution, exactly one route-matrix request
    per pair of blocks of at most 100 stops, origin block by origin
    block: the square of the number of blocks, and nothing else. *)
Theorem miss_sends_one_request_per_block_pair
    (points : list Point) (departure_time : option string)
    (routing_preference : string) (require_coords : bool)
    (st st1 st' : state) (ids1 : list string) (coords : list (Q * Q))
    (res : TravelMatrix) :
  resolve_points points require_coords st = (Ok (ids1, coords), st1) ->
  cache st !! _cache_key coords departure_time routing_preference = None ->
  build_matrix points departure_time routing_preference require_coords st = (Ok res, st') ->
  calls st' = calls st ++ geocode_calls points
                       ++ block_calls coords departure_time routing_preference /\
  length (block_calls coords departure_time routing_preference)
    = (chunk_count coords * chunk_count coords)%nat.
Proof.
  intros Hres Hmiss Hb. split; [| apply block_calls_length].
  destruct (build_matrix_miss _ _ _ _ _ _ _ _ _ _ Hres Hmiss Hb)
    as [mm [st2 [Hblocks [_ [_ ->]]]]].
  rewrite (build_blocks_calls _ _ _ _ _ _ _ Hblocks).
  apply resolve_points_spec in Hres as [_ [_ [_ ->]]].
  rewrite app_assoc. reflexivity.
Qed.

(** ** A block as [_compute_block] returns it *)

Lemma any_provider_value : provider_values (fun _ => True).
Proof.
  intros clock key body status text objs _ _. apply Forall_forall. intros obj _ fields _.
  split; intros; exact Logic.I.
Qed.

Lemma cell_forall (P : option Z -> Prop) (m : matrix) a b c :
  Forall (Forall P) m -> cell m a b = Some c -> P c.
Proof.
  intros H. unfold cell. destruct (m !! a) as [row |] eqn:E; [| discriminate].
  intros Hb. rewrite Forall_forall in H.
  assert (Hrow : Forall P row)
    by (apply H, list_elem_of_lookup; exists a; exact E).
  rewrite Forall_forall in Hrow. apply Hrow, list_elem_of_lookup. exists b. exact Hb.
Qed.

Lemma cell_outside rows cols (m : matrix) a b :
  shaped rows cols m -> ~ (a < rows /\ b < cols)%nat -> cell m a b = None.
Proof.
  intros Hs Hout. destruct (cell m a b) as [c |] eqn:E; [| reflexivity].
  exfalso. apply Hout. apply (cell_lt _ _ _ _ _ _ Hs E).
Qed.

Lemma computed_block_shape o d dep pref st m dd st' :
  _compute_block o d dep pref st = (Ok (m, dd), st') ->
  shaped (length o) (length d) m /\ shaped (length o) (length d) dd.
Proof.
  intros H.
  apply (compute_block_settled (fun _ => True) Logic.I Logic.I _ _ _ _ _ _ _ _
           any_provider_value H).
Qed.

(** X16.  Whatever the provider's payload holds, a block that
    [_compute_block] returns has one row per origin and one column per
    destination in both matrices, and no cell is left unset: the closing
    loops put the sentinels wherever the response stored nothing. *)
Theorem computed_block_has_no_unset_cell
    (origins destinations : list (Q * Q)) (departure_time : option string)
    (routing_pref : string) (st st' : state) (minutes meters : matrix) :
  _compute_block origins destinations departure_time routing_pref st
    = (Ok (minutes, meters), st') ->
  shaped (length origins) (length destinations) minutes /\
  shaped (length origins) (length destinations) meters /\
  forall i j, (i < length origins)%nat -> (j < length destinations)%nat ->
    exists x y, cell minutes i j = Some (Some x) /\ cell meters i j = Some (Some y).
Proof.
  intros H.
  destruct (compute_block_settled (fun _ => True) Logic.I Logic.I _ _ _ _ _ _ _ _
              any_provider_value H) as [[Hm Hd] [Pm Pd]].
  split; [exact Hm |]. split; [exact Hd |].
  intros i j Hi Hj.
  destruct (cell_in_range _ _ _ _ _ Hm Hi Hj) as [c Hc].
  destruct (cell_in_range _ _ _ _ _ Hd Hi Hj) as [c' Hc'].
  destruct (cell_forall _ _ _ _ _ Pm Hc) as [x [-> _]].
  destruct (cell_forall _ _ _ _ _ Pd Hc') as [y [-> _]].
  exists x, y. auto.
Qed.

Lemma chunks_single {A} (l : list A) (size : nat) :
  (0 < length l <= size)%nat -> _chunks l size = [l].
Proof.
  intros H. unfold _chunks.
  replace ((length l + size - 1) / size)%nat with 1%nat
    by (apply (Nat.div_unique _ _ 1 (length l - 1)); lia).
  simpl. rewrite drop_0, take_ge by lia. reflexivity.
Qed.

(** X17.  For a request of at most 100 stops that misses the cache, the
    matrix a build returns is, cell for cell, what the single
    [_compute_block] call on all the coordinates, as origins and as
    destinations, returned; the zeros the matrices start with are all
    overwritten. *)
Theorem small_request_is_one_block
    (points : list Point) (departure_time : option string)
    (routing_preference : string) (require_coords : bool)
    (st st1 st' : state) (ids1 : list string) (coords : list (Q * Q))
    (res : TravelMatrix) :
  (0 < length points <= MAX_BLOCK)%nat ->
  resolve_points points require_coords st = (Ok (ids1, coords), st1) ->
  cache st !! _cache_key coords departure_time routing_preference = None ->
  build_matrix points departure_time routing_preference require_coords st = (Ok res, st') ->
  exists st2,
    _compute_block coords coords departure_time routing_preference st1
      = (Ok (minutes res, meters res), st2) /\
    calls st' = calls st2 /\
    ids res = map id points.
Proof.
  intros Hn Hres Hmiss Hb.
  pose proof (resolve_points_spec _ _ _ _ _ _ Hres) as [Hids [Hlen _]].
  destruct (build_matrix_miss _ _ _ _ _ _ _ _ _ _ Hres Hmiss Hb)
    as [mm [st2 [Hblocks [-> [_ Hcalls]]]]].
  unfold build_blocks in Hblocks.
  rewrite chunks_single in Hblocks by (rewrite Hlen; exact Hn).
  change (enumerate [coords]) with [(0, coords)] in Hblocks.
  simpl in Hblocks. unfold bindM at 1 2 in Hblocks. unfold build_block, bindM in Hblocks.
  destruct (_compute_block coords coords departure_time routing_preference st1)
    as [[[m_blk d_blk] | e] st3] eqn:E; [| discriminate Hblocks].
  unfold lift in Hblocks.
  change (0 * Z.of_nat MAX_BLOCK) with (Z.of_nat 0) in Hblocks.
  destruct (copy_block (Z.of_nat 0) (Z.of_nat 0) m_blk d_blk (length coords) (length coords) _)
    as [mm1 |] eqn:Ec; [| discriminate Hblocks].
  unfold ret in Hblocks. injection Hblocks as -> ->.
  destruct (computed_block_shape _ _ _ _ _ _ _ _ E) as [Hm Hd].
  destruct (copy_block_spec (length coords) (length coords) _ _ _ _ _ _
              (replicate (length coords) (replicate (length coords) (Some 0)),
               replicate (length coords) (replicate (length coords) (Some 0))) mm
              (shaped_replicate _ _ _) (shaped_replicate _ _ _) Ec) as [Hm' [Hd' Hc]].
  assert (Em : fst mm = m_blk).
  { apply (shaped_ext _ _ _ _ Hm' Hm). intros a b. destruct (Hc a b) as [-> _].
    destruct (decide _) as [_ | Hout]; [rewrite !Nat.sub_0_r; reflexivity |].
    simpl. rewrite (cell_outside _ _ _ a b (shaped_replicate _ _ _)) by lia.
    symmetry. apply (cell_outside _ _ _ a b Hm). lia. }
  assert (Ed : snd mm = d_blk).
  { apply (shaped_ext _ _ _ _ Hd' Hd). intros a b. destruct (Hc a b) as [_ ->].
    destruct (decide _) as [_ | Hout]; [rewrite !Nat.sub_0_r; reflexivity |].
    simpl. rewrite (cell_outside _ _ _ a b (shaped_replicate _ _ _)) by lia.
    symmetry. apply (cell_outside _ _ _ a b Hd). lia. }
  exists st2. simpl. rewrite Em, Ed. auto.
Qed.

(** ** Responses that cannot be read *)

Lemma parse_line_failure line out e :
  parse_line line out = Raise e -> exists detail, e = HTTPException 502 detail.
Proof.
  unfold parse_line.
  destruct (_ || _); [discriminate |].
  destruct (Text.startswith ")]}'" _); [discriminate |].
  destruct (Text.startswith error_prefix _); [intros [= <-]; eauto |].
  destruct (json_loads _); [discriminate | intros [= <-]; eauto].
Qed.

Lemma parse_lines_failure lines out e :
  Py.for_each lines parse_line out = Raise e -> exists detail, e = HTTPException 502 detail.
Proof.
  revert out. induction lines as [| line lines IH]; intros out; [discriminate |].
  simpl. destruct (parse_line line out) as [out' |] eqn:E; simpl.
  - apply IH.
  - intros [= <-]. apply (parse_line_failure _ _ _ E).
Qed.

(** X19.  The two encodings fail differently.  Whatever goes wrong in a
    response read line by line (an error payload on a line, a line that
    is not JSON) is reported as [HTTPException] 502; a response that
    opens as an array and is not JSON raises [json.JSONDecodeError]
    itself, and an array whose first element carries an ["error"] key is
    a 502 with the first 400 characters of the text. *)
Theorem parse_failures_by_encoding :
  (forall txt e,
      Text.startswith "[" (Text.strip txt) = false ->
      _parse_route_matrix_text txt = Raise e ->
      exists detail, e = HTTPException 502 detail) /\
  (forall txt,
      Text.startswith "[" (Text.strip txt) = true ->
      json_loads (Text.strip txt) = None ->
      _parse_route_matrix_text txt = Raise JSONDecodeError) /\
  (forall txt fields rest,
      Text.startswith "[" (Text.strip txt) = true ->
      json_loads (Text.strip txt) = Some (JArr (JObj fields :: rest)) ->
      Dict.contains fields "error" = true ->
      _parse_route_matrix_text txt
      = Raise (HTTPException 502 (Text.prefix_of 400 (Text.strip txt)))).
Proof.
  split; [| split].
  - intros txt e Hstart. unfold _parse_route_matrix_text.
    destruct (String.eqb (Text.strip txt) EmptyString); [discriminate |].
    rewrite Hstart. apply parse_lines_failure.
  - intros txt Hstart Hj. unfold _parse_route_matrix_text, loads.
    destruct (Text.strip txt) as [| c s]; [discriminate Hstart |].
    simpl String.eqb. cbv iota. rewrite Hstart, Hj. reflexivity.
  - intros txt fields rest Hstart Hj Herr. unfold _parse_route_matrix_text, loads.
    destruct (Text.strip txt) as [| c s]; [discriminate Hstart |].
    simpl String.eqb. cbv iota. rewrite Hstart, Hj. simpl. rewrite Herr. reflexivity.
Qed.

(** ** Lines between the elements *)

(** The tests of lines 62-65: a line the loop passes over. *)
Definition skipped (line : string) : bool :=
  let t := Text.strip line in
  String.eqb t EmptyString || String.eqb t "[" || String.eqb t "]" || String.eqb t ","
  || Text.startswith ")]}'" t.

(** What a line of the stream contributes: nothing, or the element
    written on it, with or without a comma after it. *)
Inductive line_yields : string -> option json -> Prop :=
| yields_nothing l : skipped l = true -> line_yields l None
| yields_element l e :
    object_line l -> Text.startswith error_prefix l = false -> json_loads l = Some e ->
    line_yields l (Some e)
| yields_element_comma l e :
    object_line l -> Text.startswith error_prefix l = false -> json_loads l = Some e ->
    line_yields (l +:+ ",") (Some e).

(** The elements among what the lines contribute. *)
Definition yielded (items : list (option json)) : list json :=
  omap (fun item => item) items.

Lemma last_char_snoc l c : Text.last_char (l +:+ String c EmptyString) = Some c.
Proof.
  induction l as [| a l IH]; [reflexivity |].
  change (String a l +:+ String c EmptyString) with (String a (l +:+ String c EmptyString)).
  rewrite Text.last_char_cons; [exact IH |]. destruct l; discriminate.
Qed.

Lemma drop_last_snoc l c : Text.drop_last (l +:+ String c EmptyString) = l.
Proof.
  induction l as [| a l IH]; [reflexivity |].
  change (String a l +:+ String c EmptyString) with (String a (l +:+ String c EmptyString)).
  simpl. rewrite IH. destruct l; reflexivity.
Qed.

Lemma parse_skipped_line line out : skipped line = true -> parse_line line out = Ok out.
Proof.
  unfold skipped, parse_line. intros H. apply orb_prop in H as [-> | H]; [reflexivity |].
  rewrite H. destruct (_ || _); reflexivity.
Qed.

Lemma parse_object_line_comma l e out :
  object_line l ->
  Text.startswith error_prefix l = false ->
  json_loads l = Some e ->
  parse_line (l +:+ ",") out = Ok (out ++ [e]).
Proof.
  intros [Hf [Hl Hn]] Herr Hj. unfold parse_line.
  destruct l as [| a l]; [discriminate Hf |]. simpl in Hf. injection Hf as ->.
  rewrite (Text.strip_id (String "{" l +:+ ",") "{" ",");
    [| reflexivity | reflexivity | apply last_char_snoc | reflexivity].
  change (String "{" l +:+ ",") with (String "{" (l +:+ ",")) at 1 2 3 4 5.
  cbn [String.eqb Ascii.eqb Bool.eqb orb andb Text.startswith].
  rewrite Text.endswith_char, last_char_snoc. cbn [Ascii.eqb Bool.eqb andb].
  rewrite drop_last_snoc, Herr, Hj. reflexivity.
Qed.

Lemma parse_yielding_lines lines items :
  Forall2 line_yields lines items ->
  forall out, Py.for_each lines parse_line out = Ok (out ++ yielded items).
Proof.
  induction 1 as [| line item lines items Hy _ IH]; intros out.
  - simpl. rewrite app_nil_r. reflexivity.
  - simpl. destruct Hy as [l Hs | l e Ho He Hj | l e Ho He Hj].
    + rewrite (parse_skipped_line _ _ Hs). simpl. apply IH.
    + rewrite (parse_object_line l e out Ho He Hj). simpl.
      rewrite IH, <- app_assoc. reflexivity.
    + rewrite (parse_object_line_comma l e out Ho He Hj). simpl.
      rewrite IH, <- app_assoc. reflexivity.
Qed.

(** X20.  A response read line by line may carry, between its elements,
    lines that hold only a bracket or a comma, or an XSSI guard, and its
    elements may end in a comma: the parser returns the elements alone,
    in order. *)
Theorem noise_between_elements_is_skipped
    (txt : string) (lines : list string) (items : list (option json)) :
  Text.strip txt = Text.join (String Text.LF EmptyString) lines ->
  Text.strip txt <> EmptyString ->
  Text.startswith "[" (Text.strip txt) = false ->
  Forall (fun l => Text.no_linebreak l = true /\ l <> EmptyString) lines ->
  Forall2 line_yields lines items ->
  _parse_route_matrix_text txt = Ok (yielded items).
Proof.
  intros Hjoin Hne Hstart Hlines Hy. unfold _parse_route_matrix_text.
  destruct (String.eqb_spec (Text.strip txt) EmptyString) as [E | _]; [contradiction |].
  rewrite Hstart, Hjoin, (Text.splitlines_join _ Hlines).
  apply (parse_yielding_lines lines items Hy []).
Qed.

(** ** A provider that answers with an error status *)

Lemma first_block_raises coords dep pref mm st e st2 :
  coords <> [] ->
  _compute_block (chunk coords 0) (chunk coords 0) dep pref st = (Raise e, st2) ->
  build_blocks coords dep pref mm st = (Raise e, st2).
Proof.
  intros Hne Hfail. unfold build_blocks. rewrite enumerate_chunks.
  assert (Hpos : (0 < chunk_count coords)%nat).
  { unfold chunk_count, MAX_BLOCK. destruct coords as [| c coords]; [congruence |].
    simpl length. apply Nat.div_str_pos. lia. }
  destruct (chunk_count coords) as [| n]; [lia |].
  simpl. unfold bindM at 1. unfold bindM at 1. unfold build_block, bindM.
  rewrite Hfail. reflexivity.
Qed.

(** X22.  When the provider answers the first block request with a 4xx
    or 5xx status, the build stops there with [HTTPException] 502 whose
    detail carries that status and the first 400 characters of the
    body: that one request is the only route-matrix request sent, and
    nothing is cached. *)
Theorem provider_error_aborts_build
    (points : list Point) (departure_time : option string)
    (routing_preference : string) (require_coords : bool)
    (st st1 : state) (ids1 : list string) (coords : list (Q * Q))
    (status : Z) (text : string) :
  let first_request :=
    RouteMatrixCall (Text.strip GOOGLE_MAPS_API_KEY)
      (route_matrix_body (chunk coords 0) (chunk coords 0)
         departure_time routing_preference) in
  resolve_points points require_coords st = (Ok (ids1, coords), st1) ->
  cache st !! _cache_key coords departure_time routing_preference = None ->
  points <> [] ->
  Text.strip GOOGLE_MAPS_API_KEY <> EmptyString ->
  requests (length (calls st1)) first_request = Response status text ->
  is_http_error status = true ->
  build_matrix points departure_time routing_preference require_coords st
  = (Raise (HTTPException 502
              ("Routes API HTTP " +:+ pretty status +:+ ": " +:+ Text.prefix_of 400 text)),
     {| cache := cache st; calls := calls st1 ++ [first_request] |}).
Proof.
  intros first_request Hres Hmiss Hpoints Hkey Hreply Hstatus.
  pose proof (resolve_points_spec _ _ _ _ _ _ Hres) as [_ [Hlen [Hc _]]].
  assert (Hne : coords <> []).
  { intros ->. destruct points; [congruence | discriminate Hlen]. }
  unfold build_matrix, bindM at 1. rewrite Hres, Hc, Hmiss. unfold bindM.
  rewrite (first_block_raises coords departure_time routing_preference _ st1
             (HTTPException 502
                ("Routes API HTTP " +:+ pretty status +:+ ": " +:+ Text.prefix_of 400 text))
             {| cache := cache st1; calls := calls st1 ++ [first_request] |} Hne).
  - rewrite Hc. reflexivity.
  - unfold _compute_block, bindM, lift, request, _get_key.
    destruct (String.eqb_spec (Text.strip GOOGLE_MAPS_API_KEY) EmptyString);
      [contradiction |].
    simpl. fold first_request. rewrite Hreply, Hstatus. reflexivity.
Qed.

End World.

(** ** A two-stop world: a depot, and a stop no road leads from *)

Definition ex_field (k v : string) : string := quoted k +:+ ":" +:+ v.

Definition ex_line00 : string :=
  "{" +:+ ex_field "originIndex" "0" +:+ "," +:+ ex_field "destinationIndex" "0"
  +:+ "," +:+ ex_field "duration" (quoted "0s")
  +:+ "," +:+ ex_field "distanceMeters" "0"
  +:+ "," +:+ ex_field "condition" (quoted "ROUTE_EXISTS") +:+ "}".

Definition ex_line01 : string :=
  "{" +:+ ex_field "originIndex" "0" +:+ "," +:+ ex_field "destinationIndex" "1"
  +:+ "," +:+ ex_field "duration" (quoted "300s")
  +:+ "," +:+ ex_field "distanceMeters" "1200"
  +:+ "," +:+ ex_field "condition" (quoted "ROUTE_EXISTS") +:+ "}".

Definition ex_line10 : string :=
  "{" +:+ ex_field "originIndex" "1" +:+ "," +:+ ex_field "destinationIndex" "0"
  +:+ "," +:+ ex_field "condition" (quoted "ROUTE_NOT_FOUND") +:+ "}".

Definition ex_line11 : string :=
  "{" +:+ ex_field "originIndex" "1" +:+ "," +:+ ex_field "destinationIndex" "1"
  +:+ "," +:+ ex_field "condition" (quoted "ROUTE_NOT_FOUND") +:+ "}".

Definition ex_lines : list string := [ex_line00; ex_line01; ex_line10; ex_line11].

(** The response as a stream of objects, and as one array. *)
Definition ex_ndjson : string :=
  Text.join (String Text.LF EmptyString) ex_lines +:+ String Text.LF EmptyString.

Definition ex_array : string := "[" +:+ Text.join "," ex_lines +:+ "]".

Definition ex_obj (oi di : Z) (rest : list (string * json)) : json :=
  JObj (("originIndex", JInt oi) :: ("destinationIndex", JInt di) :: rest).

Definition ex_objs : list json :=
  [ex_obj 0 0 [("duration", JStr "0s"); ("distanceMeters", JInt 0);
               ("condition", JStr "ROUTE_EXISTS")];
   ex_obj 0 1 [("duration", JStr "300s"); ("distanceMeters", JInt 1200);
               ("condition", JStr "ROUTE_EXISTS")];
   ex_obj 1 0 [("condition", JStr "ROUTE_NOT_FOUND")];
   ex_obj 1 1 [("condition", JStr "ROUTE_NOT_FOUND")]].

Definition ex_elements : list Element :=
  [{| originIndex := 0; destinationIndex := 0; condition := Some "ROUTE_EXISTS";
      duration := Some 0%Q; distanceMeters := Some 0 |};
   {| originIndex := 0; destinationIndex := 1; condition := Some "ROUTE_EXISTS";
      duration := Some (300 # 1); distanceMeters := Some 1200 |};
   {| originIndex := 1; destinationIndex := 0; condition := Some "ROUTE_NOT_FOUND";
      duration := None; distanceMeters := None |};
   {| originIndex := 1; destinationIndex := 1; condition := Some "ROUTE_NOT_FOUND";
      duration := None; distanceMeters := None |}].

Definition ex_geocode_text : string :=
  "{" +:+ ex_field "status" (quoted "OK") +:+ "," +:+ ex_field "results"
    ("[{" +:+ ex_field "geometry"
       ("{" +:+ ex_field "location"
          ("{" +:+ ex_field "lat" "35.68" +:+ "," +:+ ex_field "lng" "139.76" +:+ "}")
        +:+ "}")
     +:+ "}]")
  +:+ "}".

Definition ex_geocode_json : json :=
  JObj [("status", JStr "OK");
        ("results",
         JArr [JObj [("geometry",
                      JObj [("location",
                             JObj [("lat", JFloat (3568 # 100));
                                   ("lng", JFloat (13976 # 100))])])]])].

(** [json.loads] on the texts of this world. *)
Definition ex_json_loads (s : string) : option json :=
  match list_find (fun p => String.eqb (fst p) s = true) (zip ex_lines ex_objs) with
  | Some (_, (_, v)) => Some v
  | None =>
      if String.eqb s ex_array then Some (JArr ex_objs)
      else if String.eqb s ex_geocode_text then Some ex_geocode_json
      else None
  end.

Definition ex_py_float (s : string) : option pyfloat :=
  if String.eqb s "0" then Some (Finite 0)
  else if String.eqb s "300" then Some (Finite (300 # 1))
  else if String.eqb s "-300" then Some (Finite (-300 # 1))
  else if String.eqb s "inf" then Some (Infinity false)
  else None.

Definition ex_py_int (s : string) : option Z := None.

Definition ex_py_str (v : option json) : string :=
  match v with Some (JStr s) => s | _ => "None" end.

(** A stand-in for the digest that separates signatures by spelling them
    out. *)
Definition ex_digest (sg : Signature) : string :=
  String.concat ";"
    (map (fun ab => pretty (fst ab) +:+ "," +:+ pretty (snd ab)) (sig_coords sg))
  +:+ "|" +:+ default "-" (sig_dep sg) +:+ "|" +:+ sig_pref sg.

Definition ex_env_key : string := "test-key".

Definition ex_requests (clock : nat) (c : call) : http_reply :=
  match c with
  | GeocodeCall _ _ => Response 200 ex_geocode_text
  | RouteMatrixCall _ _ => Response 200 ex_ndjson
  end.

Definition ex_depot : Point :=
  {| id := "DEPOT"; lat := Some (3568 # 100); lng := Some (13976 # 100); address := None |}.

Definition ex_island : Point :=
  {| id := "R001_P"; lat := Some (3466 # 100); lng := Some (13940 # 100); address := None |}.

Definition ex_points : list Point := [ex_depot; ex_island].

Definition ex_coords : list (Q * Q) :=
  [(3568 # 100, 13976 # 100); (3466 # 100, 13940 # 100)].

(** The same two places under other ids. *)
Definition ex_renamed : list Point :=
  [{| id := "A"; lat := Some (3568 # 100); lng := Some (13976 # 100); address := None |};
   {| id := "B"; lat := Some (3466 # 100); lng := Some (13940 # 100); address := None |}].

(** The depot by its address only. *)
Definition ex_by_address : Point :=
  {| id := "DEPOT"; lat := None; lng := None; address := Some "Tokyo Station" |}.

Definition ex_empty : state := {| cache := ∅; calls := [] |}.

(** What the build of [ex_points] returns in this world. *)
Definition ex_matrix : TravelMatrix :=
  {| ids := ["DEPOT"; "R001_P"];
     minutes := [[Some 0; Some 5]; [Some (10 ^ 6); Some (10 ^ 6)]];
     meters := [[Some 0; Some 1200]; [Some (10 ^ 9); Some (10 ^ 9)]] |}.

Definition ex_build : list Point -> option string -> string -> bool -> M TravelMatrix :=
  build_matrix ex_json_loads ex_py_float ex_py_int ex_py_str ex_digest ex_env_key
    ex_requests.

Definition ex_resolve : list Point -> bool -> M (list string * list (Q * Q)) :=
  resolve_points ex_json_loads ex_py_float ex_py_str ex_env_key ex_requests.

Definition ex_block :
  list (Q * Q) -> list (Q * Q) -> option string -> string -> M (matrix * matrix) :=
  _compute_block ex_json_loads ex_py_float ex_py_int ex_env_key ex_requests.

(** The process after the build of [ex_points]. *)
Definition ex_built : state :=
  {| cache := {[ _cache_key ex_digest ex_coords None "TRAFFIC_UNAWARE" := ex_matrix ]};
     calls := [RouteMatrixCall "test-key"
                 (route_matrix_body ex_coords ex_coords None "TRAFFIC_UNAWARE")] |}.

(** A one-stop matrix for the depot, and a process whose cache holds it. *)
Definition ex_stored : TravelMatrix :=
  {| ids := ["DEPOT"]; minutes := [[Some 0]]; meters := [[Some 0]] |}.

Definition ex_warm : state :=
  {| cache := {[ _cache_key ex_digest [(3568 # 100, 13976 # 100)] None "TRAFFIC_AWARE"
                 := ex_stored ]};
     calls := [] |}.

Definition ex_warm_after : state :=
  {| cache := cache ex_warm; calls := [GeocodeCall "Tokyo Station" "test-key"] |}.

Example ex_build_runs :
  ex_build ex_points None "TRAFFIC_UNAWARE" false ex_empty = (Ok ex_matrix, ex_built).
Proof. vm_compute. reflexivity. Qed.

Example ex_resolve_runs :
  ex_resolve ex_points false ex_empty = (Ok (["DEPOT"; "R001_P"], ex_coords), ex_empty).
Proof. reflexivity. Qed.

Example ex_resolve_renamed :
  ex_resolve ex_renamed false ex_built = (Ok (["A"; "B"], ex_coords), ex_built).
Proof. reflexivity. Qed.

Example ex_resolve_by_address :
  ex_resolve [ex_by_address] false ex_warm
  = (Ok (["DEPOT"], [(3568 # 100, 13976 # 100)]), ex_warm_after).
Proof. vm_compute. reflexivity. Qed.

Lemma ex_represented :
  Forall2 (fun obj e => exists fields, obj = JObj fields /\
             represents ex_py_float fields e /\
             0 <= originIndex e < Z.of_nat (length ex_coords) /\
             0 <= destinationIndex e < Z.of_nat (length ex_coords))
    ex_objs ex_elements.
Proof.
  repeat constructor;
    (eexists; split; [reflexivity |]; split;
     [unfold represents; simpl; repeat split; try reflexivity |
      simpl; lia]).
  - exists "0s". split; reflexivity.
  - exists "300s". split; reflexivity.
Qed.

Lemma compute_block_witness :
  exists minutes meters st',
    ex_block ex_coords ex_coords None "TRAFFIC_UNAWARE" ex_empty
      = (Ok (minutes, meters), st') /\
    shaped (length ex_coords) (length ex_coords) minutes /\
    shaped (length ex_coords) (length ex_coords) meters /\
    forall i j, (i < length ex_coords)%nat -> (j < length ex_coords)%nat ->
      cell minutes i j =
        Some (Some (match element_for ex_elements i j with
                    | Some e => expected_minutes e
                    | None => 10 ^ 6
                    end)) /\
      cell meters i j =
        Some (Some (match element_for ex_elements i j with
                    | Some e => expected_meters e
                    | None => 10 ^ 9
                    end)).
Proof.
  apply (compute_block_stores_or_sentinels ex_json_loads ex_py_float ex_py_int
           ex_env_key ex_requests ex_coords ex_coords None "TRAFFIC_UNAWARE" ex_empty
           "test-key" 200 ex_ndjson ex_objs ex_elements).
  - reflexivity.
  - reflexivity.
  - reflexivity.
  - vm_compute. reflexivity.
  - exact ex_represented.
Defined.

Lemma ex_object_lines :
  Forall2 (fun line e => object_line line /\
                         Text.startswith error_prefix line = false /\
                         ex_json_loads line = Some e) ex_lines ex_objs.
Proof.
  repeat constructor; vm_compute; reflexivity.
Qed.

Lemma array_and_ndjson_witness :
  _parse_route_matrix_text ex_json_loads ex_array = Ok ex_objs /\
  _parse_route_matrix_text ex_json_loads ex_ndjson = Ok ex_objs.
Proof.
  apply (array_and_ndjson_parse_alike ex_json_loads ex_objs ex_lines ex_array ex_ndjson).
  - vm_compute. reflexivity.
  - vm_compute. reflexivity.
  - vm_compute. reflexivity.
  - exact ex_object_lines.
  - repeat constructor.
Defined.

(** C6 as stated fails here: the cache holds the entry of the request's
    key and the build returns it, yet a geocoding call went out. *)
Lemma cache_hit_still_geocodes :
  cache ex_warm !! _cache_key ex_digest [(3568 # 100, 13976 # 100)] None "TRAFFIC_AWARE"
    = Some ex_stored /\
  fst (ex_build [ex_by_address] None "TRAFFIC_AWARE" false ex_warm) = Ok ex_stored /\
  calls ex_warm = [] /\
  calls (snd (ex_build [ex_by_address] None "TRAFFIC_AWARE" false ex_warm))
    = [GeocodeCall "Tokyo Station" "test-key"].
Proof. vm_compute. repeat split; reflexivity. Qed.

Lemma cache_hit_witness :
  ex_build [ex_by_address] None "TRAFFIC_AWARE" false ex_warm = (Ok ex_stored, ex_warm_after) /\
  cache ex_warm_after = cache ex_warm /\
  calls ex_warm_after = calls ex_warm ++ geocode_calls ex_env_key [ex_by_address] /\
  (forallb (fun p => negb (needs_geocoding p)) [ex_by_address] = true ->
   calls ex_warm_after = calls ex_warm).
Proof.
  apply (cache_hit_returns_stored_entry ex_json_loads ex_py_float ex_py_int ex_py_str
           ex_digest ex_env_key ex_requests [ex_by_address] None "TRAFFIC_AWARE" false
           ex_warm ex_warm_after ["DEPOT"] [(3568 # 100, 13976 # 100)] ex_stored).
  - exact ex_resolve_by_address.
  - vm_compute. reflexivity.
Defined.

Lemma rebuild_witness :
  cache ex_built !! _cache_key ex_digest ex_coords None "TRAFFIC_UNAWARE" = Some ex_matrix /\
  ex_build ex_points None "TRAFFIC_UNAWARE" false ex_built = (Ok ex_matrix, ex_built) /\
  cache ex_built = cache ex_built.
Proof.
  apply (rebuild_returns_cached_matrix ex_json_loads ex_py_float ex_py_int ex_py_str
           ex_digest ex_env_key ex_requests ex_points ex_points None "TRAFFIC_UNAWARE"
           false false ex_empty ex_empty ex_built ex_built
           ["DEPOT"; "R001_P"] ["DEPOT"; "R001_P"] ex_coords ex_matrix).
  - exact ex_resolve_runs.
  - exact ex_build_runs.
  - reflexivity.
Defined.

Lemma earlier_ids_witness :
  ex_build ex_renamed None "TRAFFIC_UNAWARE" false ex_built = (Ok ex_matrix, ex_built) /\
  ids ex_matrix = map id ex_points /\
  ["A"; "B"] = map id ex_renamed.
Proof.
  apply (cache_hit_keeps_earlier_ids ex_json_loads ex_py_float ex_py_int ex_py_str
           ex_digest ex_env_key ex_requests ex_points ex_renamed None "TRAFFIC_UNAWARE"
           false false ex_empty ex_empty ex_built ex_built
           ["DEPOT"; "R001_P"] ["A"; "B"] ex_coords ex_matrix).
  - exact ex_resolve_runs.
  - reflexivity.
  - exact ex_build_runs.
  - exact ex_resolve_renamed.
Defined.

(** A provider that reports a negative duration and a negative distance
    for the one pair of a one-stop request. *)
Definition ex_line_negative : string :=
  "{" +:+ ex_field "originIndex" "0" +:+ "," +:+ ex_field "destinationIndex" "0"
  +:+ "," +:+ ex_field "duration" (quoted "-300s")
  +:+ "," +:+ ex_field "distanceMeters" "-1200"
  +:+ "," +:+ ex_field "condition" (quoted "ROUTE_EXISTS") +:+ "}".

Definition ex_negative_json_loads (s : string) : option json :=
  if String.eqb s ex_line_negative
  then Some (ex_obj 0 0 [("duration", JStr "-300s"); ("distanceMeters", JInt (-1200));
                         ("condition", JStr "ROUTE_EXISTS")])
  else None.

Definition ex_negative_requests (clock : nat) (c : call) : http_reply :=
  Response 200 ex_line_negative.

(** C8 as stated fails twice.  Where the provider reports no route from
    a stop to itself, the diagonal entry is the sentinel, not 0; and a
    response with a negative duration and a negative distance comes back
    as negative entries. *)
Lemma entries_follow_the_provider :
  (fst (ex_build ex_points None "TRAFFIC_UNAWARE" false ex_empty) = Ok ex_matrix /\
   Py.getitem2 (minutes ex_matrix) 1 1 = Ok (Some 1000000) /\
   Some 1000000 <> Some 0) /\
  (fst (build_matrix ex_negative_json_loads ex_py_float ex_py_int ex_py_str ex_digest
          ex_env_key ex_negative_requests [ex_depot] None "TRAFFIC_UNAWARE" false ex_empty)
   = Ok {| ids := ["DEPOT"]; minutes := [[Some (-5)]]; meters := [[Some (-1200)]] |} /\
   -5 < 0 /\ -1200 < 0).
Proof.
  split.
  - split; [rewrite ex_build_runs; reflexivity |]. split; [reflexivity | discriminate].
  - split; [vm_compute; reflexivity | lia].
Qed.

(** A duration that reads as an infinity is an error of the block, not an
    entry. *)
Example ex_infinite_duration :
  element_minutes ex_py_float
    [("duration", JStr "infs"); ("distanceMeters", JInt 1200);
     ("condition", JStr "ROUTE_EXISTS")]
  = Raise OverflowError.
Proof. reflexivity. Qed.

Lemma ex_cache_sound V : cache_sound ex_digest V ex_empty.
Proof. intros k e H. vm_compute in H. discriminate H. Qed.

Lemma ex_figures_nonneg : provider_figures_nonneg ex_json_loads ex_py_float ex_py_int ex_requests.
Proof.
  intros clock key body status text objs Er Ep. simpl in Er. injection Er as <- <-.
  assert (Eo : objs = ex_objs) by (vm_compute in Ep; injection Ep as <-; reflexivity).
  subst objs. unfold ex_objs, ex_obj.
  assert (Hobj : forall fields,
            (forall s secs, Dict.get fields "duration" = Some (JStr s) ->
               ex_py_float (Text.rstrip_by (Ascii.eqb "s") s) = Some (Finite secs) ->
               (0 <= secs)%Q) ->
            (forall v, Dict.get fields "distanceMeters" = Some v ->
               nonneg_number ex_py_int v) ->
            nonneg_figures ex_py_float ex_py_int (JObj fields)).
  { intros fields H1 H2 fields' [= <-]. split; assumption. }
  repeat (constructor; [apply Hobj |]); try constructor.
  all: try (intros s secs Hg Hf; vm_compute in Hg; try discriminate Hg;
            injection Hg as <-; vm_compute in Hf; injection Hf as <-;
            unfold Qle; simpl; lia).
  all: intros v Hg; vm_compute in Hg; try discriminate Hg; injection Hg as <-; simpl; lia.
Qed.

Lemma ex_parsed : _parse_route_matrix_text ex_json_loads ex_ndjson = Ok ex_objs.
Proof. vm_compute. reflexivity. Qed.

(** The two-stop build: square, total, non-negative, and on the second
    diagonal entry the sentinel of the element that reports no route. *)
Lemma square_and_total_witness :
  well_built (fun _ => True) (length ex_points) ex_matrix /\
  well_built (fun z => 0 <= z) (length ex_points) ex_matrix /\
  ids ex_matrix = map id ex_points /\
  cell (minutes ex_matrix) 1 1 =
    Some (Some (match element_for ex_elements (1 mod MAX_BLOCK) (1 mod MAX_BLOCK) with
                | Some e => expected_minutes e
                | None => 10 ^ 6
                end)).
Proof.
  destruct (built_matrix_square_and_total ex_json_loads ex_py_float ex_py_int ex_py_str
              ex_digest ex_env_key ex_requests ex_points None "TRAFFIC_UNAWARE" false
              ex_empty ex_empty ex_built ["DEPOT"; "R001_P"] ex_coords ex_matrix
              ex_resolve_runs ex_build_runs) as [Htotal [Hsign Hcells]].
  split; [| split; [| split]].
  - apply (Htotal (ex_cache_sound _)). left. reflexivity.
  - apply (Hsign ex_figures_nonneg (ex_cache_sound _)). left. reflexivity.
  - apply Hcells. reflexivity.
  - destruct (Hcells eq_refl) as [_ Hcell].
    destruct (Hcell 1%nat 1%nat ltac:(simpl; lia) ltac:(simpl; lia))
      as [st_b [m_blk [d_blk [st_b' [key [status [text [objs
            [_ [_ [_ [Hreq [Hparse Hread]]]]]]]]]]]]].
    simpl in Hreq. injection Hreq as _ <-.
    rewrite ex_parsed in Hparse. injection Hparse as <-.
    apply (Hread ex_elements ex_represented).
Defined.

(** ** The same world, further *)

(** Five items in slices of two. *)
Lemma chunks_partition_witness :
  (0 < 2)%nat /\
  concat (_chunks [1; 2; 3; 4; 5] 2) = [1; 2; 3; 4; 5] /\
  forall k c, _chunks [1; 2; 3; 4; 5] 2 !! k = Some c ->
    (0 < length c <= 2)%nat /\
    (S k < length (_chunks [1; 2; 3; 4; 5] 2) -> length c = 2)%nat.
Proof.
  split; [lia |]. exact (chunks_partition [1; 2; 3; 4; 5] 2 ltac:(lia)).
Defined.

(** A process whose key variable holds two blanks. *)
Lemma missing_key_witness :
  Text.strip "  " = EmptyString /\
  geocode ex_json_loads ex_py_float ex_py_str "  " ex_requests "Tokyo Station" ex_empty
    = (Raise key_not_set, ex_empty) /\
  calls (snd (build_matrix ex_json_loads ex_py_float ex_py_int ex_py_str ex_digest "  "
                ex_requests ex_points None "TRAFFIC_AWARE" false ex_empty))
    = calls ex_empty.
Proof.
  pose proof (missing_key_sends_no_request ex_json_loads ex_py_float ex_py_int ex_py_str
                ex_digest "  " ex_requests eq_refl) as [Hg [_ Hb]].
  split; [reflexivity |]. split; [apply Hg | apply Hb].
Defined.

Lemma ex_key_is_set : Text.strip ex_env_key <> EmptyString.
Proof. discriminate. Qed.

Lemma each_call_witness :
  Text.strip ex_env_key <> EmptyString /\
  snd (ex_block ex_coords ex_coords None "TRAFFIC_UNAWARE" ex_empty) =
  {| cache := cache ex_empty;
     calls := calls ex_empty ++
              [RouteMatrixCall (Text.strip ex_env_key)
                 (route_matrix_body ex_coords ex_coords None "TRAFFIC_UNAWARE")] |}.
Proof.
  split; [exact ex_key_is_set |].
  apply (each_call_sends_one_request ex_json_loads ex_py_float ex_py_int ex_py_str
           ex_env_key ex_requests ex_key_is_set).
Defined.

Example ex_geocode_runs :
  fst (geocode ex_json_loads ex_py_float ex_py_str ex_env_key ex_requests
         "Tokyo Station" ex_warm)
  = Ok (3568 # 100, 13976 # 100).
Proof. vm_compute. reflexivity. Qed.

Lemma geocode_first_result_witness :
  exists status text fields first others location,
    ex_requests (length (calls ex_warm)) (GeocodeCall "Tokyo Station" (Text.strip ex_env_key))
      = Response status text /\
    is_http_error status = false /\
    ex_json_loads text = Some (JObj fields) /\
    Dict.get fields "status" = Some (JStr "OK") /\
    Dict.get fields "results" = Some (JArr (first :: others)) /\
    (let* geometry := item first "geometry" in item geometry "location") = Ok location /\
    (let* v := item location "lat" in to_float ex_py_float v) = Ok (3568 # 100) /\
    (let* v := item location "lng" in to_float ex_py_float v) = Ok (13976 # 100).
Proof.
  exact (geocode_returns_first_result ex_json_loads ex_py_float ex_py_str ex_env_key
           ex_requests "Tokyo Station" ex_warm _ _ ex_geocode_runs).
Defined.

(** A stop with neither coordinates nor address, between two good ones. *)
Definition ex_nowhere : Point :=
  {| id := "R009_P"; lat := None; lng := None; address := None |}.

Lemma unresolvable_point_witness :
  ex_resolve [ex_depot] false ex_empty
    = (Ok (["DEPOT"], [(3568 # 100, 13976 # 100)]), ex_empty) /\
  needs_geocoding ex_nowhere = true /\
  ex_build ([ex_depot] ++ ex_nowhere :: [ex_island]) None "TRAFFIC_AWARE" false ex_empty
    = (Raise (rejection false ex_nowhere), ex_empty) /\
  cache ex_empty = cache ex_empty /\
  calls ex_empty = calls ex_empty ++ geocode_calls ex_env_key [ex_depot].
Proof.
  split; [reflexivity |]. split; [reflexivity |].
  apply (unresolvable_point_is_rejected ex_json_loads ex_py_float ex_py_int ex_py_str
           ex_digest ex_env_key ex_requests [ex_depot] [ex_island] ex_nowhere None
           "TRAFFIC_AWARE" false ex_empty ex_empty
           (["DEPOT"], [(3568 # 100, 13976 # 100)])).
  - reflexivity.
  - reflexivity.
  - right. left. reflexivity.
Defined.

Lemma ex_miss : cache ex_empty !! _cache_key ex_digest ex_coords None "TRAFFIC_UNAWARE" = None.
Proof. reflexivity. Qed.

Lemma one_request_per_block_pair_witness :
  calls ex_built = calls ex_empty ++ geocode_calls ex_env_key ex_points
                     ++ block_calls ex_env_key ex_coords None "TRAFFIC_UNAWARE" /\
  length (block_calls ex_env_key ex_coords None "TRAFFIC_UNAWARE")
    = (chunk_count ex_coords * chunk_count ex_coords)%nat.
Proof.
  apply (miss_sends_one_request_per_block_pair ex_json_loads ex_py_float ex_py_int ex_py_str
           ex_digest ex_env_key ex_requests ex_points None "TRAFFIC_UNAWARE" false
           ex_empty ex_empty ex_built ["DEPOT"; "R001_P"] ex_coords ex_matrix).
  - exact ex_resolve_runs.
  - exact ex_miss.
  - exact ex_build_runs.
Defined.

Example ex_block_runs :
  ex_block ex_coords ex_coords None "TRAFFIC_UNAWARE" ex_empty
  = (Ok (minutes ex_matrix, meters ex_matrix),
     {| cache := cache ex_empty; calls := calls ex_built |}).
Proof. vm_compute. reflexivity. Qed.

Lemma no_unset_cell_witness :
  shaped (length ex_coords) (length ex_coords) (minutes ex_matrix) /\
  shaped (length ex_coords) (length ex_coords) (meters ex_matrix) /\
  forall i j, (i < length ex_coords)%nat -> (j < length ex_coords)%nat ->
    exists x y, cell (minutes ex_matrix) i j = Some (Some x) /\
                cell (meters ex_matrix) i j = Some (Some y).
Proof.
  exact (computed_block_has_no_unset_cell ex_json_loads ex_py_float ex_py_int ex_py_str
           ex_env_key ex_requests ex_coords ex_coords None "TRAFFIC_UNAWARE"
           ex_empty _ (minutes ex_matrix) (meters ex_matrix) ex_block_runs).
Defined.

Lemma small_request_witness :
  exists st2,
    ex_block ex_coords ex_coords None "TRAFFIC_UNAWARE" ex_empty
      = (Ok (minutes ex_matrix, meters ex_matrix), st2) /\
    calls ex_built = calls st2 /\
    ids ex_matrix = map id ex_points.
Proof.
  apply (small_request_is_one_block ex_json_loads ex_py_float ex_py_int ex_py_str
           ex_digest ex_env_key ex_requests ex_points None "TRAFFIC_UNAWARE" false
           ex_empty ex_empty ex_built ["DEPOT"; "R001_P"] ex_coords ex_matrix).
  - unfold MAX_BLOCK. simpl. lia.
  - exact ex_resolve_runs.
  - exact ex_miss.
  - exact ex_build_runs.
Defined.

(** An element addressed to row -1 of a two-by-two block lands in the
    second row. *)
Lemma element_index_witness :
  shaped 2 2 (empty_block 2 2) /\
  store (empty_block 2 2) (JInt (-1)) (JInt 0) (Some 7)
    = Ok [[None; None]; [Some 7; None]] /\
  store (empty_block 2 2) (JInt 2) (JInt 0) (Some 7) = Raise IndexError.
Proof.
  pose proof (element_index_wraps_or_fails 2 2 (empty_block 2 2) 2 0 (Some 7)
                (shaped_replicate 2 2 None)) as [_ Hout].
  split; [apply shaped_replicate |]. split; [reflexivity |].
  apply Hout. lia.
Defined.

Lemma parse_failures_witness :
  Text.startswith "[" (Text.strip "oops") = false /\
  _parse_route_matrix_text ex_json_loads "oops"
    = Raise (HTTPException 502 "Bad JSON line from Routes API: oops") /\
  exists detail,
    HTTPException 502 "Bad JSON line from Routes API: oops" = HTTPException 502 detail.
Proof.
  assert (H : _parse_route_matrix_text ex_json_loads "oops"
              = Raise (HTTPException 502 "Bad JSON line from Routes API: oops"))
    by (vm_compute; reflexivity).
  split; [reflexivity |]. split; [exact H |].
  exact (proj1 (parse_failures_by_encoding ex_json_loads) "oops" _ eq_refl H).
Defined.

(** A stream behind an XSSI guard, its first element followed by a
    comma, closed by a bracket. *)
Definition ex_noisy_lines : list string :=
  [")]}'"; ex_line00 +:+ ","; ex_line01; "]"].

Definition ex_noisy : string := Text.join (String Text.LF EmptyString) ex_noisy_lines.

Definition ex_noisy_items : list (option json) :=
  [None; Some (ex_obj 0 0 [("duration", JStr "0s"); ("distanceMeters", JInt 0);
                           ("condition", JStr "ROUTE_EXISTS")]);
   Some (ex_obj 0 1 [("duration", JStr "300s"); ("distanceMeters", JInt 1200);
                     ("condition", JStr "ROUTE_EXISTS")]);
   None].

Lemma ex_noisy_yields : Forall2 (line_yields ex_json_loads) ex_noisy_lines ex_noisy_items.
Proof.
  constructor; [apply yields_nothing; reflexivity |].
  constructor;
    [apply yields_element_comma; [vm_compute; auto | reflexivity | vm_compute; reflexivity] |].
  constructor;
    [apply yields_element; [vm_compute; auto | reflexivity | vm_compute; reflexivity] |].
  constructor; [apply yields_nothing; reflexivity | constructor].
Qed.

Lemma noise_is_skipped_witness :
  _parse_route_matrix_text ex_json_loads ex_noisy
  = Ok [ex_obj 0 0 [("duration", JStr "0s"); ("distanceMeters", JInt 0);
                    ("condition", JStr "ROUTE_EXISTS")];
        ex_obj 0 1 [("duration", JStr "300s"); ("distanceMeters", JInt 1200);
                    ("condition", JStr "ROUTE_EXISTS")]].
Proof.
  apply (noise_between_elements_is_skipped ex_json_loads ex_noisy ex_noisy_lines
           ex_noisy_items).
  - vm_compute. reflexivity.
  - vm_compute. discriminate.
  - vm_compute. reflexivity.
  - repeat constructor; vm_compute; try reflexivity; discriminate.
  - exact ex_noisy_yields.
Defined.

(** A provider that is down. *)
Definition ex_down (clock : nat) (c : call) : http_reply := Response 503 "Service Unavailable".

Lemma provider_error_witness :
  build_matrix ex_json_loads ex_py_float ex_py_int ex_py_str ex_digest ex_env_key ex_down
    ex_points None "TRAFFIC_AWARE" false ex_empty
  = (Raise (HTTPException 502
              ("Routes API HTTP " +:+ pretty 503 +:+ ": "
               +:+ Text.prefix_of 400 "Service Unavailable")),
     {| cache := cache ex_empty;
        calls := calls ex_empty ++
                 [RouteMatrixCall (Text.strip ex_env_key)
                    (route_matrix_body (chunk ex_coords 0) (chunk ex_coords 0)
                       None "TRAFFIC_AWARE")] |}).
Proof.
  apply (provider_error_aborts_build ex_json_loads ex_py_float ex_py_int ex_py_str
           ex_digest ex_env_key ex_down ex_points None "TRAFFIC_AWARE" false
           ex_empty ex_empty ["DEPOT"; "R001_P"] ex_coords 503 "Service Unavailable").
  - reflexivity.
  - reflexivity.
  - discriminate.
  - exact ex_key_is_set.
  - reflexivity.
  - reflexivity.
Defined.

End MatrixService.

(** * The failures of the two services, side by side *)

Module Failures.

(** C3.  When the search returns no assignment, [solve_routes] raises
    [HTTPException(500, "No feasible route found")] and returns no plan.
    That is the outcome whenever the capacity is 0 and there is a pair
    with a valid pickup, since no assignment satisfies the model then.
    The error is none of the failures of the matrix builder, whatever the
    provider answers: those carry status 400 or 502, or are the 500 of a
    missing key, or are not [HTTPException]s at all. *)
Theorem no_solution_is_infeasible_error :
  (forall ids vehicle_count manager routing fuel,
      RoutingService.solve_routes ids vehicle_count manager routing fuel None
      = Some (Raise RoutingService.infeasible)) /\
  (forall ids minutes pairs vehicle_count vehicle_capacity depot_index manager routing
          p0 d0 rest outcome fuel,
      RoutingService.manager_ok ids vehicle_count depot_index manager routing ->
      vehicle_capacity = 0 ->
      pairs = (p0, d0) :: rest ->
      RoutingService.is_node ids p0 ->
      (forall a, outcome = Some a ->
                 RoutingService.feasible minutes pairs vehicle_count vehicle_capacity
                   manager routing a) ->
      RoutingService.solve_routes ids vehicle_count manager routing fuel outcome
      = Some (Raise RoutingService.infeasible)) /\
  (forall json_loads py_float py_int py_str sha256_hexdigest key requests
          points departure_time routing_preference require_coords st e,
      fst (MatrixService.build_matrix json_loads py_float py_int py_str sha256_hexdigest
             key requests points departure_time routing_preference require_coords st)
      = Raise e ->
      MatrixService.builder_failure e /\ e <> RoutingService.infeasible) /\
  ~ MatrixService.builder_failure RoutingService.infeasible.
Proof.
  assert (Hnot : ~ MatrixService.builder_failure RoutingService.infeasible).
  { simpl. intros [H | [H | [_ H]]]; discriminate H. }
  split; [reflexivity |]. split; [| split; [| exact Hnot]].
  - intros ids minutes pairs vc cap depot manager routing p0 d0 rest outcome fuel
           M Hcap Hpairs Hp Hsound.
    destruct outcome as [a |]; [| reflexivity].
    exfalso.
    apply (RoutingService.zero_capacity_infeasible ids minutes pairs vc cap depot
             manager routing a p0 d0 rest M Hcap Hpairs Hp).
    apply Hsound. reflexivity.
  - intros json_loads py_float py_int py_str digest key requests points dep pref rc st e H.
    pose proof (MatrixService.build_matrix_raises json_loads py_float py_int py_str digest
                  key requests points dep pref rc st e H) as Hb.
    split; [exact Hb |]. intros ->. exact (Hnot Hb).
Qed.

(** The three-stop instance with no capacity: whatever a sound search
    returns, the call ends in the error. *)
Lemma no_solution_witness :
  RoutingService.manager_ok RoutingService.ex_ids 1 0
    RoutingService.ex_manager RoutingService.ex_routing /\
  RoutingService.is_node RoutingService.ex_ids 1 /\
  forall outcome fuel,
    (forall a, outcome = Some a ->
               RoutingService.feasible RoutingService.ex_minutes RoutingService.ex_pairs
                 1 0 RoutingService.ex_manager RoutingService.ex_routing a) ->
    RoutingService.solve_routes RoutingService.ex_ids 1 RoutingService.ex_manager
      RoutingService.ex_routing fuel outcome
    = Some (Raise RoutingService.infeasible).
Proof.
  assert (Hnode : RoutingService.is_node RoutingService.ex_ids 1)
    by (unfold RoutingService.is_node; simpl; lia).
  split; [exact RoutingService.ex_manager_ok |]. split; [exact Hnode |].
  intros outcome fuel Hsound.
  exact (proj1 (proj2 no_solution_is_infeasible_error)
           RoutingService.ex_ids RoutingService.ex_minutes RoutingService.ex_pairs
           1 0 0 RoutingService.ex_manager RoutingService.ex_routing
           1 2 [] outcome fuel RoutingService.ex_manager_ok eq_refl eq_refl Hnode Hsound).
Defined.

End Failures.

(** * The endpoint: [routes/api/solve_routes.py] *)

Module SolveRoutesEndpoint.

Module RS := RoutingService.
Module MS := MatrixService.

(** [SolveRoutesRequest] as the handler receives it, for requests that
    send no optional field as [null]: such a field holds the value sent
    or its default. *)
Record SolveRoutesRequest := {
  points : list MS.Point;
  pickup_drop_pairs : list (Z * Z);
  vehicle_count : Z;
  vehicle_capacity : Z;
  departure_time : option string;
  routing_preference : string
}.

(** [{"status": "ok", **result}] *)
Record Reply := { status : string; routes : list RS.Route }.

(** How a call of the handler ends: with a reply, with an exception, or
    with the process ended inside the native OR-Tools library, where no
    [except] clause is reached. *)
Inductive ending : Type :=
| Returns (reply : Reply)
| Raises (e : exn)
| Dies.

(** What lines 15-69 of [solve_routes] get from [pywrapcp]: the handles
    of lines 15-16 with what the search of line 69 returns; an exception
    of the binding's own (never an [HTTPException], of which OR-Tools
    knows nothing), of which the handler uses [str(e)]; or the end of the
    process by a failed check of the native library, as
    [RoutingIndexManager] can meet on an empty list of stops. *)
Inductive solver_run : Type :=
| Handles (manager : RS.RoutingIndexManager) (routing : RS.RoutingModel)
          (solution : option RS.Assignment)
| BindingRaises (message : string)
| ProcessEnds.

Section Endpoint.

Variable json_loads : string -> option json.
Variable py_float : string -> option pyfloat.
Variable py_int : string -> option Z.
Variable py_str : option json -> string.
Variable sha256_hexdigest : MS.Signature -> string.
Variable GOOGLE_MAPS_API_KEY : string.
Variable requests : nat -> MS.call -> MS.http_reply.
(** [str(e)] of an exception that is not an [HTTPException]. *)
Variable py_str_exn : exn -> string.
(** [pywrapcp] on the arguments of [solve_routes]. *)
Variable pywrapcp : list string -> MS.matrix -> list (Z * Z) -> Z -> Z -> solver_run.

Definition build_matrix : list MS.Point -> option string -> string -> bool -> MS.M MS.TravelMatrix :=
  MS.build_matrix json_loads py_float py_int py_str sha256_hexdigest GOOGLE_MAPS_API_KEY
    requests.

(** The two [except] clauses of lines 45-48. *)
Definition guard (e : exn) : exn :=
  match e with
  | HTTPException code detail => HTTPException code detail
  | _ => HTTPException 500 (py_str_exn e)
  end.

(** The handler.  The call of lines 36-42 leaves [depot_index] at its
    default, 0.  [None]: the extraction loop has not finished within
    [fuel] steps. *)
Definition solve_routes_endpoint (fuel : nat) (req : SolveRoutesRequest)
  : MS.state -> option (ending * MS.state) :=
  fun st =>
    match build_matrix (points req) (departure_time req) (routing_preference req) false st with
    | (Raise e, st') => Some (Raises (guard e), st')
    | (Ok matrix, st') =>
        match pywrapcp (MS.ids matrix) (MS.minutes matrix) (pickup_drop_pairs req)
                (vehicle_count req) (vehicle_capacity req) with
        | ProcessEnds => Some (Dies, st')
        | BindingRaises message => Some (Raises (HTTPException 500 message), st')
        | Handles manager routing solution =>
            match RS.solve_routes (MS.ids matrix) (vehicle_count req) manager routing
                    fuel solution with
            | None => None
            | Some (Raise e) => Some (Raises (guard e), st')
            | Some (Ok found) => Some (Returns {| status := "ok"; routes := found |}, st')
            end
        end
    end.

(** X24.  However a call of the handler ends, no exception other than an
    [HTTPException] with status 400, 500 or 502 leaves it.  A call that
    returns answers with status ["ok"].  A 400 or a 502 is always the
    matrix builder's own exception, passed on unchanged; a missing key, a
    search without solution and every exception that is not an
    [HTTPException] (a connection error, a payload that cannot be read, an
    exception out of the OR-Tools binding) all come out as 500.  What
    escapes the two [except] clauses is no exception: with the matrix
    built, the native library can end the process, or the extraction loop
    can fail to finish. *)
Theorem endpoint_raises_only_http_exceptions (fuel : nat) (req : SolveRoutesRequest)
    (st : MS.state) :
  match solve_routes_endpoint fuel req st with
  | Some (Returns reply, _) => status reply = "ok"
  | Some (Raises e, st') =>
      exists code detail,
        e = HTTPException code detail /\
        (code = 400 \/ code = 500 \/ code = 502) /\
        (code <> 500 ->
         build_matrix (points req) (departure_time req) (routing_preference req) false st
         = (Raise e, st'))
  | Some (Dies, st') =>
      exists matrix,
        build_matrix (points req) (departure_time req) (routing_preference req) false st
        = (Ok matrix, st') /\
        pywrapcp (MS.ids matrix) (MS.minutes matrix) (pickup_drop_pairs req)
          (vehicle_count req) (vehicle_capacity req) = ProcessEnds
  | None =>
      exists matrix st' manager routing solution,
        build_matrix (points req) (departure_time req) (routing_preference req) false st
        = (Ok matrix, st') /\
        pywrapcp (MS.ids matrix) (MS.minutes matrix) (pickup_drop_pairs req)
          (vehicle_count req) (vehicle_capacity req) = Handles manager routing solution /\
        RS.solve_routes (MS.ids matrix) (vehicle_count req) manager routing fuel solution
        = None
  end.
Proof.
  assert (Hguard : forall e st',
            (forall code detail, e = HTTPException code detail ->
               (code = 400 \/ code = 500 \/ code = 502) /\
               (code <> 500 ->
                build_matrix (points req) (departure_time req) (routing_preference req) false st
                = (Raise e, st'))) ->
            exists code detail,
              guard e = HTTPException code detail /\
              (code = 400 \/ code = 500 \/ code = 502) /\
              (code <> 500 ->
               build_matrix (points req) (departure_time req) (routing_preference req) false st
               = (Raise (guard e), st'))).
  { intros e st' He.
    destruct e as [code detail | | | | | | | | |];
      try (eexists 500, _; split; [reflexivity |]; split; [auto | congruence]).
    exists code, detail. split; [reflexivity |]. apply (He code detail eq_refl). }
  unfold solve_routes_endpoint.
  pose proof (MS.build_matrix_raises json_loads py_float py_int py_str sha256_hexdigest
                GOOGLE_MAPS_API_KEY requests (points req) (departure_time req)
                (routing_preference req) false st) as Hb.
  fold build_matrix in Hb.
  destruct (build_matrix (points req) (departure_time req) (routing_preference req) false st)
    as [[matrix | e0] st1].
  - destruct (pywrapcp _ _ _ _ _) as [manager routing solution | message |] eqn:Ew.
    + destruct (RS.solve_routes _ _ _ _ _ _) as [[found | e0] |] eqn:E.
      * reflexivity.
      * destruct (RS.solve_routes_failure _ _ _ _ _ _ _ E) as [-> | ->].
        -- exists 500, "No feasible route found". split; [reflexivity |].
           split; [auto | congruence].
        -- exists 500, (py_str_exn IndexError). split; [reflexivity |].
           split; [auto | congruence].
      * exists matrix, st1, manager, routing, solution. auto.
    + exists 500, message. split; [reflexivity |]. split; [auto | congruence].
    + exists matrix. auto.
  - apply Hguard. intros code detail ->. specialize (Hb _ eq_refl). simpl in Hb.
    split; [| reflexivity]. destruct Hb as [-> | [-> | [-> _]]]; auto.
Qed.

(** X25.  The first point of the request is the depot.  When the matrix
    is computed for the request and the solver returns an assignment
    for the model, the endpoint answers with status ["ok"] and one route
    per vehicle, and every route opens and closes with the id of the
    first point. *)
Theorem first_point_is_the_depot
    (req : SolveRoutesRequest) (st st1 st' : MS.state)
    (ids1 : list string) (coords : list (Q * Q)) (matrix : MS.TravelMatrix)
    (mins : list (list Z)) (manager : RS.RoutingIndexManager)
    (routing : RS.RoutingModel) (a : RS.Assignment) :
  MS.resolve_points json_loads py_float py_str GOOGLE_MAPS_API_KEY requests
    (points req) false st = (Ok (ids1, coords), st1) ->
  MS.cache st !! MS._cache_key sha256_hexdigest coords (departure_time req)
                   (routing_preference req) = None ->
  build_matrix (points req) (departure_time req) (routing_preference req) false st
    = (Ok matrix, st') ->
  MS.minutes matrix = map (map Some) mins ->
  pywrapcp (MS.ids matrix) (MS.minutes matrix) (pickup_drop_pairs req)
    (vehicle_count req) (vehicle_capacity req) = Handles manager routing (Some a) ->
  RS.manager_ok (MS.ids matrix) (vehicle_count req) 0 manager routing ->
  RS.feasible mins (pickup_drop_pairs req) (vehicle_count req) (vehicle_capacity req)
    manager routing a ->
  exists fuel0, forall fuel, (fuel0 <= fuel)%nat ->
    exists found,
      solve_routes_endpoint fuel req st
        = Some (Returns {| status := "ok"; routes := found |}, st') /\
      length found = Z.to_nat (vehicle_count req) /\
      forall r, r ∈ found ->
        exists p others first visits final,
          points req = p :: others /\
          RS.stops r = first :: visits ++ [final] /\
          RS.stop_id first = MS.id p /\ RS.stop_id final = MS.id p.
Proof.
  intros Hres Hmiss Hb Hmins Hsolver M F.
  destruct (MS.build_matrix_miss _ _ _ _ _ _ _ _ _ _ _ _ _ _ _ _ _ Hres Hmiss Hb)
    as [mm [st2 [_ [Hm _]]]].
  apply MS.resolve_points_spec in Hres as [Hids _].
  assert (Ei : MS.ids matrix = map MS.id (points req)) by (rewrite Hm; exact Hids).
  destruct (RS.solve_routes_extracts _ mins _ _ _ 0 _ _ a M F) as [fuel0 Hex].
  exists fuel0. intros fuel Hfuel.
  destruct (Hex fuel Hfuel) as [found [Hsolve Hroutes]].
  exists found. split; [| split].
  - unfold solve_routes_endpoint. rewrite Hb, Hsolver, Hsolve. reflexivity.
  - rewrite <- (Forall2_length _ _ _ Hroutes). apply RS.range_length.
  - intros r Hr. apply list_elem_of_lookup in Hr as [k Hk].
    destruct (RS.routes_lookup _ _ _ _ a found k r Hroutes Hk) as [Hv [l [e [Hp ->]]]].
    destruct (RS.route_of_depot_ends _ _ _ _ _ _ _ _ a _ l e M F Hv Hp)
      as [first [visits [final [Hstops [Hfirst [_ [_ [Hfinal _]]]]]]]].
    rewrite Ei in Hfirst, Hfinal.
    destruct (points req) as [| p others]; [discriminate Hfirst |].
    exists p, others, first, visits, final.
    split; [reflexivity |]. split; [exact Hstops |].
    assert (Hg : Py.getitem (map MS.id (p :: others)) 0 = Ok (MS.id p)) by reflexivity.
    rewrite Hg in Hfirst, Hfinal. injection Hfirst as Hf. injection Hfinal as Hl. auto.
Qed.

End Endpoint.

(** ** A request for the depot alone *)

(** The provider reports the one element of a one-by-one block. *)
Definition ex_single_requests (clock : nat) (c : MS.call) : MS.http_reply :=
  MS.Response 200 MS.ex_line00.

Definition ex_str_exn (e : exn) : string := "error".

(** Index 0 is the vehicle's start, index 1 its end; both are node 0. *)
Definition ex_single_manager : RS.RoutingIndexManager :=
  {| RS.IndexToNode := fun _ => 0; RS.NodeToIndex := fun _ => 0 |}.

Definition ex_single_routing : RS.RoutingModel :=
  {| RS.num_indices := 2; RS.Start := fun _ => 0; RS.IsEnd := fun j => 1 <=? j |}.

Definition ex_single_assignment : RS.Assignment :=
  {| RS.NextVar := fun i => i + 1;
     RS.VehicleVar := fun _ => 0;
     RS.TimeCumulVar := fun _ => 0;
     RS.CapacityCumulVar := fun _ => 0 |}.

(** The solver of this world: it ends the process on an empty list of
    stops and answers every other call with the one-stop assignment. *)
Definition ex_pywrapcp (ids : list string) (minutes : MS.matrix) (pairs : list (Z * Z))
    (vehicle_count vehicle_capacity : Z) : solver_run :=
  match ids with
  | [] => ProcessEnds
  | _ => Handles ex_single_manager ex_single_routing (Some ex_single_assignment)
  end.

Definition ex_single_request : SolveRoutesRequest :=
  {| points := [MS.ex_depot]; pickup_drop_pairs := []; vehicle_count := 1;
     vehicle_capacity := 2; departure_time := None;
     routing_preference := "TRAFFIC_AWARE" |}.

(** The process after the build for that request. *)
Definition ex_single_built : MS.state :=
  {| MS.cache := MS.cache MS.ex_warm;
     MS.calls := [MS.RouteMatrixCall "test-key"
                    (MS.route_matrix_body [(3568 # 100, 13976 # 100)]
                       [(3568 # 100, 13976 # 100)] None "TRAFFIC_AWARE")] |}.

Example ex_single_build_runs :
  build_matrix MS.ex_json_loads MS.ex_py_float MS.ex_py_int MS.ex_py_str MS.ex_digest
    MS.ex_env_key ex_single_requests [MS.ex_depot] None "TRAFFIC_AWARE" false MS.ex_empty
  = (Ok MS.ex_stored, ex_single_built).
Proof. vm_compute. reflexivity. Qed.

Lemma ex_single_manager_ok :
  RS.manager_ok ["DEPOT"] 1 0 ex_single_manager ex_single_routing.
Proof.
  constructor.
  - intros j Hj. unfold RS.is_node. simpl. lia.
  - intros n Hn. unfold RS.is_index. simpl. unfold RS.is_node in Hn. simpl in Hn.
    repeat split; lia.
  - intros v Hv. unfold RS.is_index. simpl. repeat split; lia.
  - intros j Hj He. reflexivity.
Qed.

Lemma ex_single_path : RS.path ex_single_routing ex_single_assignment 0 [0] 1.
Proof. apply RS.path_step; [reflexivity |]. apply RS.path_end. reflexivity. Qed.

Lemma ex_single_feasible :
  RS.feasible [[0]] [] 1 2 ex_single_manager ex_single_routing ex_single_assignment.
Proof.
  assert (Hzero : forall i, RS.is_index ex_single_routing i ->
            RS.IsEnd ex_single_routing i = false -> i = 0).
  { intros i Hi He. unfold RS.is_index in Hi. simpl in Hi, He.
    destruct (Z.leb_spec 1 i); [discriminate He | lia]. }
  constructor.
  - intros i Hi He. rewrite (Hzero i Hi He). unfold RS.is_index. simpl. lia.
  - intros v Hv. exists [0], 1. apply ex_single_path.
  - intros i Hi He. rewrite (Hzero i Hi He). split; [simpl; lia |].
    exists [0], 1. split; [apply ex_single_path | left].
  - intros i Hi He. exists 0. split; [reflexivity | simpl; lia].
  - intros j Hj. simpl. lia.
  - intros v Hv. reflexivity.
  - intros i Hi He. reflexivity.
  - intros j Hj. simpl. lia.
  - intros v Hv. reflexivity.
  - intros p d Hpd. apply elem_of_nil in Hpd. contradiction.
  - intros p d Hpd. apply elem_of_nil in Hpd. contradiction.
Qed.

Lemma first_point_witness :
  exists fuel0, forall fuel, (fuel0 <= fuel)%nat ->
    exists found,
      solve_routes_endpoint MS.ex_json_loads MS.ex_py_float MS.ex_py_int MS.ex_py_str
        MS.ex_digest MS.ex_env_key ex_single_requests ex_str_exn ex_pywrapcp
        fuel ex_single_request MS.ex_empty
        = Some (Returns {| status := "ok"; routes := found |}, ex_single_built) /\
      length found = Z.to_nat (vehicle_count ex_single_request) /\
      forall r, r ∈ found ->
        exists p others first visits final,
          points ex_single_request = p :: others /\
          RS.stops r = first :: visits ++ [final] /\
          RS.stop_id first = MS.id p /\ RS.stop_id final = MS.id p.
Proof.
  apply (first_point_is_the_depot MS.ex_json_loads MS.ex_py_float MS.ex_py_int MS.ex_py_str
           MS.ex_digest MS.ex_env_key ex_single_requests ex_str_exn ex_pywrapcp
           ex_single_request MS.ex_empty MS.ex_empty ex_single_built
           ["DEPOT"] [(3568 # 100, 13976 # 100)] MS.ex_stored [[0]]
           ex_single_manager ex_single_routing ex_single_assignment).
  - reflexivity.
  - reflexivity.
  - exact ex_single_build_runs.
  - reflexivity.
  - reflexivity.
  - exact ex_single_manager_ok.
  - exact ex_single_feasible.
Defined.

(** The two-stop request against a provider that is down. *)
Definition ex_two_stop_request : SolveRoutesRequest :=
  {| points := MS.ex_points; pickup_drop_pairs := []; vehicle_count := 1;
     vehicle_capacity := 2; departure_time := None;
     routing_preference := "TRAFFIC_AWARE" |}.

Definition ex_after_failure : MS.state :=
  {| MS.cache := MS.cache MS.ex_empty;
     MS.calls := [MS.RouteMatrixCall "test-key"
                    (MS.route_matrix_body MS.ex_coords MS.ex_coords None "TRAFFIC_AWARE")] |}.

Example ex_endpoint_fails :
  solve_routes_endpoint MS.ex_json_loads MS.ex_py_float MS.ex_py_int MS.ex_py_str
    MS.ex_digest MS.ex_env_key MS.ex_down ex_str_exn ex_pywrapcp
    5 ex_two_stop_request MS.ex_empty
  = Some (Raises (HTTPException 502 "Routes API HTTP 503: Service Unavailable"),
          ex_after_failure).
Proof. vm_compute. reflexivity. Qed.

(** A request without points: the builder returns the empty matrix, with
    no call made, and the solver is started on no stop at all. *)
Definition ex_no_points_request : SolveRoutesRequest :=
  {| points := []; pickup_drop_pairs := []; vehicle_count := 1;
     vehicle_capacity := 2; departure_time := None;
     routing_preference := "TRAFFIC_AWARE" |}.

Example ex_endpoint_dies :
  solve_routes_endpoint MS.ex_json_loads MS.ex_py_float MS.ex_py_int MS.ex_py_str
    MS.ex_digest MS.ex_env_key MS.ex_down ex_str_exn ex_pywrapcp
    5 ex_no_points_request MS.ex_empty
  = Some (Dies, {| MS.cache := <[MS._cache_key MS.ex_digest [] None "TRAFFIC_AWARE" :=
                                   {| MS.ids := []; MS.minutes := []; MS.meters := [] |}]>
                                 (MS.cache MS.ex_empty);
                   MS.calls := [] |}).
Proof. vm_compute. reflexivity. Qed.

(** The provider that is down comes out as the builder's 502; the request
    without points is no exception at all. *)
Lemma endpoint_http_exceptions_witness :
  (exists code detail,
     HTTPException 502 "Routes API HTTP 503: Service Unavailable"
       = HTTPException code detail /\
     (code = 400 \/ code = 500 \/ code = 502) /\
     (code <> 500 ->
      build_matrix MS.ex_json_loads MS.ex_py_float MS.ex_py_int MS.ex_py_str MS.ex_digest
        MS.ex_env_key MS.ex_down (points ex_two_stop_request)
        (departure_time ex_two_stop_request) (routing_preference ex_two_stop_request)
        false MS.ex_empty
      = (Raise (HTTPException 502 "Routes API HTTP 503: Service Unavailable"),
         ex_after_failure))) /\
  (exists matrix,
     build_matrix MS.ex_json_loads MS.ex_py_float MS.ex_py_int MS.ex_py_str MS.ex_digest
       MS.ex_env_key MS.ex_down [] None "TRAFFIC_AWARE" false MS.ex_empty
     = (Ok matrix, {| MS.cache := <[MS._cache_key MS.ex_digest [] None "TRAFFIC_AWARE" :=
                                     {| MS.ids := []; MS.minutes := []; MS.meters := [] |}]>
                                   (MS.cache MS.ex_empty);
                      MS.calls := [] |}) /\
     ex_pywrapcp (MS.ids matrix) (MS.minutes matrix) [] 1 2 = ProcessEnds).
Proof.
  split.
  - pose proof (endpoint_raises_only_http_exceptions MS.ex_json_loads MS.ex_py_float
                  MS.ex_py_int MS.ex_py_str MS.ex_digest MS.ex_env_key MS.ex_down
                  ex_str_exn ex_pywrapcp 5 ex_two_stop_request MS.ex_empty) as H.
    rewrite ex_endpoint_fails in H. exact H.
  - pose proof (endpoint_raises_only_http_exceptions MS.ex_json_loads MS.ex_py_float
                  MS.ex_py_int MS.ex_py_str MS.ex_digest MS.ex_env_key MS.ex_down
                  ex_str_exn ex_pywrapcp 5 ex_no_points_request MS.ex_empty) as H.
    rewrite ex_endpoint_dies in H. exact H.
Defined.

End SolveRoutesEndpoint.
